(** * CSR.hpp: the compressed-sparse-row matrix of seyrek

    A shallow embedding of [src/main/cpp/CSR.hpp], the properties its
    specification states about it, and further properties of the code.

    Conventions of the embedding.
    - [unsigned int] is 32 bits wide: a value is a [Z] in [[0, 2^32)] and
      every arithmetic result is reduced by [uint].
    - The template parameter [SpMVInd] ranges over the unsigned integer
      types that are at least as wide as [unsigned int] ([IndType]); the
      template parameter [SpMVVal] is any type with a size and a conversion
      from integers ([ValueType]).
    - An array is a list of cells; a cell that was allocated and never
      written holds [None].  A struct field that was never assigned holds
      [None] as well.
    - An operation either returns ([Ok]), throws a C string ([Throw]) or has
      undefined behaviour ([Undefined]): a null or out-of-range access, the
      use of an indeterminate value, a division by zero. *)

From Stdlib Require Import ZArith String Ascii Lia Bool.
From stdpp Require Import base tactics option list list_numbers.

Open Scope Z_scope.

(** ** Machine integers *)

Definition UINT_RANGE : Z := 2 ^ 32.
Definition INT_MAX : Z := 2 ^ 31 - 1.

(** The value of an [unsigned int] expression whose exact result is [z]. *)
Definition uint (z : Z) : Z := z mod UINT_RANGE.

(** Conversion of an [unsigned int] to [int] (two's complement). *)
Definition to_int (z : Z) : Z := if z <=? INT_MAX then z else z - UINT_RANGE.

(** The index types the template is instantiated with. *)
Inductive IndType : Set := UInt32 | UInt64.

Definition sizeofInd (T : IndType) : Z :=
  match T with UInt32 => 4 | UInt64 => 8 end.

Definition IND_RANGE (T : IndType) : Z := 2 ^ (8 * sizeofInd T).

(** The value of a [SpMVInd] expression whose exact result is [z]. *)
Definition ind (T : IndType) (z : Z) : Z := z mod IND_RANGE T.

(** The value types the template is instantiated with: [sizeofVal] is
    [sizeof(SpMVVal)] and [castVal] the conversion [(SpMVVal) z] of an
    integer. *)
Class ValueType (V : Type) : Type := {
  sizeofVal : Z;
  castVal : Z -> V
}.

(** [uint64_t] as a value type. *)
Definition uint64 : Type := Z.
#[global] Instance uint64_ValueType : ValueType uint64 := {|
  sizeofVal := 8;
  castVal z := z mod 2 ^ 64
|}.

(** ** Outcomes *)

Inductive outcome (A : Type) : Type :=
| Ok (a : A)
| Throw (what : string)
| Undefined.
Arguments Ok {A} a.
Arguments Throw {A} what.
Arguments Undefined {A}.

#[global] Instance outcome_ret : MRet outcome := fun A a => Ok a.
#[global] Instance outcome_bind : MBind outcome := fun A B f m =>
  match m with
  | Ok a => f a
  | Throw what => Throw what
  | Undefined => Undefined
  end.

(** [for (T i = first; ...; i++) body], run for [trips] iterations. *)
Fixpoint for_loop {St : Type} (trips : nat) (i : Z)
    (body : Z -> St -> outcome St) (s : St) : outcome St :=
  match trips with
  | O => Ok s
  | S n => s' ← body i s; for_loop n (i + 1) body s'
  end.

(** [for (T i = 0; i < bound; i++) body] where [T] is an unsigned type that
    holds [bound]: the counter takes the values [0 .. bound - 1]. *)
Definition for_upto {St : Type} (bound : Z) (body : Z -> St -> outcome St)
    (s : St) : outcome St :=
  for_loop (Z.to_nat bound) 0 body s.

(** Unsigned division and remainder; a zero divisor is undefined. *)
Definition udiv (a b : Z) : outcome Z :=
  if b =? 0 then Undefined else Ok (a / b).
Definition umod (a b : Z) : outcome Z :=
  if b =? 0 then Undefined else Ok (a mod b).

(** ** Memory *)

(** A cell, a field: [None] while indeterminate. *)
Definition rd {A : Type} (c : option A) : outcome A :=
  match c with Some v => Ok v | None => Undefined end.

Abbreviation array A := (list (option A)) (only parsing).

(** [new A[n]] *)
Definition new_array {A : Type} (n : Z) : array A :=
  replicate (Z.to_nat n) None.

(** An array of [n] cells whose first cells hold [l] and whose remaining
    cells were not written yet. *)
Definition filled {A : Type} (l : list A) (n : nat) : array A :=
  (Some <$> l) ++ replicate (n - length l) None.

(** [a[i]] as an rvalue *)
Definition arr_get {A : Type} (a : array A) (i : Z) : outcome A :=
  if i <? 0 then Undefined
  else match a !! Z.to_nat i with
       | Some c => rd c
       | None => Undefined
       end.

(** [a[i] = v] *)
Definition arr_set {A : Type} (a : array A) (i : Z) (v : A) : outcome (array A) :=
  if (0 <=? i) && (i <? Z.of_nat (length a))
  then Ok (<[Z.to_nat i := Some v]> a)
  else Undefined.

(** A pointer into an array: null, or the array and the offset of the
    element pointed to. *)
Inductive ptr (A : Type) : Type :=
| Null
| Ptr (buf : array A) (off : Z).
Arguments Null {A}.
Arguments Ptr {A} buf off.

(** [p[i]] as an rvalue *)
Definition ptr_get {A : Type} (p : ptr A) (i : Z) : outcome A :=
  match p with
  | Null => Undefined
  | Ptr buf off => arr_get buf (off + i)
  end.

(** [&p[i]] *)
Definition ptr_at {A : Type} (p : ptr A) (i : Z) : outcome (ptr A) :=
  match p with
  | Null => Undefined
  | Ptr buf off => Ok (Ptr buf (off + i))
  end.

(** ** SparseMatrixMetadata *)

Record SparseMatrixMetadata : Type := {
  rows : option Z;
  cols : option Z;
  nz : option Z;
  startingRow : option Z;
  startingCol : option Z;
  bytesPerInd : option Z;
  bytesPerVal : option Z
}.

(** [new SparseMatrixMetadata]: no field is initialised. *)
Definition new_SparseMatrixMetadata : SparseMatrixMetadata :=
  {| rows := None; cols := None; nz := None; startingRow := None;
     startingCol := None; bytesPerInd := None; bytesPerVal := None |}.

Definition set_rows (v : option Z) (md : SparseMatrixMetadata) :=
  {| rows := v; cols := cols md; nz := nz md; startingRow := startingRow md;
     startingCol := startingCol md; bytesPerInd := bytesPerInd md;
     bytesPerVal := bytesPerVal md |}.
Definition set_cols (v : option Z) (md : SparseMatrixMetadata) :=
  {| rows := rows md; cols := v; nz := nz md; startingRow := startingRow md;
     startingCol := startingCol md; bytesPerInd := bytesPerInd md;
     bytesPerVal := bytesPerVal md |}.
Definition set_nz (v : option Z) (md : SparseMatrixMetadata) :=
  {| rows := rows md; cols := cols md; nz := v; startingRow := startingRow md;
     startingCol := startingCol md; bytesPerInd := bytesPerInd md;
     bytesPerVal := bytesPerVal md |}.
Definition set_startingRow (v : option Z) (md : SparseMatrixMetadata) :=
  {| rows := rows md; cols := cols md; nz := nz md; startingRow := v;
     startingCol := startingCol md; bytesPerInd := bytesPerInd md;
     bytesPerVal := bytesPerVal md |}.
Definition set_startingCol (v : option Z) (md : SparseMatrixMetadata) :=
  {| rows := rows md; cols := cols md; nz := nz md; startingRow := startingRow md;
     startingCol := v; bytesPerInd := bytesPerInd md;
     bytesPerVal := bytesPerVal md |}.
Definition set_bytesPerInd (v : option Z) (md : SparseMatrixMetadata) :=
  {| rows := rows md; cols := cols md; nz := nz md; startingRow := startingRow md;
     startingCol := startingCol md; bytesPerInd := v;
     bytesPerVal := bytesPerVal md |}.
Definition set_bytesPerVal (v : option Z) (md : SparseMatrixMetadata) :=
  {| rows := rows md; cols := cols md; nz := nz md; startingRow := startingRow md;
     startingCol := startingCol md; bytesPerInd := bytesPerInd md;
     bytesPerVal := v |}.

(** ** C strings

    A [char] buffer is the list of the characters before its terminating
    zero. *)

Definition str_get (s : list ascii) (i : Z) : outcome ascii :=
  if i <? 0 then Undefined
  else match s !! Z.to_nat i with
       | Some c => Ok c
       | None => Undefined
       end.

Definition str_set (s : list ascii) (i : Z) (c : ascii) : outcome (list ascii) :=
  if (0 <=? i) && (i <? Z.of_nat (length s))
  then Ok (<[Z.to_nat i := c]> s)
  else Undefined.

(** The loop of [reverse]: [for (...; i<j; i++, j--)] swapping [s[i]] and
    [s[j]].  The distance [j - i] shrinks by two each round, so [fuel]
    rounds suffice once [fuel] is the length of the string. *)
Fixpoint reverse_loop (fuel : nat) (i j : Z) (s : list ascii)
    : outcome (list ascii) :=
  if i <? j then
    match fuel with
    | O => Undefined
    | S fuel =>
        c ← str_get s i;
        sj ← str_get s j;
        s ← str_set s i sj;
        s ← str_set s j c;
        reverse_loop fuel (i + 1) (j - 1) s
    end
  else Ok s.

(** [CSR::reverse].  [strlen(s)-1] is computed in [size_t] and stored in
    the [int] [j]: of the difference, which wraps around for the empty
    string, [j] keeps the low 32 bits, read in two's complement. *)
Definition reverse (s : list ascii) : outcome (list ascii) :=
  reverse_loop (length s) 0 (to_int (uint (Z.of_nat (length s) - 1))) s.

(** ['0' + d] as a [char] *)
Definition digit_char (d : Z) : ascii := ascii_of_nat (Z.to_nat (d + 48)).

(** The [do ... while ((n /= 10) > 0)] loop of [itoa].  The quotient
    shrinks tenfold each round: ten rounds exhaust an [int]. *)
Fixpoint itoa_loop (fuel : nat) (n : Z) (s : list ascii)
    : outcome (list ascii) :=
  match fuel with
  | O => Undefined
  | S fuel =>
      let s := s ++ [digit_char (Z.rem n 10)] in
      let n := Z.quot n 10 in
      if 0 <? n then itoa_loop fuel n s else Ok s
  end.

(** [CSR::itoa]: the characters written to [s].  Negating [INT_MIN]
    overflows. *)
Definition itoa (n : Z) : outcome string :=
  let sign := n in
  n ← (if sign <? 0
       then (if n =? - INT_MAX - 1 then Undefined else Ok (- n))
       else Ok n);
  s ← itoa_loop 10 n [];
  let s := if sign <? 0 then s ++ ["-"%char] else s in
  s ← reverse s;
  Ok (string_of_list_ascii s).

(** ** The class CSR *)

Section CSR.
Context (SpMVInd : IndType) (SpMVVal : Type) `{!ValueType SpMVVal}.

Record CSR : Type := {
  m_needsDealloc : bool;
  m_metadata : option SparseMatrixMetadata;   (* [None]: the null pointer *)
  m_indPtrs : ptr Z;
  m_inds : ptr Z;
  m_nzData : ptr SpMVVal;
  m_name : string
}.

(** [CSR()] *)
Definition new_CSR : CSR :=
  {| m_needsDealloc := false; m_metadata := None;
     m_indPtrs := Null; m_inds := Null; m_nzData := Null;
     m_name := "<not initialized>" |}.

(** [m_metadata-> ...] *)
Definition metadata (this : CSR) : outcome SparseMatrixMetadata :=
  rd (m_metadata this).

Definition isSquare (this : CSR) : outcome bool :=
  md ← metadata this;
  c ← rd (cols md);
  r ← rd (rows md);
  Ok (c =? r).

Definition getRows (this : CSR) : outcome Z := md ← metadata this; rd (rows md).
Definition getCols (this : CSR) : outcome Z := md ← metadata this; rd (cols md).
Definition getNNZ (this : CSR) : outcome Z := md ← metadata this; rd (nz md).
Definition getStartingRow (this : CSR) : outcome Z :=
  md ← metadata this; rd (startingRow md).

(** [CSR::eye] *)
Definition eye (dim : Z) : outcome CSR :=
  let md := new_SparseMatrixMetadata in
  let md := set_startingRow (Some 0) md in
  let md := set_startingCol (Some 0) md in
  let md := set_cols (Some dim) md in
  let md := set_rows (Some dim) md in
  let md := set_nz (Some dim) md in
  let indPtrs : array Z := new_array (uint (dim + 1)) in
  let inds : array Z := new_array dim in
  let nzData : array SpMVVal := new_array dim in
  '(indPtrs, inds, nzData) ←
    for_upto dim (fun i '(indPtrs, inds, nzData) =>
      indPtrs ← arr_set indPtrs i i;
      inds ← arr_set inds i i;
      nzData ← arr_set nzData i (castVal 1);
      Ok (indPtrs, inds, nzData)) (indPtrs, inds, nzData);
  indPtrs ← arr_set indPtrs dim dim;
  Ok {| m_needsDealloc := true; m_metadata := Some md;
        m_indPtrs := Ptr indPtrs 0; m_inds := Ptr inds 0;
        m_nzData := Ptr nzData 0; m_name := "eye" |}.

(** [CSR::dense] *)
Definition dense (dim : Z) : outcome CSR :=
  let md := new_SparseMatrixMetadata in
  let md := set_startingRow (Some 0) md in
  let md := set_startingCol (Some 0) md in
  let md := set_cols (Some dim) md in
  let md := set_rows (Some dim) md in
  let md := set_nz (Some (uint (dim * dim))) md in
  let indPtrs : array Z := new_array (uint (dim + 1)) in
  let inds : array Z := new_array (uint (dim * dim)) in
  let nzData : array SpMVVal := new_array (uint (dim * dim)) in
  indPtrs ← for_upto dim (fun i indPtrs =>
               arr_set indPtrs i (ind SpMVInd (i * dim))) indPtrs;
  indPtrs ← arr_set indPtrs dim (uint (dim * dim));
  '(inds, nzData) ←
    for_upto (uint (dim * dim)) (fun i '(inds, nzData) =>
      c ← umod i dim;
      inds ← arr_set inds i c;
      nzData ← arr_set nzData i (castVal (ind SpMVInd (i + 1)));
      Ok (inds, nzData)) (inds, nzData);
  Ok {| m_needsDealloc := true; m_metadata := Some md;
        m_indPtrs := Ptr indPtrs 0; m_inds := Ptr inds 0;
        m_nzData := Ptr nzData 0; m_name := "dense" |}.

(** [CSR::calcRowPartitionBoundaries] *)
Definition calcRowPartitionBoundaries (this : CSR) (numPartitions : Z)
    : outcome (list Z) :=
  md ← metadata this;
  r ← rd (rows md);
  divSize ← udiv (uint (r + numPartitions)) numPartitions;
  boundaries ← for_upto numPartitions (fun i boundaries =>
                  Ok (boundaries ++ [ind SpMVInd (uint (divSize * i))])) [];
  Ok (boundaries ++ [ind SpMVInd r]).

(** [std::vector::operator[]] *)
Definition vec_get {A : Type} (v : list A) (i : Z) : outcome A :=
  if i <? 0 then Undefined
  else match v !! Z.to_nat i with
       | Some x => Ok x
       | None => Undefined
       end.

(** The body of the loop of [rowPartitionedView]: the view [res[i]]
    built in round [i]. *)
Definition nth_child (this : CSR) (boundaries : list Z) (i : Z)
    : outcome CSR :=
  parent ← metadata this;
  let md := new_SparseMatrixMetadata in
  let md := set_cols (cols parent) md in
  hi ← vec_get boundaries (uint (i + 1));
  lo ← vec_get boundaries i;
  let md := set_rows (Some (uint (ind SpMVInd (hi - lo)))) md in
  pHi ← ptr_get (m_indPtrs this) hi;
  pLo ← ptr_get (m_indPtrs this) lo;
  let md := set_nz (Some (uint (ind SpMVInd (pHi - pLo)))) md in
  let md := set_startingRow (Some (uint lo)) md in
  let md := set_startingCol (Some 0) md in
  let md := set_bytesPerInd (bytesPerInd parent) md in
  let md := set_bytesPerVal (bytesPerVal parent) md in
  indPtrs ← ptr_at (m_indPtrs this) lo;
  inds ← ptr_at (m_inds this) pLo;
  nzData ← ptr_at (m_nzData this) pLo;
  partName ← itoa (to_int i);
  Ok {| m_needsDealloc := false; m_metadata := Some md;
        m_indPtrs := indPtrs; m_inds := inds; m_nzData := nzData;
        m_name := (m_name this ++ "-p" ++ partName)%string |}.

(** [CSR::rowPartitionedView] *)
Definition rowPartitionedView (this : CSR) (boundaries : list Z)
    : outcome (list CSR) :=
  let numPartitions := uint (Z.of_nat (length boundaries) - 1) in
  for_upto numPartitions (fun i res =>
    child ← nth_child this boundaries i;
    Ok (res ++ [child])) [].

(** *** The component store

    [readMatrixData] is external.  The store it reads is a parameter of
    [load]: for a matrix name, each of the four components is a buffer of
    the component's type, or absent (the null pointer). *)
Record components : Type := {
  file_meta : option SparseMatrixMetadata;
  file_indptr : option (list Z);
  file_inds : option (list Z);
  file_nzdata : option (list SpMVVal)
}.

Definition store : Type := string -> components.

(** A buffer read from the store, as an array. *)
Definition loaded {A : Type} (l : list A) : ptr A := Ptr (Some <$> l) 0.

(** [CSR::load] *)
Definition load (st : store) (name : string) (genNZData : bool)
    : outcome CSR :=
  md ← rd (file_meta (st name));
  bpi ← rd (bytesPerInd md);
  if negb (bpi =? sizeofInd SpMVInd) then
    Throw "bytesPerInd mismatch in CSR::load"
  else
  bpv ← rd (bytesPerVal md);
  if negb (bpv =? sizeofVal) && negb genNZData then
    Throw "bytesPerVal mismatch in CSR::load -- consider using genNZData"
  else
  match file_indptr (st name) with
  | None => Throw "could not load indptr in CSR::load"
  | Some indPtrs =>
  match file_inds (st name) with
  | None => Throw "could not load inds in CSR::load"
  | Some inds =>
    nzData ←
      (if genNZData then
         n ← rd (nz md);
         let nnz := ind SpMVInd n in
         nzData ← for_upto nnz (fun i nzData =>
                     arr_set nzData i (castVal (ind SpMVInd (i + 1))))
                   (new_array nnz);
         Ok (Ptr nzData 0)
       else
         match file_nzdata (st name) with
         | None => Throw "could not load nzdata in CSR::load"
         | Some nzData => Ok (loaded nzData)
         end);
    Ok {| m_needsDealloc := true; m_metadata := Some md;
          m_indPtrs := loaded indPtrs; m_inds := loaded inds;
          m_nzData := nzData; m_name := name |}
  end
  end.

End CSR.

Arguments m_needsDealloc {SpMVVal} _.
Arguments m_metadata {SpMVVal} _.
Arguments m_indPtrs {SpMVVal} _.
Arguments m_inds {SpMVVal} _.
Arguments m_nzData {SpMVVal} _.
Arguments m_name {SpMVVal} _.
Arguments file_meta {SpMVVal} _.
Arguments file_indptr {SpMVVal} _.
Arguments file_inds {SpMVVal} _.
Arguments file_nzdata {SpMVVal} _.
Arguments loaded : simpl never.


(** ** The invariants of the data model *)

Section Invariants.
Context {SpMVVal : Type}.

(** The first [n] elements behind a pointer, provided they all lie inside
    the array and are initialised. *)
Definition elements {A : Type} (p : ptr A) (n : Z) : option (list A) :=
  match p with
  | Null => None
  | Ptr buf off =>
      if (0 <=? off) && (0 <=? n) && (off + n <=? Z.of_nat (length buf))
      then mapM id (take (Z.to_nat n) (drop (Z.to_nat off) buf))
      else None
  end.

(** What a matrix denotes: its shape and the entries of its three
    sequences. *)
Record view : Type := {
  v_rows : Z;
  v_cols : Z;
  v_nz : Z;
  v_indPtrs : list Z;
  v_inds : list Z;
  v_nzData : list SpMVVal
}.

Definition view_of (m : CSR SpMVVal) : option view :=
  md ← m_metadata m;
  r ← rows md;
  c ← cols md;
  n ← nz md;
  ip ← elements (m_indPtrs m) (r + 1);
  ix ← elements (m_inds m) n;
  vs ← elements (m_nzData m) n;
  Some {| v_rows := r; v_cols := c; v_nz := n;
          v_indPtrs := ip; v_inds := ix; v_nzData := vs |}.

(** [l[k]] *)
Definition nth_Z (l : list Z) (k : Z) : Z := l !!! Z.to_nat k.

Definition is_uint (z : Z) : Prop := 0 <= z /\ z < UINT_RANGE.

(** The invariants: the shape fields are [unsigned int]s, the three
    sequences have [rows + 1], [nz] and [nz] entries, the index pointers
    are non-negative, non-decreasing and bounded by the last one, the
    column indices are below [cols], and [nz] is the distance between the
    first and the last index pointer. *)
Definition view_ok (v : view) : Prop :=
  (is_uint (v_rows v) /\ is_uint (v_cols v) /\ is_uint (v_nz v)) /\
  Z.of_nat (length (v_indPtrs v)) = v_rows v + 1 /\
  Z.of_nat (length (v_inds v)) = v_nz v /\
  Z.of_nat (length (v_nzData v)) = v_nz v /\
  Forall (fun r => 0 <= nth_Z (v_indPtrs v) r /\
                   nth_Z (v_indPtrs v) r <= nth_Z (v_indPtrs v) (r + 1) /\
                   nth_Z (v_indPtrs v) (r + 1) <= nth_Z (v_indPtrs v) (v_rows v))
         (seqZ 0 (v_rows v)) /\
  Forall (fun c => 0 <= c /\ c < v_cols v) (v_inds v) /\
  v_nz v = nth_Z (v_indPtrs v) (v_rows v) - nth_Z (v_indPtrs v) 0.

Definition invariants (m : CSR SpMVVal) : Prop :=
  match view_of m with
  | Some v => view_ok v
  | None => False
  end.

(** The index pointers are offsets into the matrix's own [inds] and
    [nzData]: the first one is zero. *)
Definition zero_based (m : CSR SpMVVal) : Prop :=
  ptr_get (m_indPtrs m) 0 = Ok 0.

#[global] Instance is_uint_dec z : Decision (is_uint z).
Proof. unfold is_uint. apply _. Defined.

#[global] Instance view_ok_dec v : Decision (view_ok v).
Proof. unfold view_ok. apply _. Defined.

#[global] Instance invariants_dec m : Decision (invariants m).
Proof. unfold invariants. destruct (view_of m); apply _. Defined.

End Invariants.

Arguments view : clear implicits.
Arguments elements : simpl never.

(** The boundaries accepted by [rowPartitionedView] on a matrix of [r]
    rows: the first is zero, the last is [r], none is below its
    predecessor. *)
Fixpoint nondecreasing (b : list Z) : bool :=
  match b with
  | x :: (y :: _) as rest => (x <=? y) && nondecreasing rest
  | _ => true
  end.

Definition valid_boundaries (r : Z) (b : list Z) : bool :=
  bool_decide (head b = Some 0) && bool_decide (last b = Some r) &&
  nondecreasing b.


(** ** Failures of load

    [load] throws C strings.  The specification names two kinds of error;
    the strings thrown for a width that does not match are its
    [TypeMismatchError], those thrown for a component that could not be
    read are its [FormatError]. *)

Inductive ErrorKind : Set := FormatError | TypeMismatchError.

Definition errorKind (what : string) : option ErrorKind :=
  if String.eqb what "bytesPerInd mismatch in CSR::load" then
    Some TypeMismatchError
  else if String.eqb what
            "bytesPerVal mismatch in CSR::load -- consider using genNZData" then
    Some TypeMismatchError
  else if String.eqb what "could not load indptr in CSR::load" then
    Some FormatError
  else if String.eqb what "could not load inds in CSR::load" then
    Some FormatError
  else if String.eqb what "could not load nzdata in CSR::load" then
    Some FormatError
  else None.

Definition fails_with {A : Type} (k : ErrorKind) (o : outcome A) : Prop :=
  exists what, o = Throw what /\ errorKind what = Some k.

Section Stored.
Context (SpMVInd : IndType) (SpMVVal : Type) `{!ValueType SpMVVal}.

(** What the components stored for a matrix denote.  With [genNZData]
    the stored values are ignored and the values are [1, 2, ..., nz]. *)
Definition stored_view (c : components SpMVVal) (genNZData : bool)
    : option (view SpMVVal) :=
  md ← file_meta c;
  r ← rows md;
  cl ← cols md;
  n ← nz md;
  ip ← file_indptr c;
  ix ← file_inds c;
  vs ← (if genNZData
        then Some ((fun i => castVal (ind SpMVInd (i + 1))) <$> seqZ 0 n)
        else file_nzdata c);
  Some {| v_rows := r; v_cols := cl; v_nz := n;
          v_indPtrs := ip; v_inds := ix; v_nzData := vs |}.

(** The stored components satisfy the invariants of the data model. *)
Definition store_invariants (c : components SpMVVal) (genNZData : bool) : Prop :=
  match stored_view c genNZData with
  | Some v => view_ok v
  | None => False
  end.

#[global] Instance store_invariants_dec c g : Decision (store_invariants c g).
Proof. unfold store_invariants. destruct (stored_view c g); apply _. Defined.

End Stored.

(** ** Decimal representations *)

Definition digit_value (c : ascii) : Z := Z.of_nat (nat_of_ascii c) - 48.

Definition is_digit (c : ascii) : Prop := 0 <= digit_value c /\ digit_value c <= 9.

(** The number written by the digits [s], the most significant first. *)
Definition decimal_value (s : list ascii) : Z :=
  fold_left (fun acc c => 10 * acc + digit_value c) s 0.

(** [s] is the decimal representation of [n]: digits only, at least one,
    no leading zero except for zero itself. *)
Definition decimal (n : Z) (s : string) : Prop :=
  let l := list_ascii_of_string s in
  l <> [] /\
  Forall is_digit l /\
  (head l = Some "0"%char -> l = ["0"%char]) /\
  decimal_value l = n.

(** ** Reading a matrix *)

Section Reading.
Context (SpMVInd : IndType) (SpMVVal : Type) `{!ValueType SpMVVal}.

(** The entries stored in row [r]: the pairs of a column index and a
    value found between [indPtrs[r]] and [indPtrs[r + 1]]. *)
Definition row_entries (m : CSR SpMVVal) (r : Z) : outcome (list (Z * SpMVVal)) :=
  lo ← ptr_get (m_indPtrs m) r;
  hi ← ptr_get (m_indPtrs m) (r + 1);
  mapM (fun k => c ← ptr_get (m_inds m) k;
                 v ← ptr_get (m_nzData m) k;
                 Ok (c, v))
       (seqZ lo (hi - lo)).

(** [eye(dim)] builds the identity matrix of dimension [dim]. *)
Definition eye_builds_identity (dim : Z) : Prop :=
  exists m : CSR SpMVVal,
    eye SpMVVal dim = Ok m /\
    isSquare SpMVVal m = Ok true /\
    getRows SpMVVal m = Ok dim /\
    getCols SpMVVal m = Ok dim /\
    getNNZ SpMVVal m = Ok dim /\
    (forall i, 0 <= i <= dim -> ptr_get (m_indPtrs m) i = Ok i) /\
    (forall i, 0 <= i < dim -> ptr_get (m_inds m) i = Ok i) /\
    (forall i, 0 <= i < dim -> ptr_get (m_nzData m) i = Ok (castVal 1)) /\
    (forall i, 0 <= i < dim -> row_entries m i = Ok [(i, castVal 1)]).

(** [dense(dim)] builds the dense matrix of dimension [dim], filled row
    by row with [1, 2, ...]. *)
Definition dense_builds_full (dim : Z) : Prop :=
  exists m : CSR SpMVVal,
    dense SpMVInd SpMVVal dim = Ok m /\
    getRows SpMVVal m = Ok dim /\
    getCols SpMVVal m = Ok dim /\
    getNNZ SpMVVal m = Ok (dim * dim) /\
    (forall i, 0 <= i <= dim -> ptr_get (m_indPtrs m) i = Ok (i * dim)) /\
    (forall k, 0 <= k < dim * dim -> ptr_get (m_inds m) k = Ok (k mod dim)) /\
    (forall k, 0 <= k < dim * dim ->
               ptr_get (m_nzData m) k = Ok (castVal (k + 1))) /\
    (forall r, 0 <= r < dim ->
               row_entries m r
               = Ok ((fun c => (c, castVal (r * dim + c + 1))) <$> seqZ 0 dim)).

(** What a successful round [i] of [rowPartitionedView] has read, and the
    view [c] it has built from it. *)
Definition child_built (this : CSR SpMVVal) (boundaries : list Z) (i : Z)
    (c : CSR SpMVVal) : Prop :=
  exists parent lo hi pLo pHi partName,
    m_metadata this = Some parent /\
    vec_get boundaries (uint (i + 1)) = Ok hi /\
    vec_get boundaries i = Ok lo /\
    ptr_get (m_indPtrs this) hi = Ok pHi /\
    ptr_get (m_indPtrs this) lo = Ok pLo /\
    ptr_at (m_indPtrs this) lo = Ok (m_indPtrs c) /\
    ptr_at (m_inds this) pLo = Ok (m_inds c) /\
    ptr_at (m_nzData this) pLo = Ok (m_nzData c) /\
    itoa (to_int i) = Ok partName /\
    m_needsDealloc c = false /\
    m_name c = (m_name this ++ "-p" ++ partName)%string /\
    m_metadata c =
      Some {| rows := Some (uint (ind SpMVInd (hi - lo)));
              cols := cols parent;
              nz := Some (uint (ind SpMVInd (pHi - pLo)));
              startingRow := Some (uint lo);
              startingCol := Some 0;
              bytesPerInd := bytesPerInd parent;
              bytesPerVal := bytesPerVal parent |}.

(** Child [i] of [this] is the view of the rows [[lo, hi)] the
    specification describes. *)
Definition is_child_view (this : CSR SpMVVal) (i lo hi : Z)
    (c : CSR SpMVVal) : Prop :=
  exists parent md pLo pHi partName,
    m_metadata this = Some parent /\
    m_metadata c = Some md /\
    ptr_get (m_indPtrs this) lo = Ok pLo /\
    ptr_get (m_indPtrs this) hi = Ok pHi /\
    rows md = Some (hi - lo) /\
    cols md = cols parent /\
    nz md = Some (pHi - pLo) /\
    startingRow md = Some lo /\
    startingCol md = Some 0 /\
    bytesPerInd md = bytesPerInd parent /\
    bytesPerVal md = bytesPerVal parent /\
    (forall r, ptr_get (m_indPtrs c) r = ptr_get (m_indPtrs this) (lo + r)) /\
    (forall k, ptr_get (m_inds c) k = ptr_get (m_inds this) (pLo + k)) /\
    (forall k, ptr_get (m_nzData c) k = ptr_get (m_nzData this) (pLo + k)) /\
    decimal i partName /\
    m_name c = (m_name this ++ "-p" ++ partName)%string.

(** [rowPartitionedView] returns one such child per pair of consecutive
    boundaries. *)
Definition partitions_by (this : CSR SpMVVal) (boundaries : list Z) : Prop :=
  exists children,
    rowPartitionedView SpMVInd SpMVVal this boundaries = Ok children /\
    S (length children) = length boundaries /\
    forall (i : nat) (lo hi : Z),
      boundaries !! i = Some lo -> boundaries !! S i = Some hi ->
      exists c, children !! i = Some c /\
                is_child_view this (Z.of_nat i) lo hi c.

End Reading.

(** The matrix without rows that [eye(0)] returns, with [uint64_t]
    values. *)
Definition empty_matrix : CSR uint64 :=
  {| m_needsDealloc := true;
     m_metadata := Some {| rows := Some 0; cols := Some 0; nz := Some 0;
                           startingRow := Some 0; startingCol := Some 0;
                           bytesPerInd := None; bytesPerVal := None |};
     m_indPtrs := Ptr [Some 0] 0; m_inds := Ptr [] 0; m_nzData := Ptr [] 0;
     m_name := "eye" |}.

(** ** Sample matrices *)

(** What [dense(3)] returns, with [uint64_t] values. *)
Definition dense3 : CSR uint64 :=
  {| m_needsDealloc := true;
     m_metadata := Some {| rows := Some 3; cols := Some 3; nz := Some 9;
                           startingRow := Some 0; startingCol := Some 0;
                           bytesPerInd := None; bytesPerVal := None |};
     m_indPtrs := loaded [0; 3; 6; 9];
     m_inds := loaded [0; 1; 2; 0; 1; 2; 0; 1; 2];
     m_nzData := loaded [1; 2; 3; 4; 5; 6; 7; 8; 9];
     m_name := "dense" |}.

(** What [eye(3)] returns, with [uint64_t] values. *)
Definition eye3 : CSR uint64 :=
  {| m_needsDealloc := true;
     m_metadata := Some {| rows := Some 3; cols := Some 3; nz := Some 3;
                           startingRow := Some 0; startingCol := Some 0;
                           bytesPerInd := None; bytesPerVal := None |};
     m_indPtrs := loaded [0; 1; 2; 3];
     m_inds := loaded [0; 1; 2];
     m_nzData := loaded [1; 1; 1];
     m_name := "eye" |}.

(** A store that holds, under every name, the 2 x 2 matrix with the
    entries (0,1) and (1,0), with 4-byte indices and 8-byte values. *)
Definition sample_meta : SparseMatrixMetadata :=
  {| rows := Some 2; cols := Some 2; nz := Some 2;
     startingRow := Some 0; startingCol := Some 0;
     bytesPerInd := Some 4; bytesPerVal := Some 8 |}.

Definition sample_store : store uint64 := fun _ =>
  {| file_meta := Some sample_meta;
     file_indptr := Some [0; 1; 2];
     file_inds := Some [1; 0];
     file_nzdata := Some [7; 9] |}.

(** The same store without any component. *)
Definition empty_store : store uint64 := fun _ =>
  {| file_meta := None; file_indptr := None; file_inds := None;
     file_nzdata := None |}.

(** The same store, its metadata declaring 4-byte values. *)
Definition narrow_meta : SparseMatrixMetadata :=
  set_bytesPerVal (Some 4) sample_meta.

Definition narrow_store : store uint64 := fun _ =>
  {| file_meta := Some narrow_meta;
     file_indptr := Some [0; 1; 2];
     file_inds := Some [1; 0];
     file_nzdata := Some [7; 9] |}.

(** The same store with the metadata only. *)
Definition meta_only_store : store uint64 := fun _ =>
  {| file_meta := Some sample_meta; file_indptr := None; file_inds := None;
     file_nzdata := None |}.

(** The store with 4-byte values, without the ["nzdata"] component. *)
Definition no_values_store : store uint64 := fun _ =>
  {| file_meta := Some narrow_meta;
     file_indptr := Some [0; 1; 2];
     file_inds := Some [1; 0];
     file_nzdata := None |}.

(** ** The other members of the class *)

Section Members.
Context {SpMVVal : Type}.

(** [CSR::setName] and [CSR::getName] *)
Definition setName (this : CSR SpMVVal) (name : string) : CSR SpMVVal :=
  {| m_needsDealloc := m_needsDealloc this; m_metadata := m_metadata this;
     m_indPtrs := m_indPtrs this; m_inds := m_inds this;
     m_nzData := m_nzData this; m_name := name |}.

Definition getName (this : CSR SpMVVal) : string := m_name this.

(** [CSR::getIndPtrs], [CSR::getInds] and [CSR::getNZData] *)
Definition getIndPtrs (this : CSR SpMVVal) : ptr Z := m_indPtrs this.
Definition getInds (this : CSR SpMVVal) : ptr Z := m_inds this.
Definition getNZData (this : CSR SpMVVal) : ptr SpMVVal := m_nzData this.

(** What is sent to [std::cout]: a string, an [unsigned int] or
    [std::endl]. *)
Inductive item : Type :=
| out_text (s : string)
| out_number (n : Z)
| out_endl.

(** [CSR::printSummary]: the items it prints. *)
Definition printSummary (this : CSR SpMVVal) : outcome (list item) :=
  let out := [out_text "Matrix summary"; out_endl] in
  let out := out ++ [out_text "name = "; out_text (m_name this); out_endl] in
  md ← metadata SpMVVal this;
  r ← rd (rows md);
  let out := out ++ [out_text "#rows = "; out_number r; out_endl] in
  md ← metadata SpMVVal this;
  c ← rd (cols md);
  let out := out ++ [out_text "#cols = "; out_number c; out_endl] in
  md ← metadata SpMVVal this;
  n ← rd (nz md);
  let out := out ++ [out_text "#nz = "; out_number n; out_endl] in
  Ok out.

(** The operand of a [delete] or of a [delete []]. *)
Inductive deallocation : Type :=
| delete_metadata (md : option SparseMatrixMetadata)
| delete_indices (p : ptr Z)
| delete_values (p : ptr SpMVVal).

(** [CSR::~CSR]: the deallocations it executes, in their order. *)
Definition destructor (this : CSR SpMVVal) : list deallocation :=
  if m_needsDealloc this then
    [delete_metadata (m_metadata this); delete_indices (m_indPtrs this);
     delete_indices (m_inds this); delete_values (m_nzData this)]
  else [].

(** The entries of row [r] as the reader of a partition view finds them:
    the index pointers of a view keep the values they have in the parent,
    so the offsets into [inds] and [nzData] are the index pointers less
    the first one. *)
Definition view_row_entries (m : CSR SpMVVal) (r : Z)
    : outcome (list (Z * SpMVVal)) :=
  base ← ptr_get (m_indPtrs m) 0;
  lo ← ptr_get (m_indPtrs m) r;
  hi ← ptr_get (m_indPtrs m) (r + 1);
  mapM (fun k => c ← ptr_get (m_inds m) (k - base);
                 v ← ptr_get (m_nzData m) (k - base);
                 Ok (c, v))
       (seqZ lo (hi - lo)).

End Members.

(** ** Signed decimal representations *)

(** The number a string writes: a minus sign or none, then digits. *)
Definition signed_value (s : string) : Z :=
  match s with
  | EmptyString => 0
  | String c d =>
      if Ascii.eqb c "-" then - decimal_value (list_ascii_of_string d)
      else decimal_value (list_ascii_of_string s)
  end.

(** [s] writes the [int] [n]: the decimal representation of [n], after a
    minus sign that of [- n] when [n] is negative. *)
Definition signed_decimal (n : Z) (s : string) : Prop :=
  if n <? 0 then exists d, s = String "-" d /\ decimal (- n) d
  else decimal n s.

(** The sum of a list of numbers. *)
Definition total (l : list Z) : Z := foldr Z.add 0 l.

(** The outcomes other than an exception. *)
Definition no_throw {A : Type} (o : outcome A) : Prop :=
  match o with Throw _ => False | _ => True end.

(** * Properties *)

(** ** Outcomes and loops *)

Lemma bind_Ok {A B : Type} (a : A) (f : A -> outcome B) : (Ok a ≫= f) = f a.
Proof. reflexivity. Qed.

Lemma bind_Ok_inv {A B : Type} (m : outcome A) (f : A -> outcome B) (b : B) :
  (m ≫= f) = Ok b -> exists a, m = Ok a /\ f a = Ok b.
Proof. destruct m as [a| |]; simpl; intros H; try discriminate. eauto. Qed.

Lemma rd_Ok_inv {A : Type} (c : option A) (a : A) : rd c = Ok a -> c = Some a.
Proof. destruct c; simpl; congruence. Qed.

(** A loop whose body succeeds while the invariant [P] holds runs to its
    end and establishes [P] for the final counter. *)
Lemma for_loop_inv {St : Type} (P : Z -> St -> Prop) (body : Z -> St -> outcome St) :
  forall (n : nat) (i : Z) (s : St),
    P i s ->
    (forall j t, i <= j < i + Z.of_nat n -> P j t ->
                 exists t', body j t = Ok t' /\ P (j + 1) t') ->
    exists t, for_loop n i body s = Ok t /\ P (i + Z.of_nat n) t.
Proof.
  induction n as [|n IH]; intros i s Hs Hstep.
  - exists s. split; [reflexivity|]. now replace (i + Z.of_nat 0) with i by lia.
  - destruct (Hstep i s) as (s' & Hb & Hs'); [lia|assumption|].
    destruct (IH (i + 1) s' Hs') as (t & Ht & HP).
    { intros j t Hj. apply Hstep. lia. }
    exists t. split.
    + simpl. rewrite Hb. exact Ht.
    + now replace (i + Z.of_nat (S n)) with (i + 1 + Z.of_nat n) by lia.
Qed.

Lemma for_upto_inv {St : Type} (P : Z -> St -> Prop) (body : Z -> St -> outcome St)
    (bound : Z) (s : St) :
  0 <= bound ->
  P 0 s ->
  (forall j t, 0 <= j < bound -> P j t ->
               exists t', body j t = Ok t' /\ P (j + 1) t') ->
  exists t, for_upto bound body s = Ok t /\ P bound t.
Proof.
  intros Hb Hs Hstep.
  destruct (for_loop_inv P body (Z.to_nat bound) 0 s Hs) as (t & Ht & HP).
  { intros j t Hj. apply Hstep. lia. }
  exists t. split; [exact Ht|]. now rewrite Z2Nat.id in HP by lia.
Qed.

(** A loop whose body has undefined behaviour in round [k], the rounds
    before having succeeded, has undefined behaviour. *)
Lemma for_loop_undefined {St : Type} (P : Z -> St -> Prop)
    (body : Z -> St -> outcome St) :
  forall (k n : nat) (i : Z) (s : St),
    (k < n)%nat ->
    P i s ->
    (forall j t, i <= j < i + Z.of_nat k -> P j t ->
                 exists t', body j t = Ok t' /\ P (j + 1) t') ->
    (forall t, P (i + Z.of_nat k) t -> body (i + Z.of_nat k) t = Undefined) ->
    for_loop n i body s = Undefined.
Proof.
  induction k as [|k IH]; intros n i s Hk Hs Hstep Hfail.
  - destruct n as [|n]; [lia|]. simpl.
    rewrite <- (Z.add_0_r i) at 1. rewrite Hfail; [reflexivity|].
    now rewrite Z.add_0_r.
  - destruct n as [|n]; [lia|]. simpl.
    destruct (Hstep i s) as (s' & Hb & Hs'); [lia|assumption|].
    rewrite Hb. simpl. apply IH; [lia|assumption| |].
    + intros j t Hj. apply Hstep. lia.
    + intros t Ht. replace (i + 1 + Z.of_nat k) with (i + Z.of_nat (S k)) in * by lia.
      now apply Hfail.
Qed.

(** ** Machine integers *)

Lemma uint_small z : 0 <= z < UINT_RANGE -> uint z = z.
Proof. intros H. unfold uint. now apply Z.mod_small. Qed.

Lemma uint_range z : 0 <= uint z < UINT_RANGE.
Proof. unfold uint, UINT_RANGE. apply Z.mod_pos_bound. lia. Qed.

Lemma IND_RANGE_ge T : UINT_RANGE <= IND_RANGE T.
Proof. destruct T; unfold IND_RANGE, UINT_RANGE; simpl; lia. Qed.

Lemma ind_small T z : 0 <= z < IND_RANGE T -> ind T z = z.
Proof. intros H. unfold ind. now apply Z.mod_small. Qed.

Lemma ind_uint T z : 0 <= z < UINT_RANGE -> ind T z = z.
Proof. intros H. apply ind_small. pose proof (IND_RANGE_ge T). lia. Qed.

Lemma to_int_small z : 0 <= z <= INT_MAX -> to_int z = z.
Proof. intros H. unfold to_int. destruct (Z.leb_spec z INT_MAX); lia. Qed.

(** ** Arrays under construction *)

Lemma filled_nil {A : Type} (n : Z) : @new_array A n = filled [] (Z.to_nat n).
Proof. unfold new_array, filled. simpl. now rewrite Nat.sub_0_r. Qed.

Lemma filled_full {A : Type} (l : list A) (n : nat) :
  n = length l -> filled l n = Some <$> l.
Proof.
  intros ->. unfold filled. rewrite Nat.sub_diag. simpl. apply app_nil_r.
Qed.

Lemma length_filled {A : Type} (l : list A) (n : nat) :
  (length l <= n)%nat -> length (filled l n) = n.
Proof.
  intros H. unfold filled. rewrite length_app, length_fmap, length_replicate. lia.
Qed.

Lemma insert_first_blank {A : Type} (l : list A) (rest : list (option A)) (v : A) :
  <[length l := Some v]> ((Some <$> l) ++ None :: rest)
  = (Some <$> l) ++ Some v :: rest.
Proof. induction l as [|x l IH]; simpl; [reflexivity|]. f_equal. exact IH. Qed.

Lemma arr_set_filled {A : Type} (l : list A) (n : nat) (i : Z) (v : A) :
  i = Z.of_nat (length l) -> (length l < n)%nat ->
  arr_set (filled l n) i v = Ok (filled (l ++ [v]) n).
Proof.
  intros -> Hlt. unfold arr_set.
  rewrite length_filled by lia.
  destruct (Z.leb_spec 0 (Z.of_nat (length l))); [|lia].
  destruct (Z.ltb_spec (Z.of_nat (length l)) (Z.of_nat n)); [|lia].
  cbn [andb]. f_equal. rewrite Nat2Z.id. unfold filled.
  rewrite fmap_app, length_app. cbn [length].
  replace (n - length l)%nat with (S (n - (length l + 1))) by lia.
  cbn [replicate]. rewrite insert_first_blank. now rewrite <- app_assoc.
Qed.

Lemma seqZ_snoc (j : Z) : 0 <= j -> seqZ 0 (j + 1) = seqZ 0 j ++ [j].
Proof. intros H. rewrite seqZ_app by lia. f_equal. Qed.

(** A loop that writes [f i] to cell [i] of a fresh array fills the first
    [bound] cells with the values of [f]. *)
Lemma for_upto_fill {A : Type} (f : Z -> A) (bound : Z) (n : nat) :
  0 <= bound -> (Z.to_nat bound <= n)%nat ->
  for_upto bound (fun i a => arr_set a i (f i)) (filled [] n)
  = Ok (filled (f <$> seqZ 0 bound) n).
Proof.
  intros Hb Hn.
  destruct (for_upto_inv (fun j a => a = filled (f <$> seqZ 0 j) n)
              (fun i a => arr_set a i (f i)) bound (filled [] n))
    as (t & Ht & ->); try assumption.
  - reflexivity.
  - intros j t Hj ->. eexists. split; [|reflexivity].
    rewrite arr_set_filled.
    + now rewrite seqZ_snoc, fmap_app by lia.
    + rewrite length_fmap, length_seqZ. lia.
    + rewrite length_fmap, length_seqZ. lia.
Qed.

(** ** The constructors in closed form *)

Section Constructors.
Context (SpMVInd : IndType) (SpMVVal : Type) `{!ValueType SpMVVal}.

Lemma eye_Ok (dim : Z) :
  0 <= dim -> dim + 1 < UINT_RANGE ->
  eye SpMVVal dim =
  Ok {| m_needsDealloc := true;
        m_metadata := Some {| rows := Some dim; cols := Some dim;
                              nz := Some dim; startingRow := Some 0;
                              startingCol := Some 0; bytesPerInd := None;
                              bytesPerVal := None |};
        m_indPtrs := loaded (seqZ 0 (dim + 1));
        m_inds := loaded (seqZ 0 dim);
        m_nzData := loaded ((fun _ => castVal 1) <$> seqZ 0 dim);
        m_name := "eye" |}.
Proof.
  intros H0 Hmax. unfold eye. rewrite uint_small by lia.
  rewrite !filled_nil.
  set (body := fun (i : Z) '(indPtrs, inds, nzData) => _).
  destruct (for_upto_inv
    (fun j '(a, b, c) =>
       a = filled (seqZ 0 j) (Z.to_nat (dim + 1)) /\
       b = filled (seqZ 0 j) (Z.to_nat dim) /\
       c = filled ((fun _ => castVal 1) <$> seqZ 0 j) (Z.to_nat dim))
    body dim (filled [] (Z.to_nat (dim + 1)), filled [] (Z.to_nat dim),
              filled [] (Z.to_nat dim))) as ([[a b] c] & Hrun & -> & -> & ->).
  - assumption.
  - now rewrite seqZ_nil by lia.
  - intros j [[a b] c] Hj (-> & -> & ->). unfold body.
    rewrite !arr_set_filled, !bind_Ok;
      rewrite ?length_fmap, ?length_seqZ; try lia.
    eexists. split; [reflexivity|].
    now rewrite seqZ_snoc, fmap_app by lia.
  - rewrite Hrun, bind_Ok.
    rewrite arr_set_filled; rewrite ?length_seqZ; try lia.
    rewrite bind_Ok, <- seqZ_snoc by lia.
    unfold loaded.
    rewrite !filled_full by (rewrite ?length_fmap, ?length_seqZ; lia).
    reflexivity.
Qed.

Lemma dense_Ok (dim : Z) :
  0 <= dim -> dim + 1 < UINT_RANGE ->
  dense SpMVInd SpMVVal dim =
  Ok {| m_needsDealloc := true;
        m_metadata := Some {| rows := Some dim; cols := Some dim;
                              nz := Some (uint (dim * dim));
                              startingRow := Some 0;
                              startingCol := Some 0; bytesPerInd := None;
                              bytesPerVal := None |};
        m_indPtrs := loaded (((fun i => ind SpMVInd (i * dim)) <$> seqZ 0 dim)
                             ++ [uint (dim * dim)]);
        m_inds := loaded ((fun i => i mod dim) <$> seqZ 0 (uint (dim * dim)));
        m_nzData := loaded ((fun i => castVal (ind SpMVInd (i + 1)))
                              <$> seqZ 0 (uint (dim * dim)));
        m_name := "dense" |}.
Proof.
  intros H0 Hmax. unfold dense. rewrite (uint_small (dim + 1)) by lia.
  pose proof (uint_range (dim * dim)) as Hsq.
  rewrite !filled_nil.
  rewrite (for_upto_fill (fun i => ind SpMVInd (i * dim))) by lia.
  rewrite bind_Ok.
  rewrite arr_set_filled; rewrite ?length_fmap, ?length_seqZ; try lia.
  rewrite bind_Ok.
  set (body := fun (i : Z) '(inds, nzData) => _).
  destruct (for_upto_inv
    (fun j '(a, b) =>
       a = filled ((fun i => i mod dim) <$> seqZ 0 j)
             (Z.to_nat (uint (dim * dim))) /\
       b = filled ((fun i => castVal (ind SpMVInd (i + 1))) <$> seqZ 0 j)
             (Z.to_nat (uint (dim * dim))))
    body (uint (dim * dim))
    (filled [] (Z.to_nat (uint (dim * dim))),
     filled [] (Z.to_nat (uint (dim * dim))))) as ([a b] & Hrun & -> & ->).
  - lia.
  - now rewrite seqZ_nil by lia.
  - intros j [a b] Hj (-> & ->). unfold body, umod.
    destruct (Z.eqb_spec dim 0) as [->|Hd].
    { rewrite Z.mul_0_l in Hj. unfold uint in Hj. rewrite Z.mod_0_l in Hj; [lia|].
      unfold UINT_RANGE. lia. }
    rewrite bind_Ok.
    rewrite !arr_set_filled, !bind_Ok;
      rewrite ?length_fmap, ?length_seqZ; try lia.
    eexists. split; [reflexivity|].
    now rewrite seqZ_snoc, !fmap_app by lia.
  - rewrite Hrun, bind_Ok.
    unfold loaded.
    rewrite !filled_full
      by (rewrite ?length_app, ?length_fmap, ?length_seqZ; simpl; lia).
    reflexivity.
Qed.

End Constructors.

(** ** Reading what was built *)

Lemma arr_get_Some {A : Type} (l : list A) (i : Z) (x : A) :
  0 <= i -> l !! Z.to_nat i = Some x -> arr_get (Some <$> l) i = Ok x.
Proof.
  intros Hi Hx. unfold arr_get.
  destruct (Z.ltb_spec i 0); [lia|].
  now rewrite list_lookup_fmap, Hx.
Qed.

Lemma ptr_get_loaded {A : Type} (l : list A) (i : Z) (x : A) :
  0 <= i -> l !! Z.to_nat i = Some x -> ptr_get (loaded l) i = Ok x.
Proof. intros Hi Hx. unfold loaded, ptr_get. now apply arr_get_Some. Qed.

Lemma lookup_seqZ_0 (n i : Z) :
  0 <= i < n -> seqZ 0 n !! Z.to_nat i = Some i.
Proof. intros H. rewrite lookup_seqZ_lt by lia. f_equal. lia. Qed.

Lemma lookup_fmap_seqZ {A : Type} (f : Z -> A) (n i : Z) :
  0 <= i < n -> (f <$> seqZ 0 n) !! Z.to_nat i = Some (f i).
Proof. intros H. now rewrite list_lookup_fmap, lookup_seqZ_0. Qed.

Lemma mapM_Ok {A B : Type} (f : A -> outcome B) (g : A -> B) (l : list A) :
  (forall x, x ∈ l -> f x = Ok (g x)) -> mapM f l = Ok (g <$> l).
Proof.
  induction l as [|x l IH]; intros H; [reflexivity|].
  cbn. rewrite H by apply list_elem_of_here. cbn.
  rewrite IH; [reflexivity|]. intros y Hy. apply H. now apply list_elem_of_further.
Qed.

Lemma lookup_fmap_seqZ_snoc {A : Type} (f : Z -> A) (x : A) (n i : Z) :
  0 <= i <= n ->
  ((f <$> seqZ 0 n) ++ [x]) !! Z.to_nat i = Some (if i <? n then f i else x).
Proof.
  intros H. destruct (Z.ltb_spec i n).
  - rewrite lookup_app_l by (rewrite length_fmap, length_seqZ; lia).
    apply lookup_fmap_seqZ. lia.
  - replace i with n by lia.
    rewrite lookup_app_r by (rewrite length_fmap, length_seqZ; lia).
    rewrite length_fmap, length_seqZ, Nat.sub_diag. reflexivity.
Qed.

Section ConstructorsCorrect.
Context (SpMVInd : IndType) (SpMVVal : Type) `{!ValueType SpMVVal}.

(** C5, within the range of [unsigned int].  For [1 <= dim] with [dim + 1] in the range of
    [unsigned int], [eye(dim)] returns a square matrix with
    [rows = cols = nz = dim], [indPtrs[i] = i] for [i] in [[0, dim]],
    [inds[i] = i] and [nzData[i] = 1]; the only entry of row [i] is the
    one in column [i]. *)
Theorem eye_identity (dim : Z) :
  1 <= dim -> dim + 1 < UINT_RANGE -> eye_builds_identity SpMVVal dim.
Proof.
  intros H1 Hmax. assert (H0 : 0 <= dim) by lia. eexists. split; [now apply eye_Ok|].
  unfold isSquare, getRows, getCols, getNNZ, metadata. cbn.
  rewrite Z.eqb_refl. repeat split; try reflexivity.
  - intros i Hi. apply ptr_get_loaded; [lia|]. apply lookup_seqZ_0. lia.
  - intros i Hi. apply ptr_get_loaded; [lia|]. now apply lookup_seqZ_0.
  - intros i Hi. apply ptr_get_loaded; [lia|].
    now rewrite (lookup_fmap_seqZ (fun _ => castVal 1)).
  - intros i Hi. unfold row_entries. cbn [m_indPtrs m_inds m_nzData].
    rewrite (ptr_get_loaded _ i i), bind_Ok by (try apply lookup_seqZ_0; lia).
    rewrite (ptr_get_loaded _ (i + 1) (i + 1)), bind_Ok
      by (try apply lookup_seqZ_0; lia).
    replace (i + 1 - i) with 1 by lia.
    rewrite (mapM_Ok _ (fun k => (k, castVal 1))).
    + reflexivity.
    + intros k Hk. apply elem_of_seqZ in Hk.
      rewrite (ptr_get_loaded _ k k), bind_Ok by (try apply lookup_seqZ_0; lia).
      rewrite (ptr_get_loaded _ k (castVal 1)), bind_Ok; [reflexivity|lia|].
      rewrite (lookup_fmap_seqZ (fun _ => castVal 1)); [reflexivity|lia].
Qed.

(** C6, within the range of [unsigned int].  For [1 <= dim] with [dim * dim] in the range of
    [unsigned int], [dense(dim)] returns a matrix with [rows = cols = dim],
    [nz = dim * dim], [indPtrs[i] = i * dim] for [i] in [[0, dim]],
    [inds[k] = k mod dim] and [nzData[k] = k + 1]: row [r] holds the
    columns [0 .. dim - 1] with the values [r * dim + 1 .. r * dim + dim].
    [dense(3)] has [indPtrs = [0,3,6,9]], [inds = [0,1,2,0,1,2,0,1,2]] and
    [nzData = [1,2,3,4,5,6,7,8,9]]. *)
Theorem dense_full :
  (forall dim, 1 <= dim -> dim * dim < UINT_RANGE ->
               dense_builds_full SpMVInd SpMVVal dim) /\
  (exists m, dense SpMVInd SpMVVal 3 = Ok m /\
             m_indPtrs m = loaded [0; 3; 6; 9] /\
             m_inds m = loaded [0; 1; 2; 0; 1; 2; 0; 1; 2] /\
             m_nzData m = loaded (castVal <$> [1; 2; 3; 4; 5; 6; 7; 8; 9])).
Proof.
  split.
  - intros dim H1 Hsq. assert (H0 : 0 <= dim) by lia.
    assert (Hmax : dim + 1 < UINT_RANGE) by (unfold UINT_RANGE in *; nia).
    pose proof (IND_RANGE_ge SpMVInd) as Hind.
    eexists. split; [now apply dense_Ok|].
    unfold getRows, getCols, getNNZ, metadata. cbn.
    rewrite (uint_small (dim * dim)) by nia.
    assert (Hip : forall i, 0 <= i <= dim ->
              ptr_get (loaded (((fun i => ind SpMVInd (i * dim)) <$> seqZ 0 dim)
                               ++ [dim * dim])) i = Ok (i * dim)).
    { intros i Hi. apply ptr_get_loaded; [lia|].
      rewrite lookup_fmap_seqZ_snoc by lia. f_equal.
      destruct (Z.ltb_spec i dim).
      + apply ind_small. nia.
      + replace i with dim by lia. reflexivity. }
    assert (Hix : forall k, 0 <= k < dim * dim ->
              ptr_get (loaded ((fun i => i mod dim) <$> seqZ 0 (dim * dim))) k
              = Ok (k mod dim)).
    { intros k Hk. apply ptr_get_loaded; [lia|].
      now rewrite (lookup_fmap_seqZ (fun i => i mod dim)). }
    assert (Hvs : forall k, 0 <= k < dim * dim ->
              ptr_get (loaded ((fun i => castVal (ind SpMVInd (i + 1)))
                                 <$> seqZ 0 (dim * dim))) k
              = Ok (castVal (k + 1))).
    { intros k Hk. apply ptr_get_loaded; [lia|].
      rewrite (lookup_fmap_seqZ (fun i => castVal (ind SpMVInd (i + 1)))) by lia.
      rewrite ind_small by lia. reflexivity. }
    repeat split; try reflexivity; try assumption.
    intros r Hr. unfold row_entries. cbn [m_indPtrs m_inds m_nzData].
    rewrite (Hip r), bind_Ok by lia.
    rewrite (Hip (r + 1)), bind_Ok by lia.
    replace ((r + 1) * dim - r * dim) with dim by lia.
    rewrite (mapM_Ok _ (fun k => (k mod dim, castVal (k + 1)))).
    + f_equal. rewrite <- (Z.add_0_r (r * dim)) at 1.
      rewrite <- fmap_add_seqZ, <- list_fmap_compose.
      apply list_fmap_ext. intros i c Hc. apply lookup_seqZ in Hc. cbn.
      rewrite Z.add_comm, Z_mod_plus_full, Z.mod_small by lia.
      do 2 f_equal; lia.
    + intros k Hk. apply elem_of_seqZ in Hk.
      rewrite Hix, bind_Ok by nia. rewrite Hvs, bind_Ok by nia. reflexivity.
  - eexists. split; [apply dense_Ok; unfold UINT_RANGE; lia|].
    destruct SpMVInd; repeat split.
Qed.

End ConstructorsCorrect.

(** ** Partition boundaries *)

(** A loop that appends [g i] in round [i] builds the list of the values
    of [g]. *)
Lemma for_upto_push {A : Type} (g : Z -> A) (bound : Z) :
  0 <= bound ->
  for_upto bound (fun i l => Ok (l ++ [g i])) [] = Ok (g <$> seqZ 0 bound).
Proof.
  intros Hb.
  destruct (for_upto_inv (fun j l => l = g <$> seqZ 0 j)
              (fun i l => Ok (l ++ [g i])) bound []) as (t & Ht & ->);
    try assumption.
  - now rewrite seqZ_nil by lia.
  - intros j t Hj ->. eexists. split; [reflexivity|].
    now rewrite seqZ_snoc, fmap_app by lia.
Qed.

Section Boundaries.
Context (SpMVInd : IndType) (SpMVVal : Type) `{!ValueType SpMVVal}.

Lemma calcRowPartitionBoundaries_Ok (this : CSR SpMVVal) (r n : Z) :
  getRows SpMVVal this = Ok r -> is_uint r -> 1 <= n ->
  calcRowPartitionBoundaries SpMVInd SpMVVal this n
  = Ok (((fun i => uint (uint (r + n) / n * i)) <$> seqZ 0 n) ++ [r]).
Proof.
  intros Hr Hu Hn. unfold calcRowPartitionBoundaries.
  apply bind_Ok_inv in Hr as (md & Hmd & Hr).
  rewrite Hmd, bind_Ok, Hr, bind_Ok.
  unfold udiv. destruct (Z.eqb_spec n 0); [lia|]. rewrite bind_Ok.
  rewrite (for_upto_push (fun i => ind SpMVInd (uint (uint (r + n) / n * i))))
    by lia.
  rewrite bind_Ok. f_equal. f_equal.
  - apply list_fmap_ext. intros i x _. apply ind_uint, uint_range.
  - f_equal. apply ind_uint. exact Hu.
Qed.

End Boundaries.

(** ** Strings *)

Lemma str_get_middle (a : list ascii) (x : ascii) (rest : list ascii) :
  str_get (a ++ x :: rest) (Z.of_nat (length a)) = Ok x.
Proof.
  unfold str_get. destruct (Z.ltb_spec (Z.of_nat (length a)) 0); [lia|].
  now rewrite Nat2Z.id, list_lookup_middle.
Qed.

Lemma insert_middle {A : Type} (a : list A) (x y : A) (rest : list A) :
  <[length a := y]> (a ++ x :: rest) = a ++ y :: rest.
Proof. induction a as [|z a IH]; simpl; [reflexivity|]. f_equal. exact IH. Qed.

Lemma str_set_middle (a : list ascii) (x y : ascii) (rest : list ascii) :
  str_set (a ++ x :: rest) (Z.of_nat (length a)) y = Ok (a ++ y :: rest).
Proof.
  unfold str_set. rewrite length_app. cbn [length].
  destruct (Z.leb_spec 0 (Z.of_nat (length a))); [|lia].
  destruct (Z.ltb_spec (Z.of_nat (length a))
              (Z.of_nat (length a + S (length rest)))); [|lia].
  cbn [andb]. now rewrite Nat2Z.id, insert_middle.
Qed.

(** The swapping loop reverses the part of the string between its two
    indices. *)
Ltac case_ltb :=
  match goal with
  | |- context [?a <? ?b] => destruct (Z.ltb_spec a b)
  end.

Lemma reverse_loop_rev :
  forall (fuel : nat) (a mid c : list ascii),
    (length mid <= fuel)%nat ->
    reverse_loop fuel (Z.of_nat (length a))
      (Z.of_nat (length a) + Z.of_nat (length mid) - 1) (a ++ mid ++ c)
    = Ok (a ++ rev mid ++ c).
Proof.
  induction fuel as [|fuel IH]; intros a mid c Hlen.
  - destruct mid; [|simpl in Hlen; lia].
    cbn [reverse_loop length]. case_ltb; [lia|reflexivity].
  - destruct mid as [|x mid]; [|destruct (exists_last (l := x :: mid)) as (m & y & E);
      [discriminate|]; destruct m as [|x' m]].
    + cbn [reverse_loop length]. case_ltb; [lia|reflexivity].
    + simpl in E. injection E as -> ->.
      cbn [reverse_loop length]. case_ltb; [lia|reflexivity].
    + simpl in E. injection E as <- E. subst mid.
      cbn [reverse_loop].
      rewrite length_cons, length_app in *. cbn [length] in *.
      case_ltb; [|lia].
      replace (Z.of_nat (length a) + Z.of_nat (S (length m + 1)) - 1)
        with (Z.of_nat (length (a ++ x :: m))) by (rewrite length_app; simpl; lia).
      cbn [app]. rewrite str_get_middle, bind_Ok.
      replace (a ++ x :: (m ++ [y]) ++ c) with ((a ++ x :: m) ++ y :: c)
        by (now rewrite <- !app_assoc).
      rewrite str_get_middle, bind_Ok.
      replace ((a ++ x :: m) ++ y :: c) with (a ++ x :: m ++ y :: c)
        by (now rewrite <- !app_assoc).
      rewrite str_set_middle, bind_Ok.
      replace (a ++ y :: m ++ y :: c) with ((a ++ y :: m) ++ y :: c)
        by (now rewrite <- !app_assoc).
      replace (length (a ++ x :: m)) with (length (a ++ y :: m))
        by (now rewrite !length_app).
      rewrite str_set_middle, bind_Ok.
      replace ((a ++ y :: m) ++ x :: c) with ((a ++ [y]) ++ m ++ ([x] ++ c))
        by (now rewrite <- !app_assoc).
      replace (Z.of_nat (length a) + 1) with (Z.of_nat (length (a ++ [y])))
        by (rewrite length_app; simpl; lia).
      replace (Z.of_nat (length (a ++ y :: m)) - 1)
        with (Z.of_nat (length (a ++ [y])) + Z.of_nat (length m) - 1)
        by (rewrite !length_app; simpl; lia).
      rewrite IH by lia.
      f_equal. simpl. rewrite rev_app_distr. simpl.
      now rewrite <- !app_assoc.
Qed.

(** The last index of a string of at most [INT_MAX + 1] characters, as
    the [int] [j] holds it; it is [-1] for the empty string. *)
Lemma last_index_int (len : Z) :
  0 <= len <= INT_MAX + 1 -> to_int (uint (len - 1)) = len - 1.
Proof.
  intros H. unfold to_int, uint, INT_MAX, UINT_RANGE in *.
  destruct (Z.eq_dec len 0) as [->|Hne]; [reflexivity|].
  rewrite Z.mod_small by lia.
  destruct (Z.leb_spec (len - 1) (2 ^ 31 - 1)); lia.
Qed.

Lemma reverse_rev (s : list ascii) :
  Z.of_nat (length s) <= INT_MAX + 1 -> reverse s = Ok (rev s).
Proof.
  intros Hlen. unfold reverse. rewrite last_index_int by lia.
  pose proof (reverse_loop_rev (length s) [] s []) as H.
  simpl in H. rewrite !app_nil_r in H. now apply H.
Qed.

Lemma digit_value_digit_char (d : Z) :
  0 <= d <= 9 -> digit_value (digit_char d) = d.
Proof.
  intros H. unfold digit_value, digit_char.
  rewrite nat_ascii_embedding by lia. lia.
Qed.

Lemma decimal_value_snoc (s : list ascii) (c : ascii) :
  decimal_value (s ++ [c]) = 10 * decimal_value s + digit_value c.
Proof. unfold decimal_value. now rewrite fold_left_app. Qed.

Lemma last_cons_cons {A : Type} (x y : A) (l : list A) :
  last (x :: y :: l) = last (y :: l).
Proof. reflexivity. Qed.

Lemma head_rev {A : Type} (l : list A) : head (rev l) = last l.
Proof.
  induction l as [|x l IH]; [reflexivity|]. simpl.
  destruct l as [|y l]; [reflexivity|].
  rewrite last_cons_cons, <- IH. simpl.
  destruct (rev l ++ [y]) eqn:E; [|reflexivity].
  now destruct (rev l).
Qed.

(** The digit loop writes the decimal digits of [n], the least significant
    first. *)
Lemma itoa_loop_digits :
  forall (fuel : nat) (n : Z) (s : list ascii),
    (0 < fuel)%nat -> 0 <= n < 10 ^ Z.of_nat fuel ->
    exists d, itoa_loop fuel n s = Ok (s ++ d) /\
              d <> [] /\
              Forall is_digit d /\
              decimal_value (rev d) = n /\
              (last d = Some "0"%char -> d = ["0"%char]).
Proof.
  induction fuel as [|fuel IH]; intros n s Hfuel Hn; [lia|].
  - cbn [itoa_loop].
    rewrite Z.rem_mod_nonneg, Z.quot_div_nonneg by lia.
    assert (Hd : 0 <= n mod 10 <= 9) by (pose proof (Z.mod_pos_bound n 10); lia).
    assert (Hc : is_digit (digit_char (n mod 10))).
    { unfold is_digit. rewrite digit_value_digit_char by lia. lia. }
    case_ltb.
    + destruct (IH (n / 10) (s ++ [digit_char (n mod 10)])) as (d & Hrun & Hne & Hdig & Hval & Hlast).
      { destruct fuel; [|lia]. simpl in Hn.
        assert (n / 10 = 0) by (apply Z.div_small; lia). lia. }
      { split; [apply Z.div_pos; lia|]. apply Z.div_lt_upper_bound; [lia|].
        rewrite Nat2Z.inj_succ, Z.pow_succ_r in Hn by lia. apply Hn. }
      exists (digit_char (n mod 10) :: d).
      split; [rewrite Hrun; now rewrite <- app_assoc|].
      split; [discriminate|]. split; [now constructor|]. split.
      * simpl. rewrite decimal_value_snoc, Hval, digit_value_digit_char by lia.
        pose proof (Z.div_mod n 10). lia.
      * intros Hl. destruct d as [|y d]; [congruence|].
        rewrite last_cons_cons in Hl. apply Hlast in Hl.
        rewrite Hl in Hval.
        change (decimal_value (rev ["0"%char])) with 0 in Hval. lia.
    + exists [digit_char (n mod 10)].
      split; [reflexivity|]. split; [discriminate|].
      split; [constructor; [exact Hc|constructor]|]. split.
      * cbn. rewrite digit_value_digit_char by lia.
        pose proof (Z.div_mod n 10). lia.
      * intros Hl. simpl in Hl. congruence.
Qed.

(** The digit loop writes one character a round. *)
Lemma itoa_loop_length :
  forall (fuel : nat) (n : Z) (s s' : list ascii),
    itoa_loop fuel n s = Ok s' -> (length s < length s' <= length s + fuel)%nat.
Proof.
  induction fuel as [|fuel IH]; intros n s s' H; [discriminate|].
  cbn [itoa_loop] in H.
  destruct (0 <? Z.quot n 10).
  - apply IH in H. rewrite length_app in H. simpl in H. lia.
  - injection H as <-. rewrite length_app. simpl. lia.
Qed.

(** What [itoa] hands to [reverse] is short enough for the [int] index
    of [reverse]. *)
Lemma itoa_reverse (fuel : nat) (n : Z) (d : list ascii) (sign : bool) :
  (fuel <= 10)%nat -> itoa_loop fuel n [] = Ok d ->
  reverse (if sign then d ++ ["-"%char] else d)
  = Ok (rev (if sign then d ++ ["-"%char] else d)).
Proof.
  intros Hfuel Hd. apply itoa_loop_length in Hd. simpl in Hd.
  apply reverse_rev. unfold INT_MAX.
  destruct sign; [rewrite length_app; simpl|]; lia.
Qed.

(** [itoa] writes the decimal representation of a non-negative [int]. *)
Lemma itoa_decimal (n : Z) :
  0 <= n <= INT_MAX -> exists s, itoa n = Ok s /\ decimal n s.
Proof.
  intros Hn. unfold itoa. case_ltb; [lia|]. rewrite bind_Ok.
  destruct (itoa_loop_digits 10 n []) as (d & Hrun & Hne & Hdig & Hval & Hlast).
  { lia. }
  { unfold INT_MAX in Hn. simpl. lia. }
  rewrite Hrun, bind_Ok. cbn [app].
  rewrite (itoa_reverse 10 n d false), bind_Ok by (lia || exact Hrun).
  eexists. split; [reflexivity|].
  unfold decimal. rewrite list_ascii_of_string_of_list_ascii.
  split; [|split; [|split]].
  - intros E. apply Hne. apply (f_equal (@rev ascii)) in E.
    now rewrite rev_involutive in E.
  - apply Forall_forall. intros c Hin. rewrite Forall_forall in Hdig. apply Hdig.
    apply list_elem_of_In, in_rev. now apply list_elem_of_In.
  - rewrite head_rev. intros Hl. now rewrite (Hlast Hl).
  - exact Hval.
Qed.

(** [itoa] overflows on the least [int]. *)
Lemma itoa_INT_MIN : itoa (- INT_MAX - 1) = Undefined.
Proof. reflexivity. Qed.

(** ** The elements behind a pointer *)

Lemma elements_spec {A : Type} (buf : list (option A)) (off n : Z) (l : list A) :
  elements (Ptr buf off) n = Some l <->
  0 <= off /\ 0 <= n /\ off + n <= Z.of_nat (length buf) /\
  take (Z.to_nat n) (drop (Z.to_nat off) buf) = Some <$> l.
Proof.
  unfold elements.
  destruct (Z.leb_spec 0 off), (Z.leb_spec 0 n),
    (Z.leb_spec (off + n) (Z.of_nat (length buf))); cbn [andb];
    try (split; [discriminate|lia]).
  split.
  - intros HM. repeat split; try assumption.
    symmetry. apply (mapM_fmap_Some_inv id Some _ _ HM). intros x y E. exact (eq_sym E).
  - intros (_ & _ & _ & ->). now apply mapM_fmap_Some.
Qed.

Lemma elements_loaded {A : Type} (l : list A) (n : Z) :
  n = Z.of_nat (length l) -> elements (loaded l) n = Some l.
Proof.
  intros ->. unfold loaded. apply elements_spec.
  rewrite length_fmap, Nat2Z.id. repeat split; try lia.
  cbn [drop]. apply firstn_all2. now rewrite length_fmap.
Qed.

Lemma elements_get {A : Type} (p : ptr A) (n : Z) (l : list A) (i : Z) (x : A) :
  elements p n = Some l -> 0 <= i -> l !! Z.to_nat i = Some x ->
  ptr_get p i = Ok x.
Proof.
  destruct p as [|buf off]; [discriminate|].
  intros (H0 & Hn & Hle & E)%elements_spec Hi Hx.
  unfold ptr_get, arr_get. case_ltb; [lia|].
  assert (Hlt : (Z.to_nat i < Z.to_nat n)%nat).
  { apply lookup_lt_Some in Hx. apply (f_equal length) in E.
    rewrite length_fmap, length_take, length_drop in E. lia. }
  assert (Hb : buf !! Z.to_nat (off + i) = Some (Some x)).
  { replace (Z.to_nat (off + i)) with (Z.to_nat off + Z.to_nat i)%nat by lia.
    rewrite <- lookup_drop, <- (lookup_take_lt _ (Z.to_nat n)) by assumption.
    rewrite E, list_lookup_fmap, Hx. reflexivity. }
  now rewrite Hb.
Qed.

(** A pointer into the middle sees the corresponding part. *)
Lemma elements_sub {A : Type} (buf : list (option A)) (off n : Z) (l : list A)
    (a m : Z) :
  elements (Ptr buf off) n = Some l ->
  0 <= a -> 0 <= m -> a + m <= n ->
  elements (Ptr buf (off + a)) m
  = Some (take (Z.to_nat m) (drop (Z.to_nat a) l)).
Proof.
  intros (H0 & Hn & Hle & E)%elements_spec Ha Hm Ham.
  apply elements_spec. repeat split; try lia.
  rewrite fmap_take, fmap_drop, <- E.
  rewrite Z2Nat.inj_add by lia.
  rewrite <- drop_drop.
  rewrite !(take_drop_commute _ (Z.to_nat m) (Z.to_nat a)).
  f_equal. rewrite take_take. f_equal. lia.
Qed.

(** ** Loops that collect one element per round *)

Lemma for_loop_collect_inv {A : Type} (f : Z -> outcome A) :
  forall (n : nat) (i : Z) (pre l : list A),
    for_loop n i (fun i res => c ← f i; Ok (res ++ [c])) pre = Ok l ->
    exists new, l = pre ++ new /\ length new = n /\
                forall k c, new !! k = Some c -> f (i + Z.of_nat k) = Ok c.
Proof.
  induction n as [|n IH]; intros i pre l H.
  - injection H as <-. exists []. rewrite app_nil_r.
    repeat split. intros k c Hk. discriminate.
  - cbn [for_loop] in H. apply bind_Ok_inv in H as (s' & Hs' & H).
    apply bind_Ok_inv in Hs' as (c0 & Hc0 & Hs'). injection Hs' as <-.
    apply IH in H as (new & -> & Hlen & Hnew).
    exists (c0 :: new). rewrite <- app_assoc. repeat split.
    + simpl. now rewrite Hlen.
    + intros [|k] c Hk.
      * injection Hk as <-. now rewrite Z.add_0_r.
      * replace (i + Z.of_nat (S k)) with (i + 1 + Z.of_nat k) by lia.
        now apply Hnew.
Qed.

Lemma for_upto_collect_inv {A : Type} (f : Z -> outcome A) (bound : Z) (l : list A) :
  for_upto bound (fun i res => c ← f i; Ok (res ++ [c])) [] = Ok l ->
  length l = Z.to_nat bound /\
  forall k c, l !! k = Some c -> f (Z.of_nat k) = Ok c.
Proof.
  intros H. apply for_loop_collect_inv in H as (new & -> & Hlen & Hnew).
  split; [exact Hlen|]. intros k c Hk. now apply Hnew.
Qed.

Lemma for_upto_collect_undefined {A : Type} (f : Z -> outcome A) (bound j : Z) :
  0 <= j < bound ->
  (forall i, 0 <= i < j -> exists c, f i = Ok c) ->
  f j = Undefined ->
  for_upto bound (fun i res => c ← f i; Ok (res ++ [c])) [] = Undefined.
Proof.
  intros Hj Hbefore Hfail. unfold for_upto.
  apply (for_loop_undefined (fun _ _ => True) _ (Z.to_nat j)); [lia|exact I| |].
  - intros i t Hi _. destruct (Hbefore i) as (c & Hc); [lia|].
    rewrite Hc, bind_Ok. eauto.
  - intros t _. rewrite Z.add_0_l, Z2Nat.id by lia. now rewrite Hfail.
Qed.

(** ** One round of rowPartitionedView *)

Lemma vec_get_Ok {A : Type} (v : list A) (i : Z) (x : A) :
  vec_get v i = Ok x <-> 0 <= i /\ v !! Z.to_nat i = Some x.
Proof.
  unfold vec_get. case_ltb.
  - split; [discriminate|lia].
  - destruct (v !! Z.to_nat i) as [y|]; split; try discriminate.
    + intros [= ->]. now split.
    + now intros [_ [= ->]].
    + now intros [_ ?].
Qed.

Section Rounds.
Context (SpMVInd : IndType) (SpMVVal : Type) `{!ValueType SpMVVal}.

Lemma nth_child_spec (this : CSR SpMVVal) (b : list Z) (i : Z) (c : CSR SpMVVal) :
  nth_child SpMVInd SpMVVal this b i = Ok c <-> child_built SpMVInd SpMVVal this b i c.
Proof.
  unfold nth_child, child_built, metadata. split.
  - intros H.
    apply bind_Ok_inv in H as (parent & Hp%rd_Ok_inv & H).
    apply bind_Ok_inv in H as (hi & Hhi & H).
    apply bind_Ok_inv in H as (lo & Hlo & H).
    apply bind_Ok_inv in H as (pHi & HpHi & H).
    apply bind_Ok_inv in H as (pLo & HpLo & H).
    apply bind_Ok_inv in H as (p1 & Hp1 & H).
    apply bind_Ok_inv in H as (p2 & Hp2 & H).
    apply bind_Ok_inv in H as (p3 & Hp3 & H).
    apply bind_Ok_inv in H as (s & Hs & H).
    injection H as <-. cbn.
    exists parent, lo, hi, pLo, pHi, s. repeat split; assumption.
  - intros (parent & lo & hi & pLo & pHi & s & Hp & Hhi & Hlo & HpHi & HpLo &
            Hp1 & Hp2 & Hp3 & Hs & Hd & Hname & Hmd).
    rewrite Hp. cbn [rd]. rewrite bind_Ok, Hhi, bind_Ok, Hlo, bind_Ok.
    rewrite HpHi, bind_Ok, HpLo, bind_Ok, Hp1, bind_Ok, Hp2, bind_Ok.
    rewrite Hp3, bind_Ok, Hs, bind_Ok.
    destruct c; cbn in *. subst. reflexivity.
Qed.

End Rounds.

(** ** What the invariants give *)

Lemma nondecreasing_step (b : list Z) (i : nat) (x y : Z) :
  nondecreasing b = true -> b !! i = Some x -> b !! S i = Some y -> x <= y.
Proof.
  revert i. induction b as [|a b IH]; intros i Hb Hx Hy; [discriminate|].
  destruct b as [|a' b]; [discriminate|].
  cbn [nondecreasing] in Hb. apply andb_true_iff in Hb as [Hle Hb].
  destruct i as [|i].
  - injection Hx as <-. injection Hy as <-. lia.
  - now apply (IH i).
Qed.

Lemma nondecreasing_le (b : list Z) :
  nondecreasing b = true ->
  forall (d i : nat) (x y : Z),
    b !! i = Some x -> b !! (i + d)%nat = Some y -> x <= y.
Proof.
  intros Hb. induction d as [|d IH]; intros i x y Hx Hy.
  - rewrite Nat.add_0_r in Hy. assert (x = y) by congruence. lia.
  - destruct (lookup_lt_is_Some_2 b (i + d)) as [z Hz].
    { apply lookup_lt_Some in Hy. lia. }
    transitivity z; [now apply (IH i)|].
    apply (nondecreasing_step b (i + d)); [assumption..|].
    now replace (S (i + d)) with (i + S d)%nat by lia.
Qed.

Lemma valid_boundaries_range (r : Z) (b : list Z) (i : nat) (lo hi : Z) :
  valid_boundaries r b = true ->
  b !! i = Some lo -> b !! S i = Some hi ->
  0 <= lo /\ lo <= hi /\ hi <= r.
Proof.
  unfold valid_boundaries. intros H Hlo Hhi.
  apply andb_true_iff in H as [H Hnd]. apply andb_true_iff in H as [Hh Hl].
  apply bool_decide_eq_true in Hh, Hl.
  repeat split.
  - apply (nondecreasing_le b Hnd i 0%nat); [|exact Hlo].
    now rewrite <- head_lookup.
  - now apply (nondecreasing_step b i).
  - rewrite last_lookup in Hl.
    apply (nondecreasing_le b Hnd (pred (length b) - S i) (S i)); [exact Hhi|].
    apply lookup_lt_Some in Hhi.
    now replace (S i + (pred (length b) - S i))%nat with (pred (length b)) by lia.
Qed.

Section InvariantsGive.
Context {SpMVVal : Type}.

Lemma invariants_view (m : CSR SpMVVal) :
  invariants m ->
  exists v md,
    view_of m = Some v /\ view_ok v /\
    m_metadata m = Some md /\
    rows md = Some (v_rows v) /\ cols md = Some (v_cols v) /\
    nz md = Some (v_nz v) /\
    elements (m_indPtrs m) (v_rows v + 1) = Some (v_indPtrs v) /\
    elements (m_inds m) (v_nz v) = Some (v_inds v) /\
    elements (m_nzData m) (v_nz v) = Some (v_nzData v).
Proof.
  unfold invariants, view_of. intros H.
  destruct (m_metadata m) as [md|]; [|contradiction].
  cbn in H.
  destruct (rows md) as [r|] eqn:Hr; [|contradiction]. cbn in H.
  destruct (cols md) as [c|] eqn:Hc; [|contradiction]. cbn in H.
  destruct (nz md) as [n|] eqn:Hn; [|contradiction]. cbn in H.
  destruct (elements (m_indPtrs m) (r + 1)) as [ip|] eqn:Hip; [|contradiction].
  cbn in H.
  destruct (elements (m_inds m) n) as [ix|] eqn:Hix; [|contradiction].
  cbn in H.
  destruct (elements (m_nzData m) n) as [vs|] eqn:Hvs; [|contradiction].
  cbn in H.
  exists {| v_rows := r; v_cols := c; v_nz := n;
            v_indPtrs := ip; v_inds := ix; v_nzData := vs |}, md.
  cbn. rewrite Hr, Hc, Hn. cbn. rewrite Hip. cbn. rewrite Hix. cbn.
  rewrite Hvs. cbn. split; [reflexivity|]. split; [exact H|].
  repeat split; reflexivity.
Qed.

Lemma nth_Z_lookup (l : list Z) (k : Z) :
  0 <= k < Z.of_nat (length l) -> l !! Z.to_nat k = Some (nth_Z l k).
Proof. intros H. unfold nth_Z. apply list_lookup_lookup_total_lt. lia. Qed.

Lemma indPtrs_step (v : view SpMVVal) (k : Z) :
  view_ok v -> 0 <= k < v_rows v ->
  nth_Z (v_indPtrs v) k <= nth_Z (v_indPtrs v) (k + 1).
Proof.
  intros (_ & _ & _ & _ & Hmono & _) Hk.
  rewrite Forall_seqZ in Hmono. apply Hmono. lia.
Qed.

Lemma indPtrs_mono (v : view SpMVVal) :
  view_ok v ->
  forall (d : nat) (x : Z),
    0 <= x -> x + Z.of_nat d <= v_rows v ->
    nth_Z (v_indPtrs v) x <= nth_Z (v_indPtrs v) (x + Z.of_nat d).
Proof.
  intros Hok. induction d as [|d IH]; intros x Hx Hle.
  - now rewrite Z.add_0_r.
  - transitivity (nth_Z (v_indPtrs v) (x + Z.of_nat d)); [apply IH; lia|].
    replace (x + Z.of_nat (S d)) with (x + Z.of_nat d + 1) by lia.
    apply indPtrs_step; [assumption|lia].
Qed.

Lemma indPtrs_le (v : view SpMVVal) (x y : Z) :
  view_ok v -> 0 <= x -> x <= y -> y <= v_rows v ->
  nth_Z (v_indPtrs v) x <= nth_Z (v_indPtrs v) y.
Proof.
  intros Hok Hx Hxy Hy.
  replace y with (x + Z.of_nat (Z.to_nat (y - x))) by lia.
  apply indPtrs_mono; [assumption|lia|lia].
Qed.

End InvariantsGive.

(** ** The children of a valid matrix *)

Lemma ptr_at_get {A : Type} (p q : ptr A) (a : Z) :
  ptr_at p a = Ok q -> forall k, ptr_get q k = ptr_get p (a + k).
Proof.
  destruct p as [|buf off]; [discriminate|]. intros [= <-] k.
  cbn. now rewrite Z.add_assoc.
Qed.

Lemma for_upto_collect_ex {A : Type} (f : Z -> outcome A) (bound : Z) :
  0 <= bound ->
  (forall i, 0 <= i < bound -> exists c, f i = Ok c) ->
  exists l, for_upto bound (fun i res => c ← f i; Ok (res ++ [c])) [] = Ok l.
Proof.
  intros Hb Hf.
  destruct (for_upto_inv (fun _ _ => True)
              (fun i res => c ← f i; Ok (res ++ [c])) bound [])
    as (t & Ht & _); try assumption; [exact I| |eauto].
  intros j t Hj _. destruct (Hf j Hj) as (c & Hc).
  rewrite Hc, bind_Ok. eauto.
Qed.

Section Children.
Context (SpMVInd : IndType) (SpMVVal : Type) `{!ValueType SpMVVal}.

(** The facts a round relies on, for a pair of consecutive boundaries of
    a matrix that satisfies the invariants. *)
Lemma round_facts (this : CSR SpMVVal) (v : view SpMVVal) (lo hi : Z) :
  view_of this = Some v -> view_ok v ->
  0 <= lo -> lo <= hi -> hi <= v_rows v ->
  ptr_get (m_indPtrs this) lo = Ok (nth_Z (v_indPtrs v) lo) /\
  ptr_get (m_indPtrs this) hi = Ok (nth_Z (v_indPtrs v) hi) /\
  0 <= nth_Z (v_indPtrs v) hi - nth_Z (v_indPtrs v) lo <= v_nz v /\
  nth_Z (v_indPtrs v) 0 <= nth_Z (v_indPtrs v) lo /\
  nth_Z (v_indPtrs v) hi <= nth_Z (v_indPtrs v) (v_rows v).
Proof.
  intros Hv Hok Hlo Hle Hhi.
  assert (Hinv : invariants this) by (unfold invariants; now rewrite Hv).
  destruct (invariants_view this Hinv)
    as (v' & md & Hv' & _ & Hmd & Hr & Hc & Hn & Hip & Hix & Hvs).
  assert (v' = v) by congruence. subst v'.
  pose proof Hok as (Hu & Hlen & _ & _ & _ & _ & Hnz).
  pose proof (indPtrs_le v lo hi Hok).
  pose proof (indPtrs_le v 0 lo Hok).
  pose proof (indPtrs_le v hi (v_rows v) Hok).
  repeat split; try lia.
  - apply (elements_get _ _ _ _ _ Hip); [lia|]. apply nth_Z_lookup. lia.
  - apply (elements_get _ _ _ _ _ Hip); [lia|]. apply nth_Z_lookup. lia.
Qed.

Lemma nth_child_Ok (this : CSR SpMVVal) (v : view SpMVVal) (b : list Z)
    (i : nat) (lo hi : Z) :
  view_of this = Some v -> view_ok v ->
  valid_boundaries (v_rows v) b = true ->
  Z.of_nat i <= INT_MAX ->
  b !! i = Some lo -> b !! S i = Some hi ->
  exists c, nth_child SpMVInd SpMVVal this b (Z.of_nat i) = Ok c.
Proof.
  intros Hv Hok Hb Hi Hlo Hhi.
  destruct (valid_boundaries_range _ _ _ _ _ Hb Hlo Hhi) as (H0 & Hle & Hr).
  destruct (round_facts this v lo hi Hv Hok H0 Hle Hr) as (HpLo & HpHi & _).
  assert (Hinv : invariants this) by (unfold invariants; now rewrite Hv).
  destruct (invariants_view this Hinv)
    as (v' & md & Hv' & _ & Hmd & _ & _ & _ & Hip & Hix & Hvs).
  destruct (itoa_decimal (Z.of_nat i)) as (s & Hs & _); [lia|].
  unfold nth_child, metadata. rewrite Hmd. cbn [rd]. rewrite bind_Ok.
  assert (Hu : uint (Z.of_nat i + 1) = Z.of_nat (S i)).
  { rewrite uint_small; [lia|]. unfold INT_MAX, UINT_RANGE in *. lia. }
  rewrite Hu. rewrite (proj2 (vec_get_Ok b (Z.of_nat (S i)) hi)), bind_Ok
    by (rewrite Nat2Z.id; split; [lia|assumption]).
  rewrite (proj2 (vec_get_Ok b (Z.of_nat i) lo)), bind_Ok
    by (rewrite Nat2Z.id; split; [lia|assumption]).
  rewrite HpHi, bind_Ok, HpLo, bind_Ok.
  destruct (m_indPtrs this) as [|buf1 off1]; [discriminate|].
  destruct (m_inds this) as [|buf2 off2]; [discriminate|].
  destruct (m_nzData this) as [|buf3 off3]; [discriminate|].
  cbn [ptr_at]. rewrite !bind_Ok.
  rewrite to_int_small, Hs, bind_Ok by lia.
  eauto.
Qed.

Lemma child_built_is_child_view (this : CSR SpMVVal) (v : view SpMVVal)
    (b : list Z) (i : nat) (lo hi : Z) (c : CSR SpMVVal) :
  view_of this = Some v -> view_ok v ->
  valid_boundaries (v_rows v) b = true ->
  Z.of_nat i <= INT_MAX ->
  b !! i = Some lo -> b !! S i = Some hi ->
  child_built SpMVInd SpMVVal this b (Z.of_nat i) c ->
  is_child_view SpMVVal this (Z.of_nat i) lo hi c.
Proof.
  intros Hv Hok Hb Hi Hlo Hhi
    (parent & lo' & hi' & pLo & pHi & s & Hp & Hhi' & Hlo' & HpHi & HpLo &
     Hp1 & Hp2 & Hp3 & Hs & Hd & Hname & Hmd).
  destruct (valid_boundaries_range _ _ _ _ _ Hb Hlo Hhi) as (H0 & Hle & Hr).
  destruct (round_facts this v lo hi Hv Hok H0 Hle Hr)
    as (HpLo' & HpHi' & Hdiff & _).
  pose proof Hok as ((Hur & Huc & Hun) & _).
  assert (Hu : uint (Z.of_nat i + 1) = Z.of_nat (S i)).
  { rewrite uint_small; [lia|]. unfold INT_MAX, UINT_RANGE in *. lia. }
  rewrite Hu in Hhi'. apply vec_get_Ok in Hhi' as [_ Hhi'].
  apply vec_get_Ok in Hlo' as [_ Hlo']. rewrite Nat2Z.id in Hhi', Hlo'.
  assert (lo' = lo) by congruence. assert (hi' = hi) by congruence.
  subst lo' hi'.
  assert (pLo = nth_Z (v_indPtrs v) lo) by congruence.
  assert (pHi = nth_Z (v_indPtrs v) hi) by congruence.
  destruct (itoa_decimal (Z.of_nat i)) as (s' & Hs' & Hdec); [lia|].
  rewrite to_int_small in Hs by lia.
  assert (s' = s) by congruence. subst s'.
  unfold is_uint in *.
  eexists parent, _, pLo, pHi, s.
  split; [exact Hp|]. split; [exact Hmd|]. cbn.
  split; [exact HpLo|]. split; [exact HpHi|].
  split; [now rewrite ind_uint, uint_small by lia|].
  split; [reflexivity|].
  split; [now rewrite ind_uint, uint_small by lia|].
  split; [now rewrite uint_small by lia|].
  split; [reflexivity|]. split; [reflexivity|]. split; [reflexivity|].
  split; [now apply ptr_at_get|].
  split; [now apply ptr_at_get|].
  split; [now apply ptr_at_get|].
  split; assumption.
Qed.

(** C4, within the range of [int].  For a matrix that satisfies the invariants, boundaries
    [b[0..k]] that start at zero, end at [rows] and never decrease, and
    at most [INT_MAX + 1] partitions, [rowPartitionedView] returns [k]
    children, and child [i] has [rows = b[i+1] - b[i]], the [cols] of the
    parent, [nz = indPtrs[b[i+1]] - indPtrs[b[i]]], [startingRow = b[i]],
    [startingCol = 0], the [bytesPerInd] and [bytesPerVal] of the parent;
    its [indPtrs] are those of the parent from offset [b[i]] on, with
    their values unchanged, its [inds] and [nzData] those of the parent
    from offset [indPtrs[b[i]]] on, and its name is the name of the
    parent, ["-p"] and the decimal representation of [i]. *)
Theorem rowPartitionedView_views (this : CSR SpMVVal) (r : Z) (b : list Z) :
  invariants this ->
  getRows SpMVVal this = Ok r ->
  valid_boundaries r b = true ->
  Z.of_nat (length b) <= INT_MAX + 2 ->
  partitions_by SpMVInd SpMVVal this b.
Proof.
  intros Hinv Hrows Hb Hlen.
  destruct (invariants_view this Hinv)
    as (v & md & Hv & Hok & Hmd & Hr & _).
  assert (r = v_rows v).
  { unfold getRows, metadata in Hrows. rewrite Hmd in Hrows. cbn in Hrows.
    rewrite Hr in Hrows. now injection Hrows. }
  subst r.
  assert (Hne : (0 < length b)%nat).
  { destruct b; [discriminate|]. simpl. lia. }
  assert (Hk : uint (Z.of_nat (length b) - 1) = Z.of_nat (length b) - 1).
  { apply uint_small. unfold INT_MAX, UINT_RANGE in *. lia. }
  assert (Hround : forall i, 0 <= i < Z.of_nat (length b) - 1 ->
            exists c, nth_child SpMVInd SpMVVal this b i = Ok c).
  { intros i Hi.
    destruct (lookup_lt_is_Some_2 b (Z.to_nat i)) as [lo Hlo]; [lia|].
    destruct (lookup_lt_is_Some_2 b (S (Z.to_nat i))) as [hi Hhi]; [lia|].
    rewrite <- (Z2Nat.id i) by lia.
    apply (nth_child_Ok this v b (Z.to_nat i) lo hi); try assumption. lia. }
  destruct (for_upto_collect_ex (nth_child SpMVInd SpMVVal this b)
              (Z.of_nat (length b) - 1)) as (children & Hrun); [lia|assumption|].
  exists children. unfold rowPartitionedView. rewrite Hk.
  split; [exact Hrun|].
  apply for_upto_collect_inv in Hrun as (Hl & Hnth).
  split; [lia|].
  intros i lo hi Hlo Hhi.
  assert (Hi : (S i < length b)%nat) by now apply lookup_lt_Some in Hhi.
  destruct (lookup_lt_is_Some_2 children i) as [c Hc]; [lia|].
  exists c. split; [exact Hc|].
  apply (child_built_is_child_view this v b i lo hi c); try assumption; [lia|].
  apply nth_child_spec. now apply Hnth.
Qed.

End Children.

(** ** More partitions than an int counts *)

Lemma nondecreasing_replicate (n : nat) (x : Z) :
  nondecreasing (replicate n x) = true.
Proof.
  induction n as [|n IH]; [reflexivity|].
  destruct n as [|n]; [reflexivity|].
  cbn [replicate nondecreasing] in *. rewrite IH, andb_true_r. lia.
Qed.

Lemma valid_boundaries_replicate (n : nat) :
  (0 < n)%nat -> valid_boundaries 0 (replicate n 0) = true.
Proof.
  intros Hn. unfold valid_boundaries.
  rewrite nondecreasing_replicate, andb_true_r.
  apply andb_true_iff. split; apply bool_decide_eq_true.
  - destruct n; [lia|reflexivity].
  - rewrite last_lookup, length_replicate. apply lookup_replicate_2. lia.
Qed.

Section TooMany.
Context (SpMVInd : IndType) (SpMVVal : Type) `{!ValueType SpMVVal}.

Lemma rowPartitionedView_int_overflow (this : CSR SpMVVal) (v : view SpMVVal)
    (n : nat) :
  view_of this = Some v -> view_ok v -> v_rows v = 0 ->
  INT_MAX + 3 <= Z.of_nat n < UINT_RANGE ->
  rowPartitionedView SpMVInd SpMVVal this (replicate n 0) = Undefined.
Proof.
  intros Hv Hok Hr Hn. unfold rowPartitionedView.
  assert (HI : INT_MAX = 2147483647) by reflexivity.
  assert (HU : UINT_RANGE = 4294967296) by reflexivity.
  rewrite length_replicate.
  assert (Hb : valid_boundaries (v_rows v) (replicate n 0) = true).
  { rewrite Hr. apply valid_boundaries_replicate. lia. }
  rewrite uint_small by lia.
  apply (for_upto_collect_undefined _ _ (INT_MAX + 1)); [lia| |].
  - intros i Hi. rewrite <- (Z2Nat.id i) by lia.
    apply (nth_child_Ok SpMVInd SpMVVal this v (replicate n 0) (Z.to_nat i) 0 0);
      try assumption; try lia; apply lookup_replicate_2; lia.
  - destruct (round_facts SpMVVal this v 0 0 Hv Hok) as (Hp & _); try lia.
    assert (Hinv : invariants this) by (unfold invariants; now rewrite Hv).
    destruct (invariants_view this Hinv)
      as (v' & md & Hv' & _ & Hmd & _ & _ & _ & Hip & Hix & Hvs).
    unfold nth_child, metadata. rewrite Hmd. cbn [rd]. rewrite bind_Ok.
    rewrite (proj2 (vec_get_Ok (replicate n 0) (uint (INT_MAX + 1 + 1)) 0)), bind_Ok.
    2:{ rewrite uint_small by lia.
        split; [lia|]. apply lookup_replicate_2. lia. }
    rewrite (proj2 (vec_get_Ok (replicate n 0) (INT_MAX + 1) 0)), bind_Ok.
    2:{ split; [lia|]. apply lookup_replicate_2. lia. }
    rewrite Hp, !bind_Ok.
    destruct (m_indPtrs this) as [|buf1 off1]; [discriminate|].
    destruct (m_inds this) as [|buf2 off2]; [discriminate|].
    destruct (m_nzData this) as [|buf3 off3]; [discriminate|].
    cbn [ptr_at]. rewrite !bind_Ok.
    replace (to_int (INT_MAX + 1)) with (- INT_MAX - 1) by reflexivity.
    now rewrite itoa_INT_MIN.
Qed.

End TooMany.

(** ** The constructors establish the invariants *)

Lemma nth_Z_fmap_seqZ_snoc (f : Z -> Z) (x n i : Z) :
  0 <= i <= n ->
  nth_Z ((f <$> seqZ 0 n) ++ [x]) i = if i <? n then f i else x.
Proof.
  intros H. unfold nth_Z. apply list_lookup_total_correct.
  now apply lookup_fmap_seqZ_snoc.
Qed.

Lemma nth_Z_seqZ (n i : Z) : 0 <= i < n -> nth_Z (seqZ 0 n) i = i.
Proof.
  intros H. unfold nth_Z. apply list_lookup_total_correct.
  now apply lookup_seqZ_0.
Qed.

Section ConstructorsInvariants.
Context (SpMVInd : IndType) (SpMVVal : Type) `{!ValueType SpMVVal}.

(** [eye(UINT_MAX)]: [dim + 1] wraps to zero, the array of index pointers
    is empty and the first round of the loop writes outside it. *)
Lemma eye_overflow (dim : Z) :
  0 < dim -> uint (dim + 1) = 0 -> eye SpMVVal dim = Undefined.
Proof.
  intros Hd Hw. unfold eye. rewrite Hw.
  set (body := fun (i : Z) '(indPtrs, inds, nzData) => _).
  unfold for_upto.
  rewrite (for_loop_undefined (fun _ '(a, _, _) => a = (@nil (option Z)))
             body 0 (Z.to_nat dim)); [reflexivity|lia|reflexivity| |].
  - intros j t Hj. lia.
  - intros [[a b] c] ->. reflexivity.
Qed.

Lemma eye_invariants (dim : Z) (m : CSR SpMVVal) :
  0 <= dim < UINT_RANGE -> eye SpMVVal dim = Ok m -> invariants m.
Proof.
  intros Hd Hm.
  destruct (Z.eq_dec (dim + 1) UINT_RANGE) as [E|E].
  { rewrite eye_overflow in Hm; [discriminate| |].
    - unfold UINT_RANGE in *. lia.
    - rewrite E. reflexivity. }
  rewrite eye_Ok in Hm by lia. injection Hm as <-.
  unfold invariants, view_of. cbn.
  rewrite !elements_loaded by (rewrite ?length_fmap, length_seqZ; lia).
  cbn. unfold view_ok, is_uint. cbn.
  rewrite ?length_fmap, !length_seqZ.
  repeat split; try lia.
  - apply Forall_seqZ. intros r Hr. rewrite !nth_Z_seqZ by lia. lia.
  - apply Forall_forall. intros c Hc. apply elem_of_seqZ in Hc. lia.
  - rewrite !nth_Z_seqZ by lia. lia.
Qed.

Lemma dense_invariants (dim : Z) (m : CSR SpMVVal) :
  0 <= dim -> dim * dim < UINT_RANGE ->
  dense SpMVInd SpMVVal dim = Ok m -> invariants m.
Proof.
  intros Hd Hsq Hm.
  assert (Hmax : dim + 1 < UINT_RANGE) by (unfold UINT_RANGE in *; nia).
  pose proof (IND_RANGE_ge SpMVInd) as Hind.
  rewrite dense_Ok in Hm by lia. injection Hm as <-.
  rewrite (uint_small (dim * dim)) by nia.
  assert (Hnth : forall i, 0 <= i <= dim ->
            nth_Z (((fun i => ind SpMVInd (i * dim)) <$> seqZ 0 dim) ++ [dim * dim]) i
            = i * dim).
  { intros i Hi. rewrite nth_Z_fmap_seqZ_snoc by lia.
    case_ltb; [apply ind_small; nia|]. replace i with dim by lia. reflexivity. }
  unfold invariants, view_of. cbn.
  rewrite !elements_loaded
    by (rewrite ?length_app, ?length_fmap, length_seqZ; simpl; lia).
  cbn. unfold view_ok, is_uint. cbn.
  rewrite ?length_app, ?length_fmap, !length_seqZ. cbn [length].
  repeat split; try lia.
  - apply Forall_seqZ. intros r Hr. rewrite !Hnth by lia. nia.
  - apply Forall_forall. intros c (k & -> & Hk)%list_elem_of_fmap.
    apply elem_of_seqZ in Hk. apply Z.mod_pos_bound. nia.
  - rewrite !Hnth by lia. lia.
Qed.

(** When [dim * dim] wraps to zero, [dense(dim)] stores no entry, yet
    its index pointers say that row 0 has [dim] of them. *)
Lemma dense_overflow (dim : Z) :
  2 <= dim -> dim + 1 < UINT_RANGE -> uint (dim * dim) = 0 ->
  exists m, dense SpMVInd SpMVVal dim = Ok m /\
            getRows SpMVVal m = Ok dim /\
            getNNZ SpMVVal m = Ok 0 /\
            m_inds m = loaded [] /\
            m_nzData m = loaded [] /\
            ptr_get (m_indPtrs m) 0 = Ok 0 /\
            ptr_get (m_indPtrs m) 1 = Ok dim /\
            ptr_get (m_indPtrs m) dim = Ok 0 /\
            row_entries SpMVVal m 0 = Undefined.
Proof.
  intros Hd Hmax Hwrap.
  pose proof (IND_RANGE_ge SpMVInd) as Hind.
  pose proof (dense_Ok SpMVInd SpMVVal dim ltac:(lia) Hmax) as Hm.
  rewrite Hwrap in Hm. rewrite (seqZ_nil 0 0) in Hm by lia.
  assert (H0 : ptr_get (loaded (((fun i => ind SpMVInd (i * dim)) <$> seqZ 0 dim)
                                ++ [0])) 0 = Ok 0).
  { apply ptr_get_loaded; [lia|].
    rewrite (lookup_fmap_seqZ_snoc (fun i => ind SpMVInd (i * dim))) by lia.
    case_ltb; [reflexivity|lia]. }
  assert (H1 : ptr_get (loaded (((fun i => ind SpMVInd (i * dim)) <$> seqZ 0 dim)
                                ++ [0])) 1 = Ok dim).
  { apply ptr_get_loaded; [lia|].
    rewrite (lookup_fmap_seqZ_snoc (fun i => ind SpMVInd (i * dim))) by lia.
    case_ltb; [|lia]. f_equal. rewrite Z.mul_1_l. apply ind_small. lia. }
  assert (Hlast : ptr_get (loaded (((fun i => ind SpMVInd (i * dim)) <$> seqZ 0 dim)
                                   ++ [0])) dim = Ok 0).
  { apply ptr_get_loaded; [lia|].
    rewrite (lookup_fmap_seqZ_snoc (fun i => ind SpMVInd (i * dim))) by lia.
    case_ltb; [lia|reflexivity]. }
  eexists. split; [exact Hm|].
  split; [reflexivity|].
  split; [reflexivity|]. split; [reflexivity|]. split; [reflexivity|].
  split; [exact H0|]. split; [exact H1|]. split; [exact Hlast|].
  unfold row_entries. cbn [m_indPtrs m_inds m_nzData].
  rewrite Z.add_0_l.
  rewrite H0, bind_Ok, H1, bind_Ok.
  rewrite seqZ_cons by lia. reflexivity.
Qed.

(** Such a matrix does not satisfy the invariants: its second index
    pointer exceeds the last one. *)
Lemma dense_overflow_invariants (dim : Z) (m : CSR SpMVVal) :
  2 <= dim -> dim + 1 < UINT_RANGE -> uint (dim * dim) = 0 ->
  dense SpMVInd SpMVVal dim = Ok m -> ~ invariants m.
Proof.
  intros Hd Hmax Hwrap Hm Hinv.
  destruct (dense_overflow dim Hd Hmax Hwrap)
    as (m' & Hm' & Hrows & _ & _ & _ & _ & H1 & Hlast & _).
  assert (m' = m) by congruence. subst m'.
  destruct (invariants_view m Hinv)
    as (v & md & Hv & Hok & Hmd & Hr & _ & _ & Hip & _).
  assert (v_rows v = dim).
  { unfold getRows, metadata in Hrows. rewrite Hmd in Hrows. cbn in Hrows.
    rewrite Hr in Hrows. now injection Hrows. }
  pose proof Hok as (_ & Hlen & _ & _ & Hmono & _).
  rewrite Forall_seqZ in Hmono. destruct (Hmono 0) as (_ & _ & Hle); [lia|].
  assert (E1 : ptr_get (m_indPtrs m) 1 = Ok (nth_Z (v_indPtrs v) 1)).
  { apply (elements_get _ _ _ _ _ Hip); [lia|]. apply nth_Z_lookup. lia. }
  assert (E2 : ptr_get (m_indPtrs m) dim = Ok (nth_Z (v_indPtrs v) dim)).
  { apply (elements_get _ _ _ _ _ Hip); [lia|]. apply nth_Z_lookup. lia. }
  rewrite H1 in E1. rewrite Hlast in E2.
  injection E1 as E1. injection E2 as E2.
  replace (0 + 1) with 1 in Hle by lia. rewrite H in Hle. lia.
Qed.

End ConstructorsInvariants.

(** ** load *)

Section Load.
Context (SpMVInd : IndType) (SpMVVal : Type) `{!ValueType SpMVVal}.

Lemma load_no_meta (st : store SpMVVal) (name : string) (gen : bool) :
  file_meta (st name) = None -> load SpMVInd SpMVVal st name gen = Undefined.
Proof. intros H. unfold load. now rewrite H. Qed.

Lemma load_bytesPerInd_mismatch (st : store SpMVVal) (name : string)
    (gen : bool) (md : SparseMatrixMetadata) (bpi : Z) :
  file_meta (st name) = Some md -> bytesPerInd md = Some bpi ->
  bpi <> sizeofInd SpMVInd ->
  load SpMVInd SpMVVal st name gen = Throw "bytesPerInd mismatch in CSR::load".
Proof.
  intros Hmd Hbpi Hne. unfold load. rewrite Hmd. cbn [rd].
  rewrite bind_Ok, Hbpi. cbn [rd]. rewrite bind_Ok.
  destruct (Z.eqb_spec bpi (sizeofInd SpMVInd)); [contradiction|reflexivity].
Qed.

Lemma load_bytesPerVal_mismatch (st : store SpMVVal) (name : string)
    (md : SparseMatrixMetadata) (bpv : Z) :
  file_meta (st name) = Some md ->
  bytesPerInd md = Some (sizeofInd SpMVInd) ->
  bytesPerVal md = Some bpv -> bpv <> sizeofVal ->
  load SpMVInd SpMVVal st name false
  = Throw "bytesPerVal mismatch in CSR::load -- consider using genNZData".
Proof.
  intros Hmd Hbpi Hbpv Hne. unfold load. rewrite Hmd. cbn [rd].
  rewrite bind_Ok, Hbpi. cbn [rd]. rewrite bind_Ok, Z.eqb_refl. cbn [negb].
  rewrite Hbpv. cbn [rd]. rewrite bind_Ok.
  destruct (Z.eqb_spec bpv sizeofVal); [contradiction|reflexivity].
Qed.

(** Once both width checks have passed, [load] is the reading of the
    three arrays. *)
Lemma load_widths_pass (st : store SpMVVal) (name : string) (gen : bool)
    (md : SparseMatrixMetadata) (bpv : Z) :
  file_meta (st name) = Some md ->
  bytesPerInd md = Some (sizeofInd SpMVInd) ->
  bytesPerVal md = Some bpv -> (bpv = sizeofVal \/ gen = true) ->
  load SpMVInd SpMVVal st name gen =
  match file_indptr (st name) with
  | None => Throw "could not load indptr in CSR::load"
  | Some indPtrs =>
    match file_inds (st name) with
    | None => Throw "could not load inds in CSR::load"
    | Some inds =>
      nzData ←
        (if gen then
           n ← rd (nz md);
           Ok (loaded ((fun i => castVal (ind SpMVInd (i + 1)))
                         <$> seqZ 0 (ind SpMVInd n)))
         else
           match file_nzdata (st name) with
           | None => Throw "could not load nzdata in CSR::load"
           | Some nzData => Ok (loaded nzData)
           end);
      Ok {| m_needsDealloc := true; m_metadata := Some md;
            m_indPtrs := loaded indPtrs; m_inds := loaded inds;
            m_nzData := nzData; m_name := name |}
    end
  end.
Proof.
  intros Hmd Hbpi Hbpv Hpass. unfold load. rewrite Hmd. cbn [rd].
  rewrite bind_Ok, Hbpi. cbn [rd]. rewrite bind_Ok, Z.eqb_refl. cbn [negb].
  rewrite Hbpv. cbn [rd]. rewrite bind_Ok.
  assert (Hc : negb (bpv =? sizeofVal) && negb gen = false).
  { destruct Hpass as [->| ->]; [now rewrite Z.eqb_refl|apply andb_false_r]. }
  rewrite Hc.
  destruct (file_indptr (st name)) as [ip|]; [|reflexivity].
  destruct (file_inds (st name)) as [ix|]; [|reflexivity].
  destruct gen; [|reflexivity].
  destruct (nz md) as [n|]; [|reflexivity]. cbn [rd]. rewrite !bind_Ok.
  assert (Hn : 0 <= ind SpMVInd n).
  { unfold ind, IND_RANGE. apply Z.mod_pos_bound. destruct SpMVInd; cbn; lia. }
  rewrite filled_nil.
  rewrite (for_upto_fill (fun i => castVal (ind SpMVInd (i + 1)))) by lia.
  rewrite bind_Ok, filled_full by (now rewrite length_fmap, length_seqZ).
  reflexivity.
Qed.

Lemma load_invariants (st : store SpMVVal) (name : string) (gen : bool)
    (m : CSR SpMVVal) :
  store_invariants SpMVInd SpMVVal (st name) gen ->
  load SpMVInd SpMVVal st name gen = Ok m ->
  invariants m.
Proof.
  unfold store_invariants, stored_view. intros Hst Hm.
  destruct (file_meta (st name)) as [md|] eqn:Hmd; [|contradiction].
  cbn in Hst.
  destruct (rows md) as [r|] eqn:Hr; [|contradiction]. cbn in Hst.
  destruct (cols md) as [c|] eqn:Hc; [|contradiction]. cbn in Hst.
  destruct (nz md) as [n|] eqn:Hn; [|contradiction]. cbn in Hst.
  destruct (file_indptr (st name)) as [ip|] eqn:Hip; [|contradiction].
  cbn in Hst.
  destruct (file_inds (st name)) as [ix|] eqn:Hix; [|contradiction].
  cbn in Hst.
  (* the width checks have passed, or [load] would have thrown *)
  destruct (bytesPerInd md) as [bpi|] eqn:Hbpi;
    [|unfold load in Hm; rewrite Hmd in Hm; cbn in Hm;
      rewrite Hbpi in Hm; discriminate].
  destruct (Z.eq_dec bpi (sizeofInd SpMVInd)) as [->|Hne];
    [|rewrite (load_bytesPerInd_mismatch st name gen md bpi) in Hm;
      [discriminate|assumption..]].
  destruct (bytesPerVal md) as [bpv|] eqn:Hbpv;
    [|unfold load in Hm; rewrite Hmd in Hm; cbn in Hm;
      rewrite Hbpi in Hm; cbn in Hm; rewrite Z.eqb_refl in Hm; cbn in Hm;
      rewrite Hbpv in Hm; discriminate].
  assert (Hpass : bpv = sizeofVal \/ gen = true).
  { destruct gen; [now right|]. left.
    destruct (Z.eq_dec bpv sizeofVal) as [|Hne]; [assumption|].
    rewrite (load_bytesPerVal_mismatch st name md bpv) in Hm;
      [discriminate|assumption..]. }
  rewrite (load_widths_pass st name gen md bpv) in Hm by assumption.
  rewrite Hip, Hix in Hm.
  destruct gen.
  - rewrite Hn in Hm. cbn in Hm. injection Hm as <-.
    cbn in Hst. pose proof Hst as ((_ & _ & Hun) & Hl1 & Hl2 & Hl3 & _).
    cbn in Hun, Hl1, Hl2, Hl3.
    rewrite ind_uint by exact Hun.
    unfold invariants, view_of. cbn. rewrite Hr, Hc, Hn. cbn.
    rewrite !elements_loaded by lia. cbn. exact Hst.
  - destruct (file_nzdata (st name)) as [vs|] eqn:Hvs; [|contradiction].
    cbn in Hm. injection Hm as <-.
    cbn in Hst. pose proof Hst as (_ & Hl1 & Hl2 & Hl3 & _).
    cbn in Hl1, Hl2, Hl3.
    unfold invariants, view_of. cbn. rewrite Hr, Hc, Hn. cbn.
    rewrite !elements_loaded by lia. cbn. exact Hst.
Qed.

End Load.

(** ** The children of a root matrix satisfy the invariants *)

Lemma nth_Z_sub (l : list Z) (a m x : Z) :
  0 <= a -> 0 <= x < m ->
  nth_Z (take (Z.to_nat m) (drop (Z.to_nat a) l)) x = nth_Z l (a + x).
Proof.
  intros Ha Hx. unfold nth_Z.
  rewrite lookup_total_take_lt by lia. rewrite lookup_total_drop.
  f_equal. lia.
Qed.

Section ChildrenInvariants.
Context (SpMVInd : IndType) (SpMVVal : Type) `{!ValueType SpMVVal}.

Lemma child_invariants (this : CSR SpMVVal) (r : Z) (b : list Z)
    (children : list (CSR SpMVVal)) (c : CSR SpMVVal) :
  invariants this -> zero_based this ->
  getRows SpMVVal this = Ok r ->
  valid_boundaries r b = true ->
  rowPartitionedView SpMVInd SpMVVal this b = Ok children ->
  c ∈ children ->
  invariants c.
Proof.
  intros Hinv Hzero Hrows Hb Hrun Hc.
  destruct (invariants_view this Hinv)
    as (v & md & Hv & Hok & Hmd & Hr & Hcl & Hn & Hip & Hix & Hvs).
  assert (r = v_rows v).
  { unfold getRows, metadata in Hrows. rewrite Hmd in Hrows. cbn in Hrows.
    rewrite Hr in Hrows. now injection Hrows. }
  subst r.
  unfold rowPartitionedView in Hrun.
  apply for_upto_collect_inv in Hrun as (Hlen & Hnth).
  apply list_elem_of_lookup in Hc as (k & Hk).
  pose proof (lookup_lt_Some _ _ _ Hk) as Hklt.
  pose proof (uint_range (Z.of_nat (length b) - 1)) as Hu.
  apply Hnth, nth_child_spec in Hk.
  destruct Hk as (parent & lo & hi & pLo & pHi & s & Hp & Hhi & Hlo & HpHi &
                  HpLo & Hp1 & Hp2 & Hp3 & _ & _ & _ & Hcmd).
  assert (parent = md) by congruence. subst parent.
  rewrite uint_small in Hhi by lia.
  apply vec_get_Ok in Hhi as [_ Hhi]. apply vec_get_Ok in Hlo as [_ Hlo].
  replace (Z.to_nat (Z.of_nat k + 1)) with (S k) in Hhi by lia.
  rewrite Nat2Z.id in Hlo.
  destruct (valid_boundaries_range _ _ _ _ _ Hb Hlo Hhi) as (H0 & Hle & Hhr).
  destruct (round_facts SpMVVal this v lo hi Hv Hok H0 Hle Hhr)
    as (HpLo' & HpHi' & Hdiff & Hfirst & Hlast).
  destruct (round_facts SpMVVal this v 0 0 Hv Hok) as (Hz & _); try lia.
  assert (Hip0 : nth_Z (v_indPtrs v) 0 = 0)
    by (unfold zero_based in Hzero; congruence).
  assert (pLo = nth_Z (v_indPtrs v) lo) by congruence.
  assert (pHi = nth_Z (v_indPtrs v) hi) by congruence.
  subst pLo pHi.
  pose proof Hok as ((Hur & Huc & Hun) & Hl1 & Hl2 & Hl3 & Hmono & Hcols & Hnz).
  unfold is_uint in *.
  rewrite ind_uint, uint_small in Hcmd by lia.
  rewrite ind_uint, uint_small in Hcmd by lia.
  destruct (m_indPtrs this) as [|buf1 off1]; [discriminate|].
  destruct (m_inds this) as [|buf2 off2]; [discriminate|].
  destruct (m_nzData this) as [|buf3 off3]; [discriminate|].
  injection Hp1 as Hp1. injection Hp2 as Hp2. injection Hp3 as Hp3.
  unfold invariants, view_of.
  rewrite Hcmd, <- Hp1, <- Hp2, <- Hp3. cbn. rewrite Hcl. cbn.
  rewrite (elements_sub _ _ _ _ lo (hi - lo + 1) Hip) by lia. cbn.
  rewrite (elements_sub _ _ _ _ _ (nth_Z (v_indPtrs v) hi - nth_Z (v_indPtrs v) lo) Hix)
    by lia. cbn.
  rewrite (elements_sub _ _ _ _ _ (nth_Z (v_indPtrs v) hi - nth_Z (v_indPtrs v) lo) Hvs)
    by lia. cbn.
  unfold view_ok, is_uint. cbn.
  rewrite !length_take, !length_drop.
  rewrite Forall_seqZ in Hmono.
  repeat split; try lia.
  - apply Forall_seqZ. intros x Hx.
    rewrite !nth_Z_sub by lia.
    destruct (Hmono (lo + x)) as (Hm1 & Hm2 & Hm3); [lia|].
    replace (lo + (x + 1)) with (lo + x + 1) by lia.
    replace (lo + (hi - lo)) with hi by lia.
    repeat split; try lia.
    apply indPtrs_le; [assumption|lia..].
  - now apply Forall_take, Forall_drop.
  - rewrite !nth_Z_sub by lia.
    replace (lo + (hi - lo)) with hi by lia. now rewrite Z.add_0_r.
Qed.

End ChildrenInvariants.

(** * The claims of the specification *)

Lemma dense_3 : dense UInt32 uint64 3 = Ok dense3.
Proof. reflexivity. Qed.

Lemma eye_3 : eye uint64 3 = Ok eye3.
Proof. reflexivity. Qed.

Lemma eye_0 : eye uint64 0 = Ok empty_matrix.
Proof. reflexivity. Qed.

Section Claims.
Context (SpMVInd : IndType) (SpMVVal : Type) `{!ValueType SpMVVal}.

(** C1, while [r + numPartitions] is in the range of [unsigned int], in
    which the code computes the sum.  For a matrix of [r] rows and
    [numPartitions >= 1] with [r + numPartitions < 2^32],
    [calcRowPartitionBoundaries] returns [numPartitions + 1] entries;
    entry [i < numPartitions] is [((r + numPartitions) / numPartitions) * i]
    and the last entry is [r].  On [dense(3)] and three partitions the
    result is [0, 2, 4, 3]. *)
Theorem calcRowPartitionBoundaries_formula :
  (forall (this : CSR SpMVVal) (r numPartitions : Z),
      getRows SpMVVal this = Ok r -> 0 <= r ->
      1 <= numPartitions -> r + numPartitions < UINT_RANGE ->
      exists b,
        calcRowPartitionBoundaries SpMVInd SpMVVal this numPartitions = Ok b /\
        Z.of_nat (length b) = numPartitions + 1 /\
        (forall i, 0 <= i < numPartitions ->
           b !! Z.to_nat i = Some ((r + numPartitions) / numPartitions * i)) /\
        b !! Z.to_nat numPartitions = Some r) /\
  (exists d, dense SpMVInd SpMVVal 3 = Ok d /\
             calcRowPartitionBoundaries SpMVInd SpMVVal d 3 = Ok [0; 2; 4; 3]).
Proof.
  split.
  - intros this r n Hr H0 Hn Hmax.
    assert (Hu : is_uint r) by (unfold is_uint; lia).
    eexists.
    split; [exact (calcRowPartitionBoundaries_Ok SpMVInd SpMVVal this r n Hr Hu Hn)|].
    split; [|split].
    + rewrite length_app, length_fmap, length_seqZ. simpl. lia.
    + intros i Hi.
      rewrite lookup_app_l by (rewrite length_fmap, length_seqZ; lia).
      rewrite (lookup_fmap_seqZ (fun i => uint (uint (r + n) / n * i))) by lia.
      rewrite (uint_small (r + n)) by lia.
      f_equal. apply uint_small.
      assert (Hq : n * ((r + n) / n) <= r + n) by (apply Z.mul_div_le; lia).
      assert (0 <= (r + n) / n) by (apply Z.div_pos; lia).
      nia.
    + rewrite lookup_app_r by (rewrite length_fmap, length_seqZ; lia).
      rewrite length_fmap, length_seqZ, Nat.sub_diag. reflexivity.
  - eexists. split; [apply dense_Ok; unfold UINT_RANGE; lia|].
    rewrite (calcRowPartitionBoundaries_Ok _ _ _ 3); try reflexivity.
    + unfold is_uint, UINT_RANGE. lia.
    + lia.
Qed.

(** C2.  On a matrix without rows the chunk size
    [(0 + numPartitions) / numPartitions] is one, not zero, and the
    boundaries are [0, 1, ..., numPartitions - 1, 0]: with two partitions
    or more they are not all zero. *)
Theorem zero_rows_boundaries (this : CSR SpMVVal) (numPartitions : Z) :
  getRows SpMVVal this = Ok 0 ->
  1 <= numPartitions -> numPartitions < UINT_RANGE ->
  calcRowPartitionBoundaries SpMVInd SpMVVal this numPartitions
  = Ok (seqZ 0 numPartitions ++ [0]).
Proof.
  intros Hr Hn Hmax.
  rewrite (calcRowPartitionBoundaries_Ok _ _ _ 0); try assumption.
  - f_equal. f_equal. rewrite <- (list_fmap_id (seqZ 0 numPartitions)) at 2.
    apply list_fmap_ext. intros k i Hi. apply lookup_seqZ in Hi.
    destruct Hi as [-> Hk]. rewrite !Z.add_0_l.
    rewrite (uint_small numPartitions) by (split; [lia|exact Hmax]).
    rewrite (Z.div_same numPartitions) by lia. rewrite Z.mul_1_l.
    unfold id. apply uint_small. lia.
  - unfold is_uint, UINT_RANGE. lia.
Qed.

(** C3.  On [dense(3)] and three partitions the boundaries are
    [0, 2, 4, 3]: the second one passes the last row, and
    [rowPartitionedView] reads [m_indPtrs[4]] beyond the four index
    pointers of the matrix. *)
Theorem dense3_three_partitions :
  exists d,
    dense SpMVInd SpMVVal 3 = Ok d /\
    calcRowPartitionBoundaries SpMVInd SpMVVal d 3 = Ok [0; 2; 4; 3] /\
    ptr_get (m_indPtrs d) 4 = Undefined /\
    rowPartitionedView SpMVInd SpMVVal d [0; 2; 4; 3] = Undefined.
Proof.
  eexists. split; [apply dense_Ok; unfold UINT_RANGE; lia|].
  split; [|split].
  - rewrite (calcRowPartitionBoundaries_Ok _ _ _ 3); try reflexivity.
    + unfold is_uint, UINT_RANGE. lia.
    + lia.
  - reflexivity.
  - unfold rowPartitionedView.
    change (uint (Z.of_nat (length [0; 2; 4; 3]) - 1)) with 3.
    apply (for_upto_collect_undefined _ _ 1); [lia| |reflexivity].
    intros i Hi. replace i with 0 by lia.
    destruct (itoa_decimal 0) as (s & Hs & _); [unfold INT_MAX; lia|].
    destruct SpMVInd; eexists; reflexivity.
Qed.

(** C7.  When the stored [bytesPerInd] differs from [sizeof(SpMVInd)],
    [load] throws the index-width mismatch, a [TypeMismatchError], and
    returns no matrix, whatever [genNZData] is.  When the stored
    [bytesPerVal] differs from [sizeof(SpMVVal)], [load] fails with a
    [TypeMismatchError] exactly when [genNZData] is false or the index
    width does not match either: [genNZData] waives the check of the
    value width and only that one. *)
Theorem load_type_mismatch (st : store SpMVVal) (name : string)
    (md : SparseMatrixMetadata) (bpi : Z) :
  file_meta (st name) = Some md ->
  bytesPerInd md = Some bpi ->
  (bpi <> sizeofInd SpMVInd ->
   forall genNZData,
     load SpMVInd SpMVVal st name genNZData
     = Throw "bytesPerInd mismatch in CSR::load" /\
     fails_with TypeMismatchError (load SpMVInd SpMVVal st name genNZData)) /\
  (forall bpv genNZData,
     bytesPerVal md = Some bpv -> bpv <> sizeofVal ->
     (fails_with TypeMismatchError (load SpMVInd SpMVVal st name genNZData)
      <-> genNZData = false \/ bpi <> sizeofInd SpMVInd)).
Proof.
  intros Hmd Hbpi.
  assert (Hind : bpi <> sizeofInd SpMVInd -> forall gen,
            load SpMVInd SpMVVal st name gen
            = Throw "bytesPerInd mismatch in CSR::load" /\
            fails_with TypeMismatchError (load SpMVInd SpMVVal st name gen)).
  { intros Hne gen.
    rewrite (load_bytesPerInd_mismatch SpMVInd SpMVVal st name gen md bpi)
      by assumption.
    split; [reflexivity|]. eexists. split; reflexivity. }
  split; [exact Hind|].
  intros bpv gen Hbpv Hne. split.
  - intros (what & Hthrow & Hkind).
    destruct (Z.eq_dec bpi (sizeofInd SpMVInd)) as [->|Hi]; [|now right].
    destruct gen; [|now left]. exfalso.
    rewrite (load_widths_pass SpMVInd SpMVVal st name true md bpv) in Hthrow
      by (try assumption; now right).
    destruct (file_indptr (st name)) as [ip|];
      [|injection Hthrow as <-; discriminate].
    destruct (file_inds (st name)) as [ix|];
      [|injection Hthrow as <-; discriminate].
    destruct (nz md); discriminate.
  - intros [-> |Hi].
    + destruct (Z.eq_dec bpi (sizeofInd SpMVInd)) as [->|Hi].
      * rewrite (load_bytesPerVal_mismatch SpMVInd SpMVVal st name md bpv)
          by assumption.
        eexists. split; reflexivity.
      * now apply Hind.
    + now apply Hind.
Qed.

(** C8.  Without the ["meta"] component [load] dereferences the null
    pointer it got: it does not throw.  With the metadata present and
    both width checks passed, a missing ["indptr"], a missing ["inds"]
    and, unless [genNZData], a missing ["nzdata"] make [load] throw
    "could not load ...", a [FormatError], and return no matrix. *)
Theorem load_missing_component (st : store SpMVVal) (name : string)
    (genNZData : bool) :
  (file_meta (st name) = None ->
   load SpMVInd SpMVVal st name genNZData = Undefined) /\
  (forall md bpv,
     file_meta (st name) = Some md ->
     bytesPerInd md = Some (sizeofInd SpMVInd) ->
     bytesPerVal md = Some bpv ->
     bpv = sizeofVal \/ genNZData = true ->
     (file_indptr (st name) = None ->
      load SpMVInd SpMVVal st name genNZData
      = Throw "could not load indptr in CSR::load") /\
     (forall ip, file_indptr (st name) = Some ip ->
                 file_inds (st name) = None ->
      load SpMVInd SpMVVal st name genNZData
      = Throw "could not load inds in CSR::load") /\
     (forall ip ix, file_indptr (st name) = Some ip ->
                    file_inds (st name) = Some ix ->
                    genNZData = false ->
                    file_nzdata (st name) = None ->
      load SpMVInd SpMVVal st name genNZData
      = Throw "could not load nzdata in CSR::load")).
Proof.
  split; [apply load_no_meta|].
  intros md bpv Hmd Hbpi Hbpv Hpass.
  rewrite (load_widths_pass SpMVInd SpMVVal st name genNZData md bpv)
    by assumption.
  split; [|split].
  - now intros ->.
  - now intros ip -> ->.
  - now intros ip ix -> -> -> ->.
Qed.

(** C9, for matrices whose index pointers start at zero.  The invariants
    hold for the matrix [eye(dim)] returns, for the matrix [dense(dim)]
    returns when [dim * dim] is in the range of [unsigned int], for the
    matrix [load] returns from a store that satisfies them, and for every
    child [rowPartitionedView] returns for valid boundaries on a matrix
    that satisfies them and whose index pointers start at zero, as those
    of [eye] and [dense] do: the sequences have [rows + 1], [nz] and [nz]
    entries, the index pointers are non-negative, non-decreasing and at
    most [indPtrs[rows]], the column indices are below [cols], and
    [nz = indPtrs[rows] - indPtrs[0]]. *)
Theorem invariants_established :
  (forall dim m, 0 <= dim < UINT_RANGE ->
     eye SpMVVal dim = Ok m -> invariants m /\ zero_based m) /\
  (forall dim m, 0 <= dim -> dim * dim < UINT_RANGE ->
     dense SpMVInd SpMVVal dim = Ok m -> invariants m /\ zero_based m) /\
  (forall st name genNZData m,
     store_invariants SpMVInd SpMVVal (st name) genNZData ->
     load SpMVInd SpMVVal st name genNZData = Ok m -> invariants m) /\
  (forall this r b children c,
     invariants this -> zero_based this ->
     getRows SpMVVal this = Ok r ->
     valid_boundaries r b = true ->
     rowPartitionedView SpMVInd SpMVVal this b = Ok children ->
     c ∈ children ->
     invariants c).
Proof.
  split; [|split; [|split]].
  - intros dim m Hd Hm. split; [now apply (eye_invariants SpMVVal dim)|].
    destruct (Z.eq_dec (dim + 1) UINT_RANGE) as [E|E].
    { rewrite eye_overflow in Hm; [discriminate| |].
      - unfold UINT_RANGE in *. lia.
      - rewrite E. reflexivity. }
    rewrite eye_Ok in Hm by lia. injection Hm as <-.
    unfold zero_based. cbn [m_indPtrs].
    apply ptr_get_loaded; [lia|]. apply lookup_seqZ_0. lia.
  - intros dim m Hd Hsq Hm.
    split; [now apply (dense_invariants SpMVInd SpMVVal dim)|].
    rewrite dense_Ok in Hm by (unfold UINT_RANGE in *; nia).
    injection Hm as <-. unfold zero_based. cbn [m_indPtrs].
    apply ptr_get_loaded; [lia|].
    rewrite (lookup_fmap_seqZ_snoc (fun i => ind SpMVInd (i * dim))) by lia.
    f_equal. case_ltb; [reflexivity|].
    replace dim with 0 by lia. reflexivity.
  - intros st name gen m. apply load_invariants.
  - intros this r b children c. apply child_invariants.
Qed.

(** C10.  [eye] and [dense] assign [rows], [cols], [nz], [startingRow]
    and [startingCol] of the metadata they allocate and leave
    [bytesPerInd] and [bytesPerVal] as allocated, without a value; each
    child of [rowPartitionedView] gets the [bytesPerInd] and
    [bytesPerVal] of its parent, with or without a value, so the children
    of a matrix built by [eye] or [dense] have none either. *)
Theorem metadata_frame :
  (forall dim m, eye SpMVVal dim = Ok m ->
     exists md, m_metadata m = Some md /\
       rows md = Some dim /\ cols md = Some dim /\ nz md = Some dim /\
       startingRow md = Some 0 /\ startingCol md = Some 0 /\
       bytesPerInd md = None /\ bytesPerVal md = None) /\
  (forall dim m, dense SpMVInd SpMVVal dim = Ok m ->
     exists md, m_metadata m = Some md /\
       rows md = Some dim /\ cols md = Some dim /\
       nz md = Some (uint (dim * dim)) /\
       startingRow md = Some 0 /\ startingCol md = Some 0 /\
       bytesPerInd md = None /\ bytesPerVal md = None) /\
  (forall this parent b children c,
     m_metadata this = Some parent ->
     rowPartitionedView SpMVInd SpMVVal this b = Ok children ->
     c ∈ children ->
     exists md, m_metadata c = Some md /\
       bytesPerInd md = bytesPerInd parent /\
       bytesPerVal md = bytesPerVal parent) /\
  (forall dim m b children c,
     eye SpMVVal dim = Ok m \/ dense SpMVInd SpMVVal dim = Ok m ->
     rowPartitionedView SpMVInd SpMVVal m b = Ok children ->
     c ∈ children ->
     exists md, m_metadata c = Some md /\
       bytesPerInd md = None /\ bytesPerVal md = None).
Proof.
  assert (Heye : forall dim m, eye SpMVVal dim = Ok m ->
     exists md, m_metadata m = Some md /\
       rows md = Some dim /\ cols md = Some dim /\ nz md = Some dim /\
       startingRow md = Some 0 /\ startingCol md = Some 0 /\
       bytesPerInd md = None /\ bytesPerVal md = None).
  { intros dim m Hm. unfold eye in Hm.
    apply bind_Ok_inv in Hm as ([[a b] c] & _ & Hm).
    apply bind_Ok_inv in Hm as (a' & _ & Hm). injection Hm as <-.
    eexists. split; [reflexivity|]. repeat split. }
  assert (Hdense : forall dim m, dense SpMVInd SpMVVal dim = Ok m ->
     exists md, m_metadata m = Some md /\
       rows md = Some dim /\ cols md = Some dim /\
       nz md = Some (uint (dim * dim)) /\
       startingRow md = Some 0 /\ startingCol md = Some 0 /\
       bytesPerInd md = None /\ bytesPerVal md = None).
  { intros dim m Hm. unfold dense in Hm.
    apply bind_Ok_inv in Hm as (a & _ & Hm).
    apply bind_Ok_inv in Hm as (a' & _ & Hm).
    apply bind_Ok_inv in Hm as ([b c] & _ & Hm). injection Hm as <-.
    eexists. split; [reflexivity|]. repeat split. }
  assert (Hchild : forall this parent b children c,
     m_metadata this = Some parent ->
     rowPartitionedView SpMVInd SpMVVal this b = Ok children ->
     c ∈ children ->
     exists md, m_metadata c = Some md /\
       bytesPerInd md = bytesPerInd parent /\
       bytesPerVal md = bytesPerVal parent).
  { intros this parent b children c Hp Hrun Hc.
    unfold rowPartitionedView in Hrun.
    apply for_upto_collect_inv in Hrun as (_ & Hnth).
    apply list_elem_of_lookup in Hc as (k & Hk).
    apply Hnth, nth_child_spec in Hk.
    destruct Hk as (parent' & lo & hi & pLo & pHi & s & Hp' & _ & _ & _ &
                    _ & _ & _ & _ & _ & _ & _ & Hcmd).
    assert (parent' = parent) by congruence. subst parent'.
    eexists. split; [exact Hcmd|]. split; reflexivity. }
  split; [exact Heye|]. split; [exact Hdense|]. split; [exact Hchild|].
  intros dim m b children c Hm Hrun Hc.
  assert (Hmd : exists md, m_metadata m = Some md /\
            bytesPerInd md = None /\ bytesPerVal md = None).
  { destruct Hm as [Hm|Hm].
    - destruct (Heye dim m Hm) as (md & ? & _ & _ & _ & _ & _ & ? & ?). eauto.
    - destruct (Hdense dim m Hm) as (md & ? & _ & _ & _ & _ & _ & ? & ?). eauto. }
  destruct Hmd as (parent & Hp & Hi & Hv).
  destruct (Hchild m parent b children c Hp Hrun Hc) as (md & Hcmd & Hci & Hcv).
  exists md. split; [exact Hcmd|]. split; congruence.
Qed.

End Claims.

(** ** The claims on sample inputs *)

Ltac by_decision :=
  match goal with
  | |- ?P => apply (bool_decide_unpack P); vm_compute; exact I
  end.

(** C1 on [dense(3)] and three partitions. *)
Lemma calcRowPartitionBoundaries_formula_witness :
  getRows uint64 dense3 = Ok 3 /\ 0 <= 3 /\ 1 <= 3 /\
  3 + 3 < UINT_RANGE /\
  exists b,
    calcRowPartitionBoundaries UInt32 uint64 dense3 3 = Ok b /\
    Z.of_nat (length b) = 3 + 1 /\
    b !! Z.to_nat 0 = Some ((3 + 3) / 3 * 0) /\
    b !! Z.to_nat 1 = Some ((3 + 3) / 3 * 1) /\
    b !! Z.to_nat 2 = Some ((3 + 3) / 3 * 2) /\
    b !! Z.to_nat 3 = Some 3.
Proof.
  assert (H1 : getRows uint64 dense3 = Ok 3) by reflexivity.
  assert (H2 : 0 <= 3) by lia.
  assert (H3 : 1 <= 3) by lia.
  assert (H4 : 3 + 3 < UINT_RANGE) by reflexivity.
  repeat (split; [assumption|]).
  destruct (proj1 (calcRowPartitionBoundaries_formula UInt32 uint64) dense3 3 3
              H1 H2 H3 H4) as (b & Hb & Hlen & Hexact & Hlast).
  exists b. split; [exact Hb|]. split; [exact Hlen|].
  split; [apply Hexact; lia|]. split; [apply Hexact; lia|].
  split; [apply Hexact; lia|]. exact Hlast.
Defined.

(** The number of rows of the matrix [eye] returns. *)
Lemma getRows_eye {SpMVVal : Type} `{!ValueType SpMVVal} (dim : Z)
    (m : CSR SpMVVal) :
  eye SpMVVal dim = Ok m -> getRows SpMVVal m = Ok dim.
Proof.
  intros Hm. unfold eye in Hm.
  apply bind_Ok_inv in Hm as ([[a b] c] & _ & Hm).
  apply bind_Ok_inv in Hm as (a' & _ & Hm). injection Hm as <-.
  reflexivity.
Qed.

(** C1 does not hold on the matrix [eye(4294967294)] returns and two
    partitions: the sum [rows + numPartitions] wraps around to zero, the
    chunk size is zero, and the boundaries are [0, 0, 4294967294] where
    the formula gives 2147483648 for the second one. *)
Lemma chunk_size_wraps_around :
  exists m,
    eye uint64 4294967294 = Ok m /\
    invariants m /\
    getRows uint64 m = Ok 4294967294 /\
    calcRowPartitionBoundaries UInt32 uint64 m 2 = Ok [0; 0; 4294967294] /\
    (4294967294 + 2) / 2 * 1 = 2147483648 /\
    ~ (exists b,
         calcRowPartitionBoundaries UInt32 uint64 m 2 = Ok b /\
         forall i, 0 <= i < 2 ->
           b !! Z.to_nat i = Some ((4294967294 + 2) / 2 * i)).
Proof.
  assert (HU : UINT_RANGE = 4294967296) by reflexivity.
  assert (Hex : exists m, eye uint64 4294967294 = Ok m)
    by (eexists; apply eye_Ok; lia).
  destruct Hex as (m & Heye).
  exists m. split; [exact Heye|].
  split; [apply (eye_invariants uint64 4294967294); [lia|exact Heye]|].
  pose proof (getRows_eye 4294967294 m Heye) as Hrows.
  assert (Hcalc := calcRowPartitionBoundaries_Ok UInt32 uint64 m 4294967294 2
            Hrows ltac:(unfold is_uint; lia) ltac:(lia)).
  change (((fun i => uint (uint (4294967294 + 2) / 2 * i)) <$> seqZ 0 2)
          ++ [4294967294]) with [0; 0; 4294967294] in Hcalc.
  split; [exact Hrows|]. split; [exact Hcalc|]. split; [reflexivity|].
  intros (b & Hb & Hformula). rewrite Hcalc in Hb. injection Hb as <-.
  specialize (Hformula 1 ltac:(lia)). discriminate Hformula.
Qed.

(** C2 on the matrix without rows and two partitions: the boundaries are
    [0, 1, 0]. *)
Lemma zero_rows_boundaries_witness :
  getRows uint64 empty_matrix = Ok 0 /\ 1 <= 2 /\ 2 < UINT_RANGE /\
  calcRowPartitionBoundaries UInt32 uint64 empty_matrix 2 = Ok [0; 1; 0].
Proof.
  assert (H1 : getRows uint64 empty_matrix = Ok 0) by reflexivity.
  assert (H2 : 1 <= 2) by lia.
  assert (H3 : 2 < UINT_RANGE) by reflexivity.
  repeat (split; [assumption|]).
  exact (zero_rows_boundaries UInt32 uint64 empty_matrix 2 H1 H2 H3).
Defined.

(** C4 on [dense(3)] cut after its first row. *)
Lemma rowPartitionedView_views_witness :
  invariants dense3 /\ getRows uint64 dense3 = Ok 3 /\
  valid_boundaries 3 [0; 1; 3] = true /\
  Z.of_nat (length [0; 1; 3]) <= INT_MAX + 2 /\
  partitions_by UInt32 uint64 dense3 [0; 1; 3].
Proof.
  assert (H1 : invariants dense3) by by_decision.
  assert (H2 : getRows uint64 dense3 = Ok 3) by reflexivity.
  assert (H3 : valid_boundaries 3 [0; 1; 3] = true) by reflexivity.
  assert (H4 : Z.of_nat (length [0; 1; 3]) <= INT_MAX + 2)
    by (unfold INT_MAX; simpl; lia).
  repeat (split; [assumption|]).
  exact (rowPartitionedView_views UInt32 uint64 dense3 3 [0; 1; 3] H1 H2 H3 H4).
Defined.

(** C4 does not hold on the matrix without rows that [eye(0)] returns,
    cut by [INT_MAX + 3] boundaries that are all zero: partition
    [INT_MAX + 1] is numbered [INT_MIN] as an [int], [itoa] overflows
    negating it, and no children are returned. *)
Lemma too_many_partitions :
  eye uint64 0 = Ok empty_matrix /\
  invariants empty_matrix /\
  getRows uint64 empty_matrix = Ok 0 /\
  valid_boundaries 0 (replicate (Z.to_nat (INT_MAX + 3)) 0) = true /\
  rowPartitionedView UInt32 uint64 empty_matrix
    (replicate (Z.to_nat (INT_MAX + 3)) 0) = Undefined /\
  ~ partitions_by UInt32 uint64 empty_matrix
      (replicate (Z.to_nat (INT_MAX + 3)) 0).
Proof.
  assert (HI : INT_MAX = 2147483647) by reflexivity.
  assert (HU : UINT_RANGE = 4294967296) by reflexivity.
  assert (Hundef : rowPartitionedView UInt32 uint64 empty_matrix
            (replicate (Z.to_nat (INT_MAX + 3)) 0) = Undefined).
  { apply (rowPartitionedView_int_overflow UInt32 uint64 empty_matrix
             {| v_rows := 0; v_cols := 0; v_nz := 0; v_indPtrs := [0];
                v_inds := []; v_nzData := [] |}).
    - reflexivity.
    - by_decision.
    - reflexivity.
    - lia. }
  split; [reflexivity|]. split; [by_decision|]. split; [reflexivity|].
  split; [apply valid_boundaries_replicate; lia|].
  split; [exact Hundef|].
  intros (children & Hrun & _). rewrite Hundef in Hrun. discriminate.
Qed.

(** C5 on [eye(3)]. *)
Lemma eye_identity_witness :
  1 <= 3 /\ 3 + 1 < UINT_RANGE /\ eye_builds_identity uint64 3.
Proof.
  assert (H1 : 1 <= 3) by lia.
  assert (H2 : 3 + 1 < UINT_RANGE) by reflexivity.
  repeat (split; [assumption|]).
  exact (eye_identity uint64 3 H1 H2).
Defined.

(** C5 does not hold for [dim = UINT_MAX]: [dim + 1] wraps to zero,
    [new SpMVInd[dim + 1]] has no element and the loop writes
    [m_indPtrs[0]] outside it. *)
Lemma eye_UINT_MAX :
  1 <= 4294967295 /\ 4294967295 < UINT_RANGE /\
  eye uint64 4294967295 = Undefined /\
  ~ eye_builds_identity uint64 4294967295.
Proof.
  assert (Hundef : eye uint64 4294967295 = Undefined).
  { apply eye_overflow; [lia|reflexivity]. }
  split; [lia|]. split; [reflexivity|]. split; [exact Hundef|].
  intros (m & Hm & _). rewrite Hundef in Hm. discriminate.
Qed.

(** C6 on [dense(3)]. *)
Lemma dense_full_witness :
  1 <= 3 /\ 3 * 3 < UINT_RANGE /\ dense_builds_full UInt32 uint64 3.
Proof.
  assert (H1 : 1 <= 3) by lia.
  assert (H2 : 3 * 3 < UINT_RANGE) by reflexivity.
  repeat (split; [assumption|]).
  exact (proj1 (dense_full UInt32 uint64) 3 H1 H2).
Defined.

(** C6 does not hold for [dim = 65536]: [dim * dim] wraps to zero, so
    [nz] is zero and [inds] and [nzData] have no element, while the index
    pointers say that row 0 spans the offsets [0 .. 65535]. *)
Lemma dense_65536 :
  1 <= 65536 /\
  (exists m, dense UInt32 uint64 65536 = Ok m /\
             getNNZ uint64 m = Ok 0 /\
             m_inds m = loaded [] /\
             m_nzData m = loaded [] /\
             ptr_get (m_indPtrs m) 0 = Ok 0 /\
             ptr_get (m_indPtrs m) 1 = Ok 65536 /\
             row_entries uint64 m 0 = Undefined) /\
  ~ dense_builds_full UInt32 uint64 65536.
Proof.
  assert (Hmax : 65536 + 1 < UINT_RANGE) by reflexivity.
  assert (Hwrap : uint (65536 * 65536) = 0) by reflexivity.
  destruct (dense_overflow UInt32 uint64 65536 ltac:(lia) Hmax Hwrap)
    as (m & Hm & _ & Hnnz & Hix & Hvs & H0 & H1 & _ & Hrow).
  split; [lia|]. split.
  - exists m. repeat (split; [assumption|]). exact Hrow.
  - intros (m' & Hm' & _ & _ & Hnnz' & _).
    rewrite Hm in Hm'. injection Hm' as <-.
    rewrite Hnnz in Hnnz'. injection Hnnz' as Hnnz'. lia.
Qed.

(** C7 on the sample store read with 8-byte indices, and on the store
    that declares 4-byte values read with 4-byte indices and 8-byte
    values. *)
Lemma load_type_mismatch_witness :
  (file_meta (sample_store "m"%string) = Some sample_meta /\
   bytesPerInd sample_meta = Some 4 /\ 4 <> sizeofInd UInt64 /\
   load UInt64 uint64 sample_store "m"%string false
   = Throw "bytesPerInd mismatch in CSR::load" /\
   load UInt64 uint64 sample_store "m"%string true
   = Throw "bytesPerInd mismatch in CSR::load") /\
  (file_meta (narrow_store "m"%string) = Some narrow_meta /\
   bytesPerInd narrow_meta = Some 4 /\
   bytesPerVal narrow_meta = Some 4 /\ 4 <> sizeofVal /\
   fails_with TypeMismatchError (load UInt32 uint64 narrow_store "m"%string false) /\
   ~ fails_with TypeMismatchError (load UInt32 uint64 narrow_store "m"%string true)).
Proof.
  assert (H1 : file_meta (sample_store "m"%string) = Some sample_meta)
    by reflexivity.
  assert (H2 : bytesPerInd sample_meta = Some 4) by reflexivity.
  assert (H3 : 4 <> sizeofInd UInt64) by discriminate.
  assert (N1 : file_meta (narrow_store "m"%string) = Some narrow_meta)
    by reflexivity.
  assert (N2 : bytesPerInd narrow_meta = Some 4) by reflexivity.
  assert (N3 : bytesPerVal narrow_meta = Some 4) by reflexivity.
  assert (N4 : 4 <> @sizeofVal uint64 _) by discriminate.
  split.
  - repeat (split; [assumption|]).
    destruct (load_type_mismatch UInt64 uint64 sample_store "m"%string
                sample_meta 4 H1 H2) as (Hind & _).
    split; [exact (proj1 (Hind H3 false))|exact (proj1 (Hind H3 true))].
  - repeat (split; [assumption|]).
    destruct (load_type_mismatch UInt32 uint64 narrow_store "m"%string
                narrow_meta 4 N1 N2) as (_ & Hval).
    split.
    + apply (Hval 4 false N3 N4). left. reflexivity.
    + intros Hf. apply (Hval 4 true N3 N4) in Hf.
      destruct Hf as [Hf|Hf]; [discriminate Hf|apply Hf; reflexivity].
Defined.

(** C8 on the store without components and on the store with the
    metadata only. *)
Lemma load_missing_component_witness :
  file_meta (empty_store "m"%string) = None /\
  load UInt32 uint64 empty_store "m"%string false = Undefined /\
  file_meta (meta_only_store "m"%string) = Some sample_meta /\
  bytesPerInd sample_meta = Some (sizeofInd UInt32) /\
  bytesPerVal sample_meta = Some 8 /\
  (8 = sizeofVal \/ false = true) /\
  file_indptr (meta_only_store "m"%string) = None /\
  load UInt32 uint64 meta_only_store "m"%string false
  = Throw "could not load indptr in CSR::load".
Proof.
  assert (H1 : file_meta (empty_store "m"%string) = None) by reflexivity.
  assert (H2 : file_meta (meta_only_store "m"%string) = Some sample_meta) by reflexivity.
  assert (H3 : bytesPerInd sample_meta = Some (sizeofInd UInt32)) by reflexivity.
  assert (H4 : bytesPerVal sample_meta = Some 8) by reflexivity.
  assert (H5 : 8 = sizeofVal \/ false = true) by (left; reflexivity).
  assert (H6 : file_indptr (meta_only_store "m"%string) = None) by reflexivity.
  split; [assumption|].
  split; [exact (proj1 (load_missing_component UInt32 uint64 empty_store "m"%string false) H1)|].
  repeat (split; [assumption|]).
  exact (proj1 (proj2 (load_missing_component UInt32 uint64 meta_only_store "m"%string false)
                  sample_meta 8 H2 H3 H4 H5) H6).
Defined.

(** C9 on [eye(3)], on [dense(3)], on the sample store and on the second
    child of [dense(3)] cut after its first row. *)
Lemma invariants_established_witness :
  (0 <= 3 < UINT_RANGE /\ eye uint64 3 = Ok eye3 /\
   invariants eye3 /\ zero_based eye3) /\
  (0 <= 3 /\ 3 * 3 < UINT_RANGE /\ dense UInt32 uint64 3 = Ok dense3 /\
   invariants dense3 /\ zero_based dense3) /\
  (store_invariants UInt32 uint64 (sample_store "m"%string) false /\
   exists m, load UInt32 uint64 sample_store "m"%string false = Ok m /\ invariants m) /\
  (getRows uint64 dense3 = Ok 3 /\ valid_boundaries 3 [0; 1; 3] = true /\
   exists c0 c, rowPartitionedView UInt32 uint64 dense3 [0; 1; 3] = Ok [c0; c] /\
                c ∈ [c0; c] /\ invariants c).
Proof.
  destruct (invariants_established UInt32 uint64) as (Heye & Hdense & Hload & Hchild).
  assert (E1 : 0 <= 3 < UINT_RANGE) by (unfold UINT_RANGE; lia).
  assert (E2 : eye uint64 3 = Ok eye3) by reflexivity.
  assert (D1 : 0 <= 3) by lia.
  assert (D2 : 3 * 3 < UINT_RANGE) by reflexivity.
  assert (D3 : dense UInt32 uint64 3 = Ok dense3) by reflexivity.
  assert (L1 : store_invariants UInt32 uint64 (sample_store "m"%string) false)
    by by_decision.
  assert (C1 : getRows uint64 dense3 = Ok 3) by reflexivity.
  assert (C2 : valid_boundaries 3 [0; 1; 3] = true) by reflexivity.
  split; [|split; [|split]].
  - repeat (split; [assumption|]). exact (Heye 3 eye3 E1 E2).
  - repeat (split; [assumption|]). exact (Hdense 3 dense3 D1 D2 D3).
  - split; [assumption|]. eexists. split; [reflexivity|].
    exact (Hload sample_store "m"%string false _ L1 eq_refl).
  - repeat (split; [assumption|]). eexists _, _.
    split; [reflexivity|]. split; [apply list_elem_of_further, list_elem_of_here|].
    exact (Hchild dense3 3 [0; 1; 3] _ _
             (proj1 (Hdense 3 dense3 D1 D2 D3)) (proj2 (Hdense 3 dense3 D1 D2 D3))
             C1 C2 eq_refl
             (list_elem_of_further _ _ _ (list_elem_of_here _ _))).
Defined.

(** C9 does not hold for a view of a view, nor for [dense(65536)].  The
    second child of [dense(2)] cut into its two rows satisfies the
    invariants; it keeps the index pointers [2, 4] of the parent and its
    [inds] start at offset 2 of the parent's.  Its own child for the
    boundaries [0, 1] starts its [inds] another 2 elements further, at the
    end of the array: none of the two column indices it claims can be
    read.  [dense(65536)] returns a matrix whose second index pointer,
    65536, exceeds the last one, zero. *)
Lemma invariants_not_preserved :
  (exists d c0 c g,
     dense UInt32 uint64 2 = Ok d /\
     invariants d /\
     valid_boundaries 2 [0; 1; 2] = true /\
     rowPartitionedView UInt32 uint64 d [0; 1; 2] = Ok [c0; c] /\
     invariants c /\
     getRows uint64 c = Ok 1 /\
     valid_boundaries 1 [0; 1] = true /\
     rowPartitionedView UInt32 uint64 c [0; 1] = Ok [g] /\
     getNNZ uint64 g = Ok 2 /\
     ptr_get (m_inds g) 0 = Undefined /\
     ~ invariants g) /\
  (exists m,
     dense UInt32 uint64 65536 = Ok m /\
     ptr_get (m_indPtrs m) 1 = Ok 65536 /\
     ptr_get (m_indPtrs m) 65536 = Ok 0 /\
     ~ invariants m).
Proof.
  split.
  - eexists _, _, _, _.
    split; [reflexivity|]. split; [by_decision|]. split; [reflexivity|].
    split; [reflexivity|]. split; [by_decision|]. split; [reflexivity|].
    split; [reflexivity|]. split; [reflexivity|]. split; [reflexivity|].
    split; [reflexivity|].
    match goal with
    | |- ~ ?P => apply (proj1 (bool_decide_eq_false P)); vm_compute; reflexivity
    end.
  - assert (Hmax : 65536 + 1 < UINT_RANGE) by reflexivity.
    assert (Hwrap : uint (65536 * 65536) = 0) by reflexivity.
    destruct (dense_overflow UInt32 uint64 65536 ltac:(lia) Hmax Hwrap)
      as (m & Hm & _ & _ & _ & _ & _ & H1 & Hlast & _).
    exists m. split; [exact Hm|]. split; [exact H1|]. split; [exact Hlast|].
    exact (dense_overflow_invariants UInt32 uint64 65536 m ltac:(lia) Hmax Hwrap Hm).
Qed.

(** C10 on [eye(3)], on [dense(3)] and on the children of [eye(3)] cut
    after its first row. *)
Lemma metadata_frame_witness :
  (eye uint64 3 = Ok eye3 /\
   exists md, m_metadata eye3 = Some md /\
     rows md = Some 3 /\ cols md = Some 3 /\ nz md = Some 3 /\
     startingRow md = Some 0 /\ startingCol md = Some 0 /\
     bytesPerInd md = None /\ bytesPerVal md = None) /\
  (dense UInt32 uint64 3 = Ok dense3 /\
   exists md, m_metadata dense3 = Some md /\
     rows md = Some 3 /\ cols md = Some 3 /\ nz md = Some (uint (3 * 3)) /\
     startingRow md = Some 0 /\ startingCol md = Some 0 /\
     bytesPerInd md = None /\ bytesPerVal md = None) /\
  (exists parent c0 c,
     m_metadata eye3 = Some parent /\
     rowPartitionedView UInt32 uint64 eye3 [0; 1; 3] = Ok [c0; c] /\
     c ∈ [c0; c] /\
     exists md, m_metadata c = Some md /\
       bytesPerInd md = bytesPerInd parent /\
       bytesPerVal md = bytesPerVal parent) /\
  (exists c0 c,
     (eye uint64 3 = Ok eye3 \/ dense UInt32 uint64 3 = Ok eye3) /\
     rowPartitionedView UInt32 uint64 eye3 [0; 1; 3] = Ok [c0; c] /\
     c ∈ [c0; c] /\
     exists md, m_metadata c = Some md /\
       bytesPerInd md = None /\ bytesPerVal md = None).
Proof.
  destruct (metadata_frame UInt32 uint64) as (Heye & Hdense & Hchild & Hnone).
  assert (E : eye uint64 3 = Ok eye3) by reflexivity.
  assert (D : dense UInt32 uint64 3 = Ok dense3) by reflexivity.
  split; [|split; [|split]].
  - split; [assumption|]. exact (Heye 3 eye3 E).
  - split; [assumption|]. exact (Hdense 3 dense3 D).
  - eexists _, _, _. split; [reflexivity|]. split; [reflexivity|].
    split; [apply list_elem_of_further, list_elem_of_here|].
    exact (Hchild eye3 _ [0; 1; 3] _ _ eq_refl eq_refl
             (list_elem_of_further _ _ _ (list_elem_of_here _ _))).
  - eexists _, _. split; [left; exact E|]. split; [reflexivity|].
    split; [apply list_elem_of_further, list_elem_of_here|].
    exact (Hnone 3 eye3 [0; 1; 3] _ _ (or_introl E) eq_refl
             (list_elem_of_further _ _ _ (list_elem_of_here _ _))).
Defined.

(** * Further properties of the class *)

(** ** reverse and itoa on every input *)

(** X1.  [reverse] returns the characters of a string whose last index
    fits its [int] index [j], that is a string of at most [INT_MAX + 1]
    characters, in the opposite order, the empty string included, and
    reversing twice gives the string back. *)
Theorem reverse_twice (s : list ascii) :
  Z.of_nat (length s) <= INT_MAX + 1 ->
  reverse s = Ok (rev s) /\ (s' ← reverse s; reverse s') = Ok s.
Proof.
  intros Hlen. split; [now apply reverse_rev|].
  rewrite reverse_rev, bind_Ok, reverse_rev, rev_involutive;
    [reflexivity|now rewrite length_rev|assumption].
Qed.

Lemma string_of_list_ascii_length (l : list ascii) :
  String.length (string_of_list_ascii l) = length l.
Proof. induction l as [|c l IH]; simpl; [reflexivity|]. now rewrite IH. Qed.

(** X2.  Whatever [itoa] writes has at least one and at most eleven
    characters: with its terminating zero it fits the 256 bytes of
    [partName]. *)
Theorem itoa_length (n : Z) (s : string) :
  itoa n = Ok s -> (1 <= String.length s <= 11)%nat.
Proof.
  unfold itoa. intros H.
  apply bind_Ok_inv in H as (m & _ & H).
  apply bind_Ok_inv in H as (d & Hd & H).
  rewrite (itoa_reverse 10 m d (n <? 0)), bind_Ok in H by (lia || exact Hd).
  injection H as <-.
  apply itoa_loop_length in Hd. simpl in Hd.
  rewrite string_of_list_ascii_length, length_rev.
  destruct (n <? 0); [rewrite length_app; simpl|]; lia.
Qed.

Lemma itoa_loop_decimal (n : Z) :
  0 <= n <= INT_MAX ->
  exists d, itoa_loop 10 n [] = Ok d /\
            decimal n (string_of_list_ascii (rev d)).
Proof.
  intros Hn.
  destruct (itoa_loop_digits 10 n []) as (d & Hrun & Hne & Hdig & Hval & Hlast).
  { lia. }
  { unfold INT_MAX in Hn. simpl. lia. }
  exists d. split; [exact Hrun|].
  unfold decimal. rewrite list_ascii_of_string_of_list_ascii.
  split; [|split; [|split]].
  - intros E. apply Hne. apply (f_equal (@rev ascii)) in E.
    now rewrite rev_involutive in E.
  - apply Forall_forall. intros c Hin. rewrite Forall_forall in Hdig. apply Hdig.
    apply list_elem_of_In, in_rev. now apply list_elem_of_In.
  - rewrite head_rev. intros Hl. now rewrite (Hlast Hl).
  - exact Hval.
Qed.

Lemma itoa_signed (n : Z) :
  - INT_MAX <= n <= INT_MAX -> exists s, itoa n = Ok s /\ signed_decimal n s.
Proof.
  intros Hn. unfold itoa, signed_decimal.
  assert (HI : INT_MAX = 2147483647) by reflexivity.
  destruct (Z.ltb_spec n 0).
  - destruct (Z.eqb_spec n (- INT_MAX - 1)); [lia|]. rewrite bind_Ok.
    destruct (itoa_loop_decimal (- n)) as (d & Hrun & Hdec); [lia|].
    rewrite Hrun, bind_Ok.
    rewrite (itoa_reverse 10 (- n) d true), bind_Ok, rev_app_distr
      by (lia || exact Hrun).
    eexists. split; [reflexivity|]. eexists. split; [reflexivity|exact Hdec].
  - rewrite bind_Ok.
    destruct (itoa_loop_decimal n) as (d & Hrun & Hdec); [lia|].
    rewrite Hrun, bind_Ok.
    rewrite (itoa_reverse 10 n d false), bind_Ok by (lia || exact Hrun).
    eexists. split; [reflexivity|exact Hdec].
Qed.

Lemma minus_is_no_digit (c : ascii) : is_digit c -> Ascii.eqb c "-" = false.
Proof.
  intros H. destruct (Ascii.eqb_spec c "-"%char) as [->|]; [|reflexivity].
  unfold is_digit, digit_value in H.
  change (nat_of_ascii "-") with 45%nat in H. lia.
Qed.

Lemma signed_decimal_value (n : Z) (s : string) :
  signed_decimal n s -> signed_value s = n.
Proof.
  unfold signed_decimal. destruct (Z.ltb_spec n 0).
  - intros (d & -> & _ & _ & _ & Hval). cbn. rewrite Hval. lia.
  - intros (Hne & Hdig & _ & Hval).
    destruct s as [|c d]; [now contradiction Hne|].
    cbn [signed_value]. rewrite minus_is_no_digit; [exact Hval|].
    cbn in Hdig. now inversion Hdig.
Qed.

Lemma itoa_value (n : Z) (s : string) :
  - INT_MAX - 1 <= n <= INT_MAX -> itoa n = Ok s -> signed_value s = n.
Proof.
  intros Hn Hs.
  destruct (Z.eq_dec n (- INT_MAX - 1)) as [->|Hne].
  { rewrite itoa_INT_MIN in Hs. discriminate. }
  destruct (itoa_signed n) as (s' & Hs' & Hdec); [lia|].
  assert (s' = s) by congruence. subst s'.
  now apply signed_decimal_value.
Qed.

(** X3.  On every [int] but the least one, [itoa] writes the decimal
    representation of the number, after a minus sign that of its opposite
    when it is negative, and the string read back is the number.  On the
    least [int] the negation overflows. *)
Theorem itoa_int (n : Z) :
  - INT_MAX - 1 <= n <= INT_MAX ->
  (n = - INT_MAX - 1 -> itoa n = Undefined) /\
  (n <> - INT_MAX - 1 ->
   exists s, itoa n = Ok s /\ signed_decimal n s /\ signed_value s = n).
Proof.
  intros Hn. split.
  - intros ->. reflexivity.
  - intros Hne. destruct (itoa_signed n) as (s & Hs & Hdec); [lia|].
    exists s. split; [exact Hs|]. split; [exact Hdec|].
    now apply signed_decimal_value.
Qed.

(** ** The children, one by one *)

Lemma append_inj_l (s a b : string) :
  (s ++ a)%string = (s ++ b)%string -> a = b.
Proof.
  induction s as [|c s IH]; simpl; intros H; [exact H|].
  injection H as H. now apply IH.
Qed.

Lemma to_int_range (z : Z) :
  0 <= z < UINT_RANGE -> - INT_MAX - 1 <= to_int z <= INT_MAX.
Proof.
  intros H. unfold to_int, INT_MAX, UINT_RANGE in *.
  destruct (Z.leb_spec z (2 ^ 31 - 1)); lia.
Qed.

Lemma to_int_inj (x y : Z) :
  0 <= x < UINT_RANGE -> 0 <= y < UINT_RANGE -> to_int x = to_int y -> x = y.
Proof.
  intros Hx Hy. unfold to_int, INT_MAX, UINT_RANGE in *.
  destruct (Z.leb_spec x (2 ^ 31 - 1)), (Z.leb_spec y (2 ^ 31 - 1)); lia.
Qed.

Lemma for_upto_first_undefined {St : Type} (bound : Z)
    (body : Z -> St -> outcome St) (s : St) :
  0 < bound -> body 0 s = Undefined -> for_upto bound body s = Undefined.
Proof.
  intros Hb H0. unfold for_upto.
  destruct (Z.to_nat bound) as [|n] eqn:E; [lia|].
  cbn [for_loop]. now rewrite H0.
Qed.

Section Views.
Context (SpMVInd : IndType) (SpMVVal : Type) `{!ValueType SpMVVal}.

(** The child at position [i] of the result was built by round [i]. *)
Lemma rowPartitionedView_rounds (this : CSR SpMVVal) (b : list Z)
    (children : list (CSR SpMVVal)) :
  rowPartitionedView SpMVInd SpMVVal this b = Ok children ->
  forall (i : nat) (c : CSR SpMVVal),
    children !! i = Some c ->
    0 <= Z.of_nat i < UINT_RANGE /\
    child_built SpMVInd SpMVVal this b (Z.of_nat i) c.
Proof.
  unfold rowPartitionedView. intros Hrun i c Hc.
  apply for_upto_collect_inv in Hrun as (Hlen & Hnth).
  apply lookup_lt_Some in Hc as Hi.
  pose proof (uint_range (Z.of_nat (length b) - 1)).
  split; [lia|]. apply nth_child_spec. now apply Hnth.
Qed.

(** What [rowPartitionedView] has read for the child it returns at
    position [i]. *)
Lemma rowPartitionedView_child (this : CSR SpMVVal) (b : list Z)
    (children : list (CSR SpMVVal)) (i : nat) (c : CSR SpMVVal) :
  rowPartitionedView SpMVInd SpMVVal this b = Ok children ->
  children !! i = Some c ->
  exists parent lo hi pLo pHi,
    m_metadata this = Some parent /\
    b !! i = Some lo /\ b !! S i = Some hi /\
    ptr_get (m_indPtrs this) lo = Ok pLo /\
    ptr_get (m_indPtrs this) hi = Ok pHi /\
    ptr_at (m_indPtrs this) lo = Ok (m_indPtrs c) /\
    ptr_at (m_inds this) pLo = Ok (m_inds c) /\
    ptr_at (m_nzData this) pLo = Ok (m_nzData c) /\
    m_metadata c =
      Some {| rows := Some (uint (ind SpMVInd (hi - lo)));
              cols := cols parent;
              nz := Some (uint (ind SpMVInd (pHi - pLo)));
              startingRow := Some (uint lo);
              startingCol := Some 0;
              bytesPerInd := bytesPerInd parent;
              bytesPerVal := bytesPerVal parent |}.
Proof.
  intros Hrun Hc.
  pose proof Hrun as Hlen. unfold rowPartitionedView in Hlen.
  apply for_upto_collect_inv in Hlen as (Hlen & _).
  apply lookup_lt_Some in Hc as Hi.
  pose proof (uint_range (Z.of_nat (length b) - 1)) as Hu.
  destruct (rowPartitionedView_rounds this b children Hrun i c Hc)
    as (_ & (parent & lo & hi & pLo & pHi & s & Hp & Hhi & Hlo & HpHi & HpLo &
             Hp1 & Hp2 & Hp3 & _ & _ & _ & Hmd)).
  rewrite uint_small in Hhi by lia.
  apply vec_get_Ok in Hhi as [_ Hhi]. apply vec_get_Ok in Hlo as [_ Hlo].
  rewrite Nat2Z.id in Hlo.
  replace (Z.to_nat (Z.of_nat i + 1)) with (S i) in Hhi by lia.
  exists parent, lo, hi, pLo, pHi. repeat (split; [assumption|]). exact Hmd.
Qed.

(** X4.  The children of a matrix that was given a name with [setName]
    are called after it: child [i] has that name, ["-p"] and what [itoa]
    writes for [i].  No two children of a call have the same name. *)
Theorem children_names (this : CSR SpMVVal) (name : string) (b : list Z)
    (children : list (CSR SpMVVal)) :
  rowPartitionedView SpMVInd SpMVVal (setName this name) b = Ok children ->
  (forall (i : nat) (c : CSR SpMVVal),
     children !! i = Some c ->
     exists s, itoa (to_int (Z.of_nat i)) = Ok s /\
               getName c = (name ++ "-p" ++ s)%string) /\
  (forall (i j : nat) (c c' : CSR SpMVVal),
     children !! i = Some c -> children !! j = Some c' -> i <> j ->
     getName c <> getName c').
Proof.
  intros Hrun.
  assert (Hname : forall (i : nat) (c : CSR SpMVVal),
            children !! i = Some c ->
            0 <= Z.of_nat i < UINT_RANGE /\
            exists s, itoa (to_int (Z.of_nat i)) = Ok s /\
                      getName c = (name ++ "-p" ++ s)%string).
  { intros i c Hc.
    destruct (rowPartitionedView_rounds _ b children Hrun i c Hc)
      as (Hi & (_ & _ & _ & _ & _ & s & _ & _ & _ & _ & _ & _ & _ & _ &
                Hs & _ & Hn & _)).
    split; [exact Hi|]. exists s. split; [exact Hs|exact Hn]. }
  split.
  - intros i c Hc. now destruct (Hname i c Hc).
  - intros i j c c' Hc Hc' Hij E.
    destruct (Hname i c Hc) as (Hi & s & Hs & Hn).
    destruct (Hname j c' Hc') as (Hj & s' & Hs' & Hn').
    rewrite Hn, Hn' in E. apply append_inj_l, append_inj_l in E. subst s'.
    apply itoa_value in Hs; [|now apply to_int_range].
    apply itoa_value in Hs'; [|now apply to_int_range].
    apply Hij, Nat2Z.inj, to_int_inj; [assumption..|congruence].
Qed.

(** X5.  [rowPartitionedView] on no boundary at all has undefined
    behaviour: the number of partitions wraps around to [UINT_MAX] and the
    first round reads [boundaries[1]].  On a single boundary it returns
    no child, whatever the matrix. *)
Theorem rowPartitionedView_degenerate (this : CSR SpMVVal) :
  rowPartitionedView SpMVInd SpMVVal this [] = Undefined /\
  (forall x, rowPartitionedView SpMVInd SpMVVal this [x] = Ok []).
Proof.
  split; [|reflexivity].
  unfold rowPartitionedView.
  apply for_upto_first_undefined; [reflexivity|].
  unfold nth_child, metadata.
  destruct (m_metadata this) as [md|]; reflexivity.
Qed.

(** X6.  The destructor of a view returned by [rowPartitionedView]
    deallocates nothing: the arrays a view points into stay those of its
    parent. *)
Theorem views_deallocate_nothing (this : CSR SpMVVal) (b : list Z)
    (children : list (CSR SpMVVal)) (c : CSR SpMVVal) :
  rowPartitionedView SpMVInd SpMVVal this b = Ok children ->
  c ∈ children ->
  destructor c = [].
Proof.
  intros Hrun Hc. apply list_elem_of_lookup in Hc as (k & Hk).
  destruct (rowPartitionedView_rounds this b children Hrun k c Hk)
    as (_ & (parent & lo & hi & pLo & pHi & s & _ & _ & _ & _ & _ & _ & _ &
             _ & _ & Hd & _)).
  unfold destructor. now rewrite Hd.
Qed.

(** X7.  On a matrix whose metadata pointer is null, as the constructor
    leaves it, [isSquare], the accessors of the shape, [printSummary] and
    [calcRowPartitionBoundaries] dereference it.  So does
    [rowPartitionedView] exactly when the number of partitions it
    computes, [boundaries.size() - 1] as an [unsigned int], is not zero;
    when that number is zero it returns no view. *)
Theorem null_metadata_undefined (this : CSR SpMVVal) :
  m_metadata this = None ->
  isSquare SpMVVal this = Undefined /\
  getRows SpMVVal this = Undefined /\
  getCols SpMVVal this = Undefined /\
  getNNZ SpMVVal this = Undefined /\
  getStartingRow SpMVVal this = Undefined /\
  printSummary this = Undefined /\
  (forall numPartitions,
     calcRowPartitionBoundaries SpMVInd SpMVVal this numPartitions = Undefined) /\
  (forall b,
     rowPartitionedView SpMVInd SpMVVal this b
     = if uint (Z.of_nat (length b) - 1) =? 0 then Ok [] else Undefined).
Proof.
  intros Hnull.
  unfold isSquare, getRows, getCols, getNNZ, getStartingRow, printSummary,
    calcRowPartitionBoundaries, metadata.
  rewrite Hnull. repeat (split; [reflexivity|]).
  intros b. unfold rowPartitionedView.
  pose proof (uint_range (Z.of_nat (length b) - 1)) as Hu.
  destruct (Z.eqb_spec (uint (Z.of_nat (length b) - 1)) 0) as [E|E].
  - rewrite E. reflexivity.
  - apply for_upto_first_undefined; [lia|].
    unfold nth_child, metadata. now rewrite Hnull.
Qed.

(** X8.  The matrices [eye] and [dense] return are square.  A view of
    the rows [[lo, hi)] is square exactly when the parent has [hi - lo]
    columns. *)
Theorem isSquare_views :
  (forall dim m,
     eye SpMVVal dim = Ok m \/ dense SpMVInd SpMVVal dim = Ok m ->
     isSquare SpMVVal m = Ok true) /\
  (forall this b children (i : nat) c lo hi cl,
     rowPartitionedView SpMVInd SpMVVal this b = Ok children ->
     children !! i = Some c ->
     b !! i = Some lo -> b !! S i = Some hi ->
     0 <= lo -> lo <= hi -> hi < UINT_RANGE ->
     getCols SpMVVal this = Ok cl ->
     isSquare SpMVVal c = Ok (cl =? hi - lo)).
Proof.
  split.
  - intros dim m [Hm|Hm].
    + unfold eye in Hm.
      apply bind_Ok_inv in Hm as ([[a b] c] & _ & Hm).
      apply bind_Ok_inv in Hm as (a' & _ & Hm). injection Hm as <-.
      unfold isSquare, metadata. cbn. now rewrite Z.eqb_refl.
    + unfold dense in Hm.
      apply bind_Ok_inv in Hm as (a & _ & Hm).
      apply bind_Ok_inv in Hm as (a' & _ & Hm).
      apply bind_Ok_inv in Hm as ([b c] & _ & Hm). injection Hm as <-.
      unfold isSquare, metadata. cbn. now rewrite Z.eqb_refl.
  - intros this b children i c lo hi cl Hrun Hc Hlo Hhi H0 Hle Hmax Hcols.
    destruct (rowPartitionedView_child this b children i c Hrun Hc)
      as (parent & lo' & hi' & pLo & pHi & Hp & Hlo' & Hhi' & _ & _ & _ & _ &
          _ & Hmd).
    assert (lo' = lo) by congruence. assert (hi' = hi) by congruence.
    subst lo' hi'.
    unfold getCols, metadata in Hcols. rewrite Hp in Hcols. cbn in Hcols.
    apply rd_Ok_inv in Hcols.
    unfold isSquare, metadata. rewrite Hmd. cbn. rewrite Hcols. cbn.
    now rewrite ind_uint, uint_small by lia.
Qed.

End Views.

(** ** What load returns *)

Section LoadMore.
Context (SpMVInd : IndType) (SpMVVal : Type) `{!ValueType SpMVVal}.

(** What a successful [load] has read, and the matrix it returns. *)
Lemma load_Ok_inv (st : store SpMVVal) (name : string) (gen : bool)
    (m : CSR SpMVVal) :
  load SpMVInd SpMVVal st name gen = Ok m ->
  exists md bpv ip ix nzData,
    file_meta (st name) = Some md /\
    bytesPerInd md = Some (sizeofInd SpMVInd) /\
    bytesPerVal md = Some bpv /\ (bpv = sizeofVal \/ gen = true) /\
    file_indptr (st name) = Some ip /\
    file_inds (st name) = Some ix /\
    (if gen
     then exists n, nz md = Some n /\
            nzData = loaded ((fun i => castVal (ind SpMVInd (i + 1)))
                               <$> seqZ 0 (ind SpMVInd n))
     else exists vs, file_nzdata (st name) = Some vs /\ nzData = loaded vs) /\
    m = {| m_needsDealloc := true; m_metadata := Some md;
           m_indPtrs := loaded ip; m_inds := loaded ix;
           m_nzData := nzData; m_name := name |}.
Proof.
  intros Hm.
  destruct (file_meta (st name)) as [md|] eqn:Hmd;
    [|now rewrite load_no_meta in Hm].
  destruct (bytesPerInd md) as [bpi|] eqn:Hbpi;
    [|unfold load in Hm; rewrite Hmd in Hm; cbn in Hm; rewrite Hbpi in Hm;
      discriminate].
  destruct (Z.eq_dec bpi (sizeofInd SpMVInd)) as [->|Hne];
    [|now rewrite (load_bytesPerInd_mismatch _ _ _ _ _ md bpi) in Hm].
  destruct (bytesPerVal md) as [bpv|] eqn:Hbpv.
  2:{ unfold load in Hm. rewrite Hmd in Hm. cbn in Hm. rewrite Hbpi in Hm.
      cbn in Hm. rewrite Z.eqb_refl in Hm. cbn in Hm. rewrite Hbpv in Hm.
      discriminate. }
  assert (Hpass : bpv = sizeofVal \/ gen = true).
  { destruct gen; [now right|]. left.
    destruct (Z.eq_dec bpv sizeofVal) as [|Hv]; [assumption|].
    now rewrite (load_bytesPerVal_mismatch _ _ _ _ md bpv) in Hm. }
  rewrite (load_widths_pass _ _ _ _ _ md bpv) in Hm by assumption.
  destruct (file_indptr (st name)) as [ip|]; [|discriminate].
  destruct (file_inds (st name)) as [ix|]; [|discriminate].
  apply bind_Ok_inv in Hm as (nzData & HnzData & Hm). injection Hm as <-.
  exists md, bpv, ip, ix, nzData.
  repeat (split; [first [reflexivity|assumption]|]).
  split; [|reflexivity].
  destruct gen.
  - destruct (nz md) as [n|]; [|discriminate]. cbn in HnzData.
    injection HnzData as <-. now exists n.
  - destruct (file_nzdata (st name)) as [vs|]; [|discriminate].
    injection HnzData as <-. now exists vs.
Qed.

(** X9.  [load] returns a matrix exactly when the metadata is there, its
    [bytesPerInd] is [sizeof(SpMVInd)], its [bytesPerVal] is
    [sizeof(SpMVVal)] or [genNZData] is set, the index pointers and the
    column indices are there, and so are the values unless [genNZData]
    is set.  Neither the lengths nor the contents of the arrays are
    looked at. *)
Theorem load_succeeds_iff (st : store SpMVVal) (name : string)
    (genNZData : bool) :
  (exists m, load SpMVInd SpMVVal st name genNZData = Ok m) <->
  exists md bpv,
    file_meta (st name) = Some md /\
    bytesPerInd md = Some (sizeofInd SpMVInd) /\
    bytesPerVal md = Some bpv /\ (bpv = sizeofVal \/ genNZData = true) /\
    is_Some (file_indptr (st name)) /\
    is_Some (file_inds (st name)) /\
    (if genNZData then is_Some (nz md) else is_Some (file_nzdata (st name))).
Proof.
  split.
  - intros (m & Hm).
    apply load_Ok_inv in Hm
      as (md & bpv & ip & ix & nzData & Hmd & Hbpi & Hbpv & Hpass & Hip & Hix &
          Hnz & _).
    exists md, bpv. repeat (split; [first [assumption|eauto]|]).
    destruct genNZData.
    + destruct Hnz as (n & Hn & _). eauto.
    + destruct Hnz as (vs & Hvs & _). eauto.
  - intros (md & bpv & Hmd & Hbpi & Hbpv & Hpass & [ip Hip] & [ix Hix] & Hnz).
    rewrite (load_widths_pass _ _ _ _ _ md bpv) by assumption.
    rewrite Hip, Hix.
    destruct genNZData.
    + destruct Hnz as [n Hn]. rewrite Hn. cbn. eauto.
    + destruct Hnz as [vs Hvs]. rewrite Hvs. cbn. eauto.
Qed.

(** X10.  The matrix [load] returns holds what was stored: its metadata
    is the stored metadata, its index pointers and column indices are the
    stored buffers, its values too unless [genNZData] is set, its name is
    the name it was loaded under, and it owns its memory. *)
Theorem load_returns_components (st : store SpMVVal) (name : string)
    (genNZData : bool) (m : CSR SpMVVal) :
  load SpMVInd SpMVVal st name genNZData = Ok m ->
  exists md ip ix,
    file_meta (st name) = Some md /\
    file_indptr (st name) = Some ip /\
    file_inds (st name) = Some ix /\
    m_metadata m = Some md /\
    getIndPtrs m = loaded ip /\
    getInds m = loaded ix /\
    getName m = name /\
    m_needsDealloc m = true /\
    (genNZData = false ->
     exists vs, file_nzdata (st name) = Some vs /\ getNZData m = loaded vs).
Proof.
  intros Hm.
  apply load_Ok_inv in Hm
    as (md & bpv & ip & ix & nzData & Hmd & Hbpi & Hbpv & Hpass & Hip & Hix &
        Hnz & ->).
  exists md, ip, ix. repeat (split; [first [assumption|reflexivity]|]).
  intros ->. exact Hnz.
Qed.

(** X11.  With [genNZData], [load] does not read the stored values: it
    returns the same matrix from any store with the same metadata, index
    pointers and column indices.  The values of that matrix are
    [1, 2, ..., nz], and there are [nz] of them. *)
Theorem load_genNZData (st st' : store SpMVVal) (name : string)
    (m : CSR SpMVVal) :
  load SpMVInd SpMVVal st name true = Ok m ->
  file_meta (st' name) = file_meta (st name) ->
  file_indptr (st' name) = file_indptr (st name) ->
  file_inds (st' name) = file_inds (st name) ->
  load SpMVInd SpMVVal st' name true = Ok m /\
  exists n, getNNZ SpMVVal m = Ok n /\
    (is_uint n ->
     (forall k, 0 <= k < n ->
                ptr_get (getNZData m) k = Ok (castVal (k + 1))) /\
     ptr_get (getNZData m) n = Undefined).
Proof.
  intros Hm Emd Eip Eix.
  apply load_Ok_inv in Hm
    as (md & bpv & ip & ix & nzData & Hmd & Hbpi & Hbpv & Hpass & Hip & Hix &
        (n & Hn & ->) & ->).
  split.
  - rewrite (load_widths_pass _ _ _ _ _ md bpv); try congruence.
    rewrite Eip, Eix, Hip, Hix, Hn. reflexivity.
  - exists n. split; [unfold getNNZ, metadata; cbn; now rewrite Hn|].
    intros Hu. unfold getNZData. cbn [m_nzData].
    rewrite (ind_uint SpMVInd n) by exact Hu. split.
    + intros k Hk. unfold is_uint in Hu.
      replace (castVal (k + 1)) with (castVal (ind SpMVInd (k + 1)))
        by (now rewrite ind_uint by lia).
      apply ptr_get_loaded; [lia|].
      now apply (lookup_fmap_seqZ (fun i => castVal (ind SpMVInd (i + 1)))).
    + unfold loaded, ptr_get, arr_get. destruct Hu as [Hu _].
      destruct (Z.ltb_spec (0 + n) 0); [reflexivity|].
      rewrite lookup_ge_None_2; [reflexivity|].
      rewrite !length_fmap, length_seqZ. lia.
Qed.

(** X12.  The metadata of a loaded matrix records the index width of the
    instantiation, [sizeof(SpMVInd)], and, unless [genNZData] was set,
    its value width [sizeof(SpMVVal)]; the views of a loaded matrix
    record them too. *)
Theorem load_records_widths (st : store SpMVVal) (name : string)
    (genNZData : bool) (m : CSR SpMVVal) :
  load SpMVInd SpMVVal st name genNZData = Ok m ->
  (exists md, m_metadata m = Some md /\
     bytesPerInd md = Some (sizeofInd SpMVInd) /\
     (genNZData = false -> bytesPerVal md = Some sizeofVal)) /\
  (forall b children c,
     rowPartitionedView SpMVInd SpMVVal m b = Ok children -> c ∈ children ->
     exists md, m_metadata c = Some md /\
       bytesPerInd md = Some (sizeofInd SpMVInd) /\
       (genNZData = false -> bytesPerVal md = Some sizeofVal)).
Proof.
  intros Hm.
  apply load_Ok_inv in Hm
    as (md & bpv & ip & ix & nzData & Hmd & Hbpi & Hbpv & Hpass & Hip & Hix &
        Hnz & ->).
  assert (Hval : genNZData = false -> bytesPerVal md = Some sizeofVal).
  { intros ->. destruct Hpass as [<-|]; [assumption|discriminate]. }
  split; [exists md; now repeat split|].
  intros b children c Hrun Hc.
  apply list_elem_of_lookup in Hc as (k & Hk).
  destruct (rowPartitionedView_child _ _ _ _ _ _ _ Hrun Hk)
    as (parent & lo & hi & pLo & pHi & Hp & _ & _ & _ & _ & _ & _ & _ & Hcmd).
  cbn in Hp. injection Hp as <-.
  eexists. split; [exact Hcmd|]. split; assumption.
Qed.

(** X13.  With the metadata there, [load] has no undefined behaviour: it
    returns a matrix, or it throws one of its messages about a width
    that does not match or a component that could not be loaded. *)
Theorem load_outcomes (st : store SpMVVal) (name : string)
    (genNZData : bool) (md : SparseMatrixMetadata) :
  file_meta (st name) = Some md ->
  is_Some (bytesPerInd md) -> is_Some (bytesPerVal md) -> is_Some (nz md) ->
  (exists m, load SpMVInd SpMVVal st name genNZData = Ok m) \/
  (exists k, fails_with k (load SpMVInd SpMVVal st name genNZData)).
Proof.
  intros Hmd [bpi Hbpi] [bpv Hbpv] [n Hn].
  destruct (Z.eq_dec bpi (sizeofInd SpMVInd)) as [->|Hi].
  2:{ right. exists TypeMismatchError.
      rewrite (load_bytesPerInd_mismatch _ _ _ _ _ md bpi) by assumption.
      eexists. split; reflexivity. }
  destruct (Z.eq_dec bpv sizeofVal) as [Ev|Hv], genNZData eqn:Eg.
  4:{ right. exists TypeMismatchError.
      rewrite (load_bytesPerVal_mismatch _ _ _ _ md bpv) by assumption.
      eexists. split; reflexivity. }
  all: rewrite (load_widths_pass _ _ _ _ _ md bpv) by (auto; congruence).
  all: destruct (file_indptr (st name)) as [ip|];
    [|right; exists FormatError; eexists; split; reflexivity].
  all: destruct (file_inds (st name)) as [ix|];
    [|right; exists FormatError; eexists; split; reflexivity].
  all: try (rewrite Hn; cbn; eauto).
  all: destruct (file_nzdata (st name)) as [vs|];
    [cbn; eauto|right; exists FormatError; eexists; split; reflexivity].
Qed.

End LoadMore.

(** ** The boundaries that are computed, and the views they give *)

Lemma nondecreasing_intro (b : list Z) :
  (forall (i : nat) (x y : Z), b !! i = Some x -> b !! S i = Some y -> x <= y) ->
  nondecreasing b = true.
Proof.
  induction b as [|x b IH]; intros H; [reflexivity|].
  destruct b as [|y b]; [reflexivity|].
  cbn [nondecreasing]. apply andb_true_iff. split.
  - apply Z.leb_le. now apply (H 0%nat).
  - apply IH. intros i u w Hu Hw. now apply (H (S i)).
Qed.

Lemma total_app (l : list Z) (x : Z) : total (l ++ [x]) = total l + x.
Proof.
  unfold total. induction l as [|y l IH]; simpl; [lia|]. rewrite IH. lia.
Qed.

Lemma total_telescope (g : Z -> Z) (n : nat) :
  total ((fun i => g (i + 1) - g i) <$> seqZ 0 (Z.of_nat n))
  = g (Z.of_nat n) - g 0.
Proof.
  induction n as [|n IH].
  { change (Z.of_nat 0) with 0. rewrite seqZ_nil by lia. cbn. lia. }
  rewrite Nat2Z.inj_succ, <- Z.add_1_r, seqZ_snoc, fmap_app by lia.
  cbn [fmap list_fmap]. rewrite total_app, IH. lia.
Qed.

Lemma mapM_seqZ {A B : Type} (f : A -> outcome B) (h : Z -> B) (l : list A) :
  (forall (i : nat) (x : A), l !! i = Some x -> f x = Ok (h (Z.of_nat i))) ->
  mapM f l = Ok (h <$> seqZ 0 (Z.of_nat (length l))).
Proof.
  revert h. induction l as [|x l IH]; intros h H; [reflexivity|].
  cbn [length]. rewrite Nat2Z.inj_succ, (seqZ_cons 0) by lia.
  replace (Z.pred (Z.succ (Z.of_nat (length l)))) with (Z.of_nat (length l))
    by lia.
  cbn [mapM]. rewrite (H 0%nat x eq_refl), bind_Ok.
  rewrite (IH (fun i => h (i + 1))), bind_Ok.
  2:{ intros i y Hy. rewrite (H (S i) y Hy). f_equal. f_equal. lia. }
  cbn [fmap list_fmap]. change (Z.of_nat 0) with 0. unfold mret, outcome_ret.
  f_equal. f_equal.
  rewrite <- (fmap_add_seqZ 1 0), <- list_fmap_compose.
  apply list_fmap_ext. intros i y _. cbn. f_equal. lia.
Qed.

Lemma mapM_ext {A B : Type} (f g : A -> outcome B) (l : list A) :
  (forall x, f x = g x) -> mapM f l = mapM g l.
Proof.
  intros H. induction l as [|x l IH]; [reflexivity|].
  cbn [mapM]. now rewrite H, IH.
Qed.

Lemma mapM_ex {A B : Type} (f : A -> outcome B) (l : list A) :
  (forall x, x ∈ l -> exists y, f x = Ok y) -> exists ys, mapM f l = Ok ys.
Proof.
  induction l as [|x l IH]; intros H; [now exists []|].
  destruct (H x) as (y & Hy); [apply list_elem_of_here|].
  destruct IH as (ys & Hys).
  { intros z Hz. apply H. now apply list_elem_of_further. }
  exists (y :: ys). cbn [mapM]. now rewrite Hy, bind_Ok, Hys, bind_Ok.
Qed.

(** The boundaries computed for [n] partitions of [r] rows, when [r + n]
    is in the range of [unsigned int]. *)
Lemma boundaries_lookup (r n : Z) (i : nat) :
  0 <= r -> 1 <= n -> r + n < UINT_RANGE -> Z.of_nat i <= n ->
  (((fun i => uint (uint (r + n) / n * i)) <$> seqZ 0 n) ++ [r]) !! i
  = Some (if Z.of_nat i <? n then (r + n) / n * Z.of_nat i else r).
Proof.
  intros Hr Hn Hmax Hi.
  rewrite <- (Nat2Z.id i) at 1.
  rewrite (lookup_fmap_seqZ_snoc (fun i => uint (uint (r + n) / n * i))) by lia.
  f_equal. destruct (Z.ltb_spec (Z.of_nat i) n); [|reflexivity].
  rewrite (uint_small (r + n)) by lia. apply uint_small.
  assert (n * ((r + n) / n) <= r + n) by (apply Z.mul_div_le; lia).
  assert (0 <= (r + n) / n) by (apply Z.div_pos; lia).
  nia.
Qed.

Lemma chunk_size (r n : Z) :
  0 <= r -> 1 <= n ->
  1 <= (r + n) / n /\
  (n * (n - 1) <= r -> (r + n) / n * (n - 1) <= r).
Proof.
  intros Hr Hn.
  assert (E : (r + n) / n = r / n + 1).
  { replace (r + n) with (r + 1 * n) by lia. apply Z.div_add. lia. }
  assert (0 <= r / n) by (apply Z.div_pos; lia).
  split; [lia|]. intros Hsq. rewrite E.
  pose proof (Z.div_mod r n). pose proof (Z.mod_pos_bound r n).
  assert (n - 1 <= r / n).
  { apply Z.div_le_lower_bound; lia. }
  nia.
Qed.

Lemma boundaries_valid_iff (r n : Z) :
  0 <= r -> 1 <= n -> r + n < UINT_RANGE ->
  valid_boundaries r
    (((fun i => uint (uint (r + n) / n * i)) <$> seqZ 0 n) ++ [r]) = true
  <-> (r + n) / n * (n - 1) <= r.
Proof.
  intros Hr Hn Hmax.
  set (b := ((fun i => uint (uint (r + n) / n * i)) <$> seqZ 0 n) ++ [r]).
  destruct (chunk_size r n Hr Hn) as (Hd & _).
  split.
  - intros Hv. unfold valid_boundaries in Hv.
    apply andb_true_iff in Hv as [_ Hmono].
    pose proof (boundaries_lookup r n (Z.to_nat (n - 1)) Hr Hn Hmax
                  ltac:(lia)) as H1.
    pose proof (boundaries_lookup r n (Z.to_nat n) Hr Hn Hmax
                  ltac:(lia)) as H2.
    replace (Z.to_nat n) with (S (Z.to_nat (n - 1))) in H2 at 1 by lia.
    pose proof (nondecreasing_step b (Z.to_nat (n - 1)) _ _ Hmono H1 H2)
      as Hstep.
    rewrite !Z2Nat.id in Hstep by lia.
    destruct (Z.ltb_spec (n - 1) n); [|lia].
    destruct (Z.ltb_spec n n); [lia|]. exact Hstep.
  - intros Hle. unfold valid_boundaries.
    apply andb_true_iff. split; [apply andb_true_iff; split|].
    + apply bool_decide_eq_true. rewrite head_lookup.
      unfold b. rewrite (boundaries_lookup r n 0) by lia.
      destruct (Z.ltb_spec (Z.of_nat 0) n); [|lia]. f_equal. lia.
    + apply bool_decide_eq_true. apply last_snoc.
    + apply nondecreasing_intro. intros i x y Hx Hy.
      assert (Hi : Z.of_nat (S i) <= n).
      { apply lookup_lt_Some in Hy. unfold b in Hy.
        rewrite length_app, length_fmap, length_seqZ in Hy. simpl in Hy. lia. }
      unfold b in Hx, Hy.
      rewrite boundaries_lookup in Hx, Hy by lia.
      injection Hx as <-. injection Hy as <-.
      destruct (Z.ltb_spec (Z.of_nat i) n); [|lia].
      destruct (Z.ltb_spec (Z.of_nat (S i)) n); nia.
Qed.

Section Partitions.
Context (SpMVInd : IndType) (SpMVVal : Type) `{!ValueType SpMVVal}.

(** X14.  [calcRowPartitionBoundaries] divides by the number of
    partitions: for zero partitions its behaviour is undefined, whatever
    the matrix.  For one partition or more it returns boundaries exactly
    when the number of rows can be read. *)
Theorem calcRowPartitionBoundaries_defined (this : CSR SpMVVal) :
  calcRowPartitionBoundaries SpMVInd SpMVVal this 0 = Undefined /\
  (forall numPartitions, 1 <= numPartitions ->
     ((exists b, calcRowPartitionBoundaries SpMVInd SpMVVal this numPartitions
                 = Ok b)
      <-> exists r, getRows SpMVVal this = Ok r)).
Proof.
  unfold calcRowPartitionBoundaries, getRows. split.
  - unfold metadata. destruct (m_metadata this) as [md|]; [|reflexivity].
    cbn [rd]. rewrite bind_Ok. destruct (rows md); reflexivity.
  - intros n Hn. split.
    + intros (b & Hb).
      apply bind_Ok_inv in Hb as (md & Hmd & Hb).
      apply bind_Ok_inv in Hb as (r & Hr & _).
      exists r. now rewrite Hmd, bind_Ok.
    + intros (r & Hr).
      apply bind_Ok_inv in Hr as (md & Hmd & Hr).
      rewrite Hmd, bind_Ok, Hr, bind_Ok. unfold udiv.
      destruct (Z.eqb_spec n 0); [lia|]. rewrite bind_Ok.
      rewrite (for_upto_push
                 (fun i => ind SpMVInd (uint (uint (r + n) / n * i)))) by lia.
      rewrite bind_Ok. eauto.
Qed.

(** X15.  The boundaries computed for [numPartitions] partitions of [r]
    rows are boundaries [rowPartitionedView] accepts (they start at
    zero, end at [r] and never decrease) exactly when the chunk size
    times [numPartitions - 1] is at most [r]; that is so whenever
    [numPartitions * (numPartitions - 1) <= r]. *)
Theorem calcRowPartitionBoundaries_valid (this : CSR SpMVVal)
    (r numPartitions : Z) (b : list Z) :
  getRows SpMVVal this = Ok r -> 0 <= r ->
  1 <= numPartitions -> r + numPartitions < UINT_RANGE ->
  calcRowPartitionBoundaries SpMVInd SpMVVal this numPartitions = Ok b ->
  (valid_boundaries r b = true
   <-> (r + numPartitions) / numPartitions * (numPartitions - 1) <= r) /\
  (numPartitions * (numPartitions - 1) <= r -> valid_boundaries r b = true).
Proof.
  intros Hrows Hr Hn Hmax Hb.
  rewrite (calcRowPartitionBoundaries_Ok _ _ _ r) in Hb;
    [|assumption|unfold is_uint; lia|assumption].
  injection Hb as <-.
  pose proof (boundaries_valid_iff r numPartitions Hr Hn Hmax) as Hiff.
  split; [exact Hiff|]. intros Hsq. apply Hiff.
  now apply (chunk_size r numPartitions Hr Hn).
Qed.

(** The children of a matrix that satisfies the invariants, for valid
    boundaries. *)
Lemma children_of_valid_boundaries (this : CSR SpMVVal) (v : view SpMVVal)
    (b : list Z) :
  view_of this = Some v -> view_ok v ->
  valid_boundaries (v_rows v) b = true ->
  Z.of_nat (length b) <= INT_MAX + 2 ->
  exists children,
    rowPartitionedView SpMVInd SpMVVal this b = Ok children /\
    S (length children) = length b /\
    forall (i : nat) (c : CSR SpMVVal),
      children !! i = Some c ->
      exists lo hi, b !! i = Some lo /\ b !! S i = Some hi /\
                    0 <= lo /\ lo <= hi /\ hi <= v_rows v /\
                    is_child_view SpMVVal this (Z.of_nat i) lo hi c.
Proof.
  intros Hv Hok Hb Hlen.
  assert (Hne : (0 < length b)%nat).
  { destruct b; [discriminate|]. simpl. lia. }
  assert (Hk : uint (Z.of_nat (length b) - 1) = Z.of_nat (length b) - 1).
  { apply uint_small. unfold INT_MAX, UINT_RANGE in *. lia. }
  assert (Hround : forall i, 0 <= i < Z.of_nat (length b) - 1 ->
            exists c, nth_child SpMVInd SpMVVal this b i = Ok c).
  { intros i Hi.
    destruct (lookup_lt_is_Some_2 b (Z.to_nat i)) as [lo Hlo]; [lia|].
    destruct (lookup_lt_is_Some_2 b (S (Z.to_nat i))) as [hi Hhi]; [lia|].
    rewrite <- (Z2Nat.id i) by lia.
    apply (nth_child_Ok SpMVInd SpMVVal this v b (Z.to_nat i) lo hi);
      try assumption. lia. }
  destruct (for_upto_collect_ex (nth_child SpMVInd SpMVVal this b)
              (Z.of_nat (length b) - 1)) as (children & Hrun); [lia|assumption|].
  exists children. unfold rowPartitionedView. rewrite Hk.
  split; [exact Hrun|].
  apply for_upto_collect_inv in Hrun as (Hl & Hnth).
  split; [lia|].
  intros i c Hc.
  assert (Hi : (S i < length b)%nat) by (apply lookup_lt_Some in Hc; lia).
  destruct (lookup_lt_is_Some_2 b i) as [lo Hlo]; [lia|].
  destruct (lookup_lt_is_Some_2 b (S i)) as [hi Hhi]; [lia|].
  exists lo, hi. split; [exact Hlo|]. split; [exact Hhi|].
  destruct (valid_boundaries_range _ _ _ _ _ Hb Hlo Hhi) as (H0 & Hle & Hr).
  repeat (split; [assumption|]).
  apply (child_built_is_child_view SpMVInd SpMVVal this v b i lo hi c);
    try assumption; [lia|].
  apply nth_child_spec. now apply Hnth.
Qed.

(** X16.  The views of a matrix that satisfies the invariants, for valid
    boundaries, share out its rows and its entries: their numbers of
    rows add up to the number of rows of the matrix, their [nz] to its
    [nz]. *)
Theorem partitions_conserve (this : CSR SpMVVal) (r : Z) (b : list Z) :
  invariants this ->
  getRows SpMVVal this = Ok r ->
  valid_boundaries r b = true ->
  Z.of_nat (length b) <= INT_MAX + 2 ->
  exists children rs ns n,
    rowPartitionedView SpMVInd SpMVVal this b = Ok children /\
    mapM (getRows SpMVVal) children = Ok rs /\ total rs = r /\
    getNNZ SpMVVal this = Ok n /\
    mapM (getNNZ SpMVVal) children = Ok ns /\ total ns = n.
Proof.
  intros Hinv Hrows Hb Hlen.
  destruct (invariants_view this Hinv)
    as (v & md & Hv & Hok & Hmd & Hr & _ & Hn & _).
  assert (r = v_rows v).
  { unfold getRows, metadata in Hrows. rewrite Hmd in Hrows. cbn in Hrows.
    rewrite Hr in Hrows. now injection Hrows. }
  subst r.
  destruct (children_of_valid_boundaries this v b Hv Hok Hb Hlen)
    as (children & Hrun & Hl & Hchild).
  set (g := fun i => nth_Z b i).
  set (p := fun i => nth_Z (v_indPtrs v) (nth_Z b i)).
  exists children,
    ((fun i => g (i + 1) - g i) <$> seqZ 0 (Z.of_nat (length children))),
    ((fun i => p (i + 1) - p i) <$> seqZ 0 (Z.of_nat (length children))),
    (v_nz v).
  assert (Hhead : nth_Z b 0 = 0).
  { unfold valid_boundaries in Hb. apply andb_true_iff in Hb as [Hb _].
    apply andb_true_iff in Hb as [Hb _]. apply bool_decide_eq_true in Hb.
    rewrite head_lookup in Hb. unfold nth_Z.
    now apply list_lookup_total_correct. }
  assert (Hlast : nth_Z b (Z.of_nat (length children)) = v_rows v).
  { unfold valid_boundaries in Hb. apply andb_true_iff in Hb as [Hb _].
    apply andb_true_iff in Hb as [_ Hb]. apply bool_decide_eq_true in Hb.
    rewrite last_lookup in Hb. unfold nth_Z. rewrite Nat2Z.id.
    apply list_lookup_total_correct. rewrite <- Hl in Hb. exact Hb. }
  assert (Hfacts : forall (i : nat) (c : CSR SpMVVal),
            children !! i = Some c ->
            getRows SpMVVal c = Ok (g (Z.of_nat i + 1) - g (Z.of_nat i)) /\
            getNNZ SpMVVal c = Ok (p (Z.of_nat i + 1) - p (Z.of_nat i))).
  { intros i c Hc.
    destruct (Hchild i c Hc) as (lo & hi & Hlo & Hhi & H0 & Hle & Hhr & Hview).
    destruct Hview as (parent & cmd & pLo & pHi & s & _ & Hcmd & HpLo & HpHi &
                       Hcr & _ & Hcn & _).
    destruct (round_facts SpMVVal this v lo hi Hv Hok H0 Hle Hhr)
      as (HpLo' & HpHi' & _).
    assert (pLo = nth_Z (v_indPtrs v) lo) by congruence.
    assert (pHi = nth_Z (v_indPtrs v) hi) by congruence.
    subst pLo pHi.
    assert (Eglo : g (Z.of_nat i) = lo).
    { unfold g, nth_Z. rewrite Nat2Z.id. now apply list_lookup_total_correct. }
    assert (Eghi : g (Z.of_nat i + 1) = hi).
    { unfold g, nth_Z. replace (Z.to_nat (Z.of_nat i + 1)) with (S i) by lia.
      now apply list_lookup_total_correct. }
    unfold p. fold (g (Z.of_nat i)). fold (g (Z.of_nat i + 1)).
    rewrite Eglo, Eghi.
    unfold getRows, getNNZ, metadata. rewrite Hcmd. cbn.
    now rewrite Hcr, Hcn. }
  split; [exact Hrun|].
  split; [apply mapM_seqZ; intros i c Hc; now apply Hfacts|].
  split; [rewrite total_telescope; unfold g; lia|].
  split; [unfold getNNZ, metadata; rewrite Hmd; cbn; now rewrite Hn|].
  split; [apply mapM_seqZ; intros i c Hc; now apply Hfacts|].
  rewrite total_telescope. unfold p. rewrite Hhead, Hlast.
  pose proof Hok as (_ & _ & _ & _ & _ & _ & Hnz). lia.
Qed.

(** X17.  On a matrix of [r] rows that satisfies the invariants, with
    [numPartitions * (numPartitions - 1) <= r], the computed boundaries
    cut the matrix into [numPartitions] views: view [i] starts at row
    [chunk * i] where [chunk = (r + numPartitions) / numPartitions];
    every view but the last has [chunk] rows, and the last has the
    [r - chunk * (numPartitions - 1)] rows that remain. *)
Theorem calcRowPartitionBoundaries_chunks (this : CSR SpMVVal)
    (r numPartitions : Z) :
  invariants this ->
  getRows SpMVVal this = Ok r ->
  1 <= numPartitions -> numPartitions * (numPartitions - 1) <= r ->
  r + numPartitions < UINT_RANGE ->
  exists b children,
    calcRowPartitionBoundaries SpMVInd SpMVVal this numPartitions = Ok b /\
    rowPartitionedView SpMVInd SpMVVal this b = Ok children /\
    Z.of_nat (length children) = numPartitions /\
    forall (i : nat) (c : CSR SpMVVal),
      children !! i = Some c ->
      getStartingRow SpMVVal c
      = Ok ((r + numPartitions) / numPartitions * Z.of_nat i) /\
      getRows SpMVVal c
      = Ok (if Z.of_nat i <? numPartitions - 1
            then (r + numPartitions) / numPartitions
            else r - (r + numPartitions) / numPartitions * (numPartitions - 1)).
Proof.
  intros Hinv Hrows Hn Hsq Hmax.
  set (n := numPartitions) in *.
  destruct (invariants_view this Hinv)
    as (v & md & Hv & Hok & Hmd & Hr & _).
  assert (r = v_rows v).
  { unfold getRows, metadata in Hrows. rewrite Hmd in Hrows. cbn in Hrows.
    rewrite Hr in Hrows. now injection Hrows. }
  assert (H0 : 0 <= r).
  { subst r. pose proof Hok as (((? & _) & _) & _). assumption. }
  pose proof (calcRowPartitionBoundaries_Ok SpMVInd SpMVVal this r n Hrows
                ltac:(unfold is_uint; lia) Hn) as Hcalc.
  set (b := ((fun i => uint (uint (r + n) / n * i)) <$> seqZ 0 n) ++ [r]) in *.
  assert (Hvalid : valid_boundaries r b = true).
  { apply boundaries_valid_iff; try assumption.
    now apply (chunk_size r n H0 Hn). }
  assert (Hblen : Z.of_nat (length b) = n + 1).
  { unfold b. rewrite length_app, length_fmap, length_seqZ. simpl. lia. }
  assert (Hsmall : n <= 65536).
  { unfold UINT_RANGE in Hmax. nia. }
  destruct (children_of_valid_boundaries this v b Hv Hok) as
    (children & Hrun & Hl & Hchild).
  { now subst r. }
  { unfold INT_MAX. lia. }
  exists b, children. split; [exact Hcalc|]. split; [exact Hrun|].
  split; [lia|].
  intros i c Hc.
  destruct (Hchild i c Hc) as (lo & hi & Hlo & Hhi & _ & _ & _ & Hview).
  destruct Hview as (parent & cmd & pLo & pHi & s & _ & Hcmd & _ & _ &
                     Hcr & _ & _ & Hcs & _).
  assert (Hi : Z.of_nat (S i) <= n).
  { apply lookup_lt_Some in Hhi. lia. }
  unfold b in Hlo, Hhi. rewrite boundaries_lookup in Hlo, Hhi by lia.
  injection Hlo as <-. injection Hhi as <-.
  unfold getStartingRow, getRows, metadata. rewrite Hcmd. cbn.
  rewrite Hcs, Hcr. cbn.
  destruct (Z.ltb_spec (Z.of_nat i) n); [|lia].
  split; [reflexivity|]. f_equal.
  destruct (Z.ltb_spec (Z.of_nat (S i)) n),
    (Z.ltb_spec (Z.of_nat i) (n - 1)); try lia.
  replace (Z.of_nat i) with (n - 1) by lia. reflexivity.
Qed.

(** The rows of a matrix that satisfies the invariants and whose index
    pointers start at zero can be read. *)
Lemma row_entries_Ok (this : CSR SpMVVal) (v : view SpMVVal) (x : Z) :
  view_of this = Some v -> view_ok v -> zero_based this ->
  0 <= x < v_rows v ->
  exists es, row_entries SpMVVal this x = Ok es.
Proof.
  intros Hv Hok Hz Hx.
  assert (Hinv : invariants this) by (unfold invariants; now rewrite Hv).
  destruct (invariants_view this Hinv)
    as (v' & md & Hv' & _ & Hmd & _ & _ & _ & Hip & Hix & Hvs).
  assert (v' = v) by congruence. subst v'.
  destruct (round_facts SpMVVal this v x (x + 1) Hv Hok)
    as (Hlo & Hhi & Hdiff & Hfirst & Hlast); try lia.
  destruct (round_facts SpMVVal this v 0 0 Hv Hok) as (H0 & _); try lia.
  unfold zero_based in Hz. rewrite Hz in H0. injection H0 as H0.
  pose proof Hok as (_ & _ & Hlix & Hlvs & _ & _ & Hnz).
  unfold row_entries. rewrite Hlo, bind_Ok, Hhi, bind_Ok.
  apply mapM_ex. intros k Hk.
  apply list_elem_of_lookup in Hk as (j & Hj). apply lookup_seqZ in Hj.
  destruct (lookup_lt_is_Some_2 (v_inds v) (Z.to_nat k)) as [ci Hci]; [lia|].
  destruct (lookup_lt_is_Some_2 (v_nzData v) (Z.to_nat k)) as [vi Hvi]; [lia|].
  rewrite (elements_get _ _ _ k ci Hix), bind_Ok by (lia || assumption).
  rewrite (elements_get _ _ _ k vi Hvs), bind_Ok by (lia || assumption).
  eauto.
Qed.

(** X18.  A view holds the rows of its parent: on a matrix that satisfies
    the invariants and whose index pointers start at zero, row [r] of the
    view of the rows [[lo, hi)], read with its offsets taken relative to
    the first index pointer of the view, has the entries of row [lo + r]
    of the parent. *)
Theorem view_rows_are_parent_rows (this : CSR SpMVVal) (rws : Z)
    (b : list Z) (children : list (CSR SpMVVal)) (i : nat)
    (c : CSR SpMVVal) (lo hi r : Z) :
  invariants this -> zero_based this ->
  getRows SpMVVal this = Ok rws ->
  valid_boundaries rws b = true ->
  rowPartitionedView SpMVInd SpMVVal this b = Ok children ->
  children !! i = Some c ->
  b !! i = Some lo -> b !! S i = Some hi ->
  0 <= r < hi - lo ->
  exists es, row_entries SpMVVal this (lo + r) = Ok es /\
             view_row_entries c r = Ok es.
Proof.
  intros Hinv Hz Hrows Hb Hrun Hc Hlo Hhi Hr.
  destruct (invariants_view this Hinv)
    as (v & md & Hv & Hok & Hmd & Hrv & _).
  assert (rws = v_rows v).
  { unfold getRows, metadata in Hrows. rewrite Hmd in Hrows. cbn in Hrows.
    rewrite Hrv in Hrows. now injection Hrows. }
  subst rws.
  destruct (valid_boundaries_range _ _ _ _ _ Hb Hlo Hhi) as (H0 & Hle & Hmax).
  destruct (row_entries_Ok this v (lo + r) Hv Hok Hz) as (es & Hes); [lia|].
  exists es. split; [exact Hes|]. rewrite <- Hes.
  destruct (rowPartitionedView_child SpMVInd SpMVVal this b children i c Hrun Hc)
    as (parent & lo' & hi' & pLo & pHi & _ & Hlo' & _ & HpLo & _ & Hp1 & Hp2 &
        Hp3 & _).
  assert (lo' = lo) by congruence. subst lo'.
  unfold view_row_entries, row_entries.
  rewrite !(ptr_at_get _ _ _ Hp1), Z.add_0_r, HpLo, bind_Ok.
  replace (lo + (r + 1)) with (lo + r + 1) by lia.
  destruct (ptr_get (m_indPtrs this) (lo + r)) as [x| |]; try reflexivity.
  rewrite !bind_Ok.
  destruct (ptr_get (m_indPtrs this) (lo + r + 1)) as [y| |]; try reflexivity.
  rewrite !bind_Ok.
  apply mapM_ext. intros k.
  rewrite (ptr_at_get _ _ _ Hp2), (ptr_at_get _ _ _ Hp3).
  now replace (pLo + (k - pLo)) with k by lia.
Qed.

End Partitions.

(** ** The dimensions eye and dense can be called with *)

Lemma IND_RANGE_pos T : 0 < IND_RANGE T.
Proof. pose proof (IND_RANGE_ge T). unfold UINT_RANGE in *. lia. Qed.

(** An index that did not decrease when [step] was added to it did not
    wrap around. *)
Lemma ind_step_exact (T : IndType) (x step : Z) :
  0 <= x -> ind T x = x -> 0 <= step < UINT_RANGE ->
  ind T x <= ind T (x + step) -> ind T (x + step) = x + step.
Proof.
  intros Hx Ex Hs Hle. unfold ind in *.
  pose proof (IND_RANGE_ge T) as HR. pose proof (IND_RANGE_pos T) as HP.
  pose proof (Z.mod_pos_bound x (IND_RANGE T) HP) as Hb. rewrite Ex in Hb, Hle.
  destruct (Z_lt_le_dec (x + step) (IND_RANGE T)) as [Hlt|Hge].
  - apply Z.mod_small. lia.
  - exfalso.
    assert (E : (x + step) mod IND_RANGE T = x + step - IND_RANGE T).
    { symmetry. apply (Z.mod_unique _ _ 1); lia. }
    lia.
Qed.

Section DenseRange.
Context (SpMVInd : IndType) (SpMVVal : Type) `{!ValueType SpMVVal}.

Lemma dense_UINT_MAX :
  dense SpMVInd SpMVVal (UINT_RANGE - 1) = Undefined.
Proof.
  unfold dense.
  rewrite (for_upto_first_undefined (UINT_RANGE - 1)); reflexivity.
Qed.

(** X19.  [eye] and [dense] return a matrix for every [unsigned int]
    dimension but [UINT_MAX], zero included; for [UINT_MAX] the length
    [dim + 1] of the index pointers wraps around to zero and the first
    write is out of bounds. *)
Theorem constructors_defined (dim : Z) :
  0 <= dim < UINT_RANGE ->
  (dim = UINT_RANGE - 1 ->
   eye SpMVVal dim = Undefined /\ dense SpMVInd SpMVVal dim = Undefined) /\
  (dim <> UINT_RANGE - 1 ->
   (exists m, eye SpMVVal dim = Ok m) /\
   (exists m, dense SpMVInd SpMVVal dim = Ok m)).
Proof.
  intros Hd. split.
  - intros ->. split; [|apply dense_UINT_MAX].
    apply eye_overflow; reflexivity.
  - intros Hne. split; eexists; [apply eye_Ok|apply dense_Ok]; lia.
Qed.

(** X20.  The matrix [dense(dim)] returns satisfies the invariants of the
    data model exactly when [dim * dim] is in the range of
    [unsigned int]: beyond it the index pointers are not monotone up to
    the last one. *)
Theorem dense_invariants_iff (dim : Z) (m : CSR SpMVVal) :
  0 <= dim -> dim + 1 < UINT_RANGE ->
  dense SpMVInd SpMVVal dim = Ok m ->
  (invariants m <-> dim * dim < UINT_RANGE).
Proof.
  intros Hd Hmax Hm. split;
    [|intros Hsq; now apply (dense_invariants SpMVInd SpMVVal dim)].
  intros Hinv.
  destruct (Z_lt_le_dec (dim * dim) UINT_RANGE) as [|Hbig]; [assumption|].
  exfalso.
  rewrite dense_Ok in Hm by assumption. injection Hm as <-.
  destruct (invariants_view _ Hinv)
    as (v & md & _ & Hok & Hmd & Hr & _ & _ & Hip & _).
  cbn in Hmd. injection Hmd as <-. cbn in Hr. injection Hr as Hr.
  cbn [m_indPtrs] in Hip. rewrite <- Hr in Hip.
  rewrite elements_loaded in Hip
    by (rewrite length_app, length_fmap, length_seqZ; simpl; lia).
  injection Hip as Hip.
  destruct Hok as (_ & _ & _ & _ & Hmono & _).
  rewrite <- Hip, <- Hr in Hmono. rewrite Forall_forall in Hmono.
  assert (Hat : forall r, 0 <= r < dim ->
            ind SpMVInd (r * dim)
            <= (if r + 1 <? dim then ind SpMVInd ((r + 1) * dim)
                else uint (dim * dim))
            /\ (if r + 1 <? dim then ind SpMVInd ((r + 1) * dim)
                else uint (dim * dim)) <= uint (dim * dim)).
  { intros r Hrr.
    destruct (Hmono r) as (_ & H1 & H2).
    { apply list_elem_of_lookup. exists (Z.to_nat r).
      apply lookup_seqZ. lia. }
    rewrite !(nth_Z_fmap_seqZ_snoc (fun i => ind SpMVInd (i * dim))) in H1, H2
      by lia.
    destruct (Z.ltb_spec r dim); [|lia].
    destruct (Z.ltb_spec dim dim); [lia|]. split; assumption. }
  assert (HU : UINT_RANGE = 4294967296) by reflexivity.
  assert (Hdim : 2 <= dim) by nia.
  assert (Hexact : forall k : nat, Z.of_nat k <= dim - 1 ->
            ind SpMVInd (Z.of_nat k * dim) = Z.of_nat k * dim).
  { induction k as [|k IH]; intros Hk.
    - apply Z.mod_0_l. pose proof (IND_RANGE_pos SpMVInd). lia.
    - specialize (IH ltac:(lia)).
      destruct (Hat (Z.of_nat k)) as (Hstep & _); [lia|].
      destruct (Z.ltb_spec (Z.of_nat k + 1) dim); [|lia].
      replace (Z.of_nat (S k) * dim) with (Z.of_nat k * dim + dim) by lia.
      replace ((Z.of_nat k + 1) * dim) with (Z.of_nat k * dim + dim) in Hstep
        by lia.
      apply ind_step_exact; try assumption; nia. }
  destruct (Hat (dim - 1)) as (Hlast & _); [lia|].
  replace (dim - 1 + 1) with dim in Hlast by lia.
  destruct (Z.ltb_spec dim dim); [lia|].
  specialize (Hexact (Z.to_nat (dim - 1)) ltac:(lia)).
  rewrite Z2Nat.id in Hexact by lia. rewrite Hexact in Hlast.
  assert (Hwrap : uint (dim * dim) <= dim * dim - UINT_RANGE).
  { unfold uint. pose proof (Z.div_mod (dim * dim) UINT_RANGE ltac:(lia)).
    assert (1 <= dim * dim / UINT_RANGE)
      by (apply Z.div_le_lower_bound; lia).
    nia. }
  nia.
Qed.

End DenseRange.

(** ** Boundaries that are out of range *)

Lemma no_throw_bind {A B : Type} (m : outcome A) (f : A -> outcome B) :
  no_throw m -> (forall a, no_throw (f a)) -> no_throw (m ≫= f).
Proof. destruct m; intros Hm Hf; [apply Hf|contradiction|exact I]. Qed.

Lemma no_throw_for_loop {St : Type} (body : Z -> St -> outcome St) :
  (forall i s, no_throw (body i s)) ->
  forall (n : nat) (i : Z) (s : St), no_throw (for_loop n i body s).
Proof.
  intros Hbody. induction n as [|n IH]; intros i s; [exact I|].
  cbn [for_loop]. apply no_throw_bind; [apply Hbody|]. intros s'. apply IH.
Qed.

Lemma no_throw_for_upto {St : Type} (bound : Z)
    (body : Z -> St -> outcome St) (s : St) :
  (forall i s, no_throw (body i s)) -> no_throw (for_upto bound body s).
Proof. intros H. now apply no_throw_for_loop. Qed.

Lemma no_throw_itoa_loop (fuel : nat) (n : Z) (s : list ascii) :
  no_throw (itoa_loop fuel n s).
Proof.
  revert n s. induction fuel as [|fuel IH]; intros n s; [exact I|].
  cbn [itoa_loop]. destruct (0 <? Z.quot n 10); [apply IH|exact I].
Qed.

Lemma no_throw_reverse_loop (fuel : nat) (i j : Z) (s : list ascii) :
  no_throw (reverse_loop fuel i j s).
Proof.
  revert i j s. induction fuel as [|fuel IH]; intros i j s;
    cbn [reverse_loop]; destruct (i <? j); try exact I.
  unfold str_get, str_set.
  repeat first
    [ apply IH
    | exact I
    | apply no_throw_bind; [|intros ?]
    | match goal with
      | |- no_throw (match ?x with _ => _ end) => destruct x
      end ].
Qed.

Lemma no_throw_itoa (n : Z) : no_throw (itoa n).
Proof.
  unfold itoa. apply no_throw_bind.
  - destruct (n <? 0); [|exact I]. now destruct (n =? - INT_MAX - 1).
  - intros n'. apply no_throw_bind; [apply no_throw_itoa_loop|].
    intros s. apply no_throw_bind; [apply no_throw_reverse_loop|].
    intros s'. exact I.
Qed.

Ltac solve_no_throw :=
  repeat first
    [ exact I
    | apply no_throw_itoa
    | apply no_throw_bind; [|intros ?]
    | apply no_throw_for_upto; intros ? ?
    | progress unfold metadata, rd, arr_get, arr_set, ptr_get, ptr_at,
        vec_get, udiv, umod
    | match goal with
      | |- no_throw (match ?x with _ => _ end) => destruct x
      end ].

Lemma ptr_get_loaded_inv {A : Type} (l : list A) (i : Z) (x : A) :
  ptr_get (loaded l) i = Ok x -> 0 <= i < Z.of_nat (length l).
Proof.
  unfold loaded, ptr_get, arr_get. rewrite Z.add_0_l.
  destruct (Z.ltb_spec i 0); [discriminate|].
  destruct ((Some <$> l) !! Z.to_nat i) eqn:E; [|discriminate].
  intros _. apply lookup_lt_Some in E. rewrite length_fmap in E. lia.
Qed.

Section OutOfRange.
Context (SpMVInd : IndType) (SpMVVal : Type) `{!ValueType SpMVVal}.

Lemma no_throw_nth_child (this : CSR SpMVVal) (b : list Z) (i : Z) :
  no_throw (nth_child SpMVInd SpMVVal this b i).
Proof. unfold nth_child. solve_no_throw. Qed.

Lemma no_throw_rowPartitionedView (this : CSR SpMVVal) (b : list Z) :
  no_throw (rowPartitionedView SpMVInd SpMVVal this b).
Proof.
  unfold rowPartitionedView.
  apply no_throw_for_upto. intros i res.
  apply no_throw_bind; [apply no_throw_nth_child|]. intros c. exact I.
Qed.

(** X22.  [rowPartitionedView] checks no boundary.  It makes
    [numPartitions] rounds, where [numPartitions] is
    [boundaries.size() - 1] as an [unsigned int], and reads
    [boundaries[0 .. numPartitions]].  On a matrix whose index pointers
    are an array of their own, as [eye], [dense] and [load] build them,
    if there is a round and one of the boundaries that are read is no
    index of that array, the call reads out of bounds and no views are
    returned. *)
Theorem rowPartitionedView_out_of_range (this : CSR SpMVVal) (b : list Z)
    (ip : list Z) (k : nat) (x : Z) :
  m_indPtrs this = loaded ip ->
  1 <= uint (Z.of_nat (length b) - 1) ->
  Z.of_nat k <= uint (Z.of_nat (length b) - 1) ->
  b !! k = Some x ->
  ~ (0 <= x < Z.of_nat (length ip)) ->
  rowPartitionedView SpMVInd SpMVVal this b = Undefined.
Proof.
  intros Hip Hround Hk Hx Hout.
  pose proof (no_throw_rowPartitionedView this b) as Hnt.
  destruct (rowPartitionedView SpMVInd SpMVVal this b) as [children| |] eqn:Hrun;
    [exfalso|contradiction|reflexivity].
  pose proof Hrun as Hl. unfold rowPartitionedView in Hl.
  apply for_upto_collect_inv in Hl as (Hl & _).
  destruct (decide (k < length children)%nat) as [Hlt|Hge].
  - destruct (lookup_lt_is_Some_2 children k) as [c Hc]; [lia|].
    destruct (rowPartitionedView_child SpMVInd SpMVVal this b children k c
                Hrun Hc)
      as (_ & lo & _ & pLo & _ & _ & Hlo & _ & HpLo & _).
    assert (lo = x) by congruence. subst lo.
    rewrite Hip in HpLo. now apply ptr_get_loaded_inv in HpLo.
  - destruct k as [|k]; [lia|].
    destruct (lookup_lt_is_Some_2 children k) as [c Hc]; [lia|].
    destruct (rowPartitionedView_child SpMVInd SpMVVal this b children k c
                Hrun Hc)
      as (_ & _ & hi & _ & pHi & _ & _ & Hhi & _ & HpHi & _).
    assert (hi = x) by congruence. subst hi.
    rewrite Hip in HpHi. now apply ptr_get_loaded_inv in HpHi.
Qed.

End OutOfRange.

(** ** Views of views *)

Section ViewsOfViews.
Context (SpMVInd : IndType) (SpMVVal : Type) `{!ValueType SpMVVal}.

(** X23.  A view of a view is shifted.  Its index pointers are those of
    the first matrix from the row [lo + lo'] on, but its column indices
    and values start at offset [indPtrs[lo] + indPtrs[lo + lo']] of the
    first matrix: the offset of the intermediate view is added a second
    time.  Its [startingRow] is [lo'], the row within the intermediate
    view. *)
Theorem views_of_views (this c g : CSR SpMVVal) (b b' : list Z)
    (children grandchildren : list (CSR SpMVVal)) (i j : nat)
    (lo lo' p q : Z) :
  rowPartitionedView SpMVInd SpMVVal this b = Ok children ->
  children !! i = Some c -> b !! i = Some lo ->
  rowPartitionedView SpMVInd SpMVVal c b' = Ok grandchildren ->
  grandchildren !! j = Some g -> b' !! j = Some lo' ->
  ptr_get (m_indPtrs this) lo = Ok p ->
  ptr_get (m_indPtrs this) (lo + lo') = Ok q ->
  (forall r, ptr_get (m_indPtrs g) r = ptr_get (m_indPtrs this) (lo + lo' + r)) /\
  (forall k, ptr_get (m_inds g) k = ptr_get (m_inds this) (p + q + k)) /\
  (forall k, ptr_get (m_nzData g) k = ptr_get (m_nzData this) (p + q + k)) /\
  getStartingRow SpMVVal g = Ok (uint lo').
Proof.
  intros Hrun Hc Hlo Hrun' Hg Hlo' Hp Hq.
  destruct (rowPartitionedView_child SpMVInd SpMVVal this b children i c Hrun Hc)
    as (_ & lo1 & _ & p1 & _ & _ & Hlo1 & _ & Hp1 & _ & Ha1 & Ha2 & Ha3 & _).
  assert (lo1 = lo) by congruence. subst lo1.
  assert (p1 = p) by congruence. subst p1.
  destruct (rowPartitionedView_child SpMVInd SpMVVal c b' grandchildren j g
              Hrun' Hg)
    as (parent & lo2 & hi2 & q2 & qh & _ & Hlo2 & _ & Hq2 & _ & Hb1 & Hb2 &
        Hb3 & Hmd).
  assert (lo2 = lo') by congruence. subst lo2.
  rewrite (ptr_at_get _ _ _ Ha1) in Hq2.
  assert (q2 = q) by congruence. subst q2.
  split; [|split; [|split]].
  - intros r. rewrite (ptr_at_get _ _ _ Hb1), (ptr_at_get _ _ _ Ha1).
    f_equal. lia.
  - intros k. rewrite (ptr_at_get _ _ _ Hb2), (ptr_at_get _ _ _ Ha2).
    f_equal. lia.
  - intros k. rewrite (ptr_at_get _ _ _ Hb3), (ptr_at_get _ _ _ Ha3).
    f_equal. lia.
  - unfold getStartingRow, metadata. now rewrite Hmd.
Qed.

End ViewsOfViews.

(** ** The further properties on sample inputs *)

(** X1 on a string of three characters. *)
Lemma reverse_twice_witness :
  Z.of_nat (length ["a"; "b"; "c"]%char) <= INT_MAX + 1 /\
  reverse ["a"; "b"; "c"]%char = Ok ["c"; "b"; "a"]%char /\
  (s' ← reverse ["a"; "b"; "c"]%char; reverse s') = Ok ["a"; "b"; "c"]%char.
Proof.
  assert (H : Z.of_nat (length ["a"; "b"; "c"]%char) <= INT_MAX + 1)
    by (unfold INT_MAX; simpl; lia).
  split; [exact H|]. exact (reverse_twice _ H).
Defined.

(** X2 on the longest string [itoa] writes. *)
Lemma itoa_length_witness :
  itoa (- INT_MAX) = Ok "-2147483647"%string /\
  (1 <= String.length "-2147483647" <= 11)%nat.
Proof.
  assert (H : itoa (- INT_MAX) = Ok "-2147483647"%string) by reflexivity.
  split; [exact H|]. exact (itoa_length (- INT_MAX) _ H).
Defined.

(** X3 on a negative number. *)
Lemma itoa_int_witness :
  - INT_MAX - 1 <= -120 <= INT_MAX /\
  exists s, itoa (-120) = Ok s /\ signed_decimal (-120) s /\
            signed_value s = -120.
Proof.
  assert (H : - INT_MAX - 1 <= -120 <= INT_MAX) by (unfold INT_MAX; lia).
  split; [exact H|].
  apply (proj2 (itoa_int (-120) H)). unfold INT_MAX. lia.
Defined.

(** X4 on [dense(3)], renamed and cut after its first row. *)
Lemma children_names_witness :
  exists c0 c1,
    rowPartitionedView UInt32 uint64 (setName dense3 "m") [0; 1; 3]
    = Ok [c0; c1] /\
    getName c0 = "m-p0"%string /\ getName c1 = "m-p1"%string /\
    getName c0 <> getName c1.
Proof.
  eexists _, _. split; [reflexivity|]. split; [reflexivity|].
  split; [reflexivity|].
  exact (proj2 (children_names UInt32 uint64 dense3 "m" [0; 1; 3] _ eq_refl)
           0%nat 1%nat _ _ eq_refl eq_refl (fun H : 0%nat = 1%nat => O_S 0 H)).
Defined.

(** X6 on the views of [dense(3)] cut after its first row. *)
Lemma views_deallocate_nothing_witness :
  exists c0 c1,
    rowPartitionedView UInt32 uint64 dense3 [0; 1; 3] = Ok [c0; c1] /\
    c1 ∈ [c0; c1] /\
    destructor c1 = [] /\
    destructor dense3
    = [delete_metadata (m_metadata dense3); delete_indices (m_indPtrs dense3);
       delete_indices (m_inds dense3); delete_values (m_nzData dense3)].
Proof.
  eexists _, _. split; [reflexivity|].
  split; [apply list_elem_of_further, list_elem_of_here|].
  split; [|reflexivity].
  exact (views_deallocate_nothing UInt32 uint64 dense3 [0; 1; 3] _ _ eq_refl
           (list_elem_of_further _ _ _ (list_elem_of_here _ _))).
Defined.

(** X7 on the matrix the constructor builds: two boundaries make one
    partition, [2^32 + 1] boundaries make none. *)
Lemma null_metadata_undefined_witness :
  m_metadata (new_CSR uint64) = None /\
  isSquare uint64 (new_CSR uint64) = Undefined /\
  getRows uint64 (new_CSR uint64) = Undefined /\
  printSummary (new_CSR uint64) = Undefined /\
  calcRowPartitionBoundaries UInt32 uint64 (new_CSR uint64) 2 = Undefined /\
  rowPartitionedView UInt32 uint64 (new_CSR uint64) [0; 0] = Undefined /\
  rowPartitionedView UInt32 uint64 (new_CSR uint64)
    (replicate (Z.to_nat (UINT_RANGE + 1)) 0) = Ok [].
Proof.
  assert (H : m_metadata (new_CSR uint64) = None) by reflexivity.
  destruct (null_metadata_undefined UInt32 uint64 (new_CSR uint64) H)
    as (H1 & H2 & _ & _ & _ & H6 & H7 & H8).
  split; [exact H|]. split; [exact H1|]. split; [exact H2|].
  split; [exact H6|]. split; [exact (H7 2)|].
  split; [exact (H8 [0; 0])|].
  rewrite H8, length_replicate, Z2Nat.id by (unfold UINT_RANGE; lia).
  reflexivity.
Defined.

(** X8 on [dense(3)] and its views. *)
Lemma isSquare_views_witness :
  isSquare uint64 dense3 = Ok true /\
  exists c0 c1,
    rowPartitionedView UInt32 uint64 dense3 [0; 1; 3] = Ok [c0; c1] /\
    isSquare uint64 c1 = Ok (3 =? 3 - 1).
Proof.
  destruct (isSquare_views UInt32 uint64) as (Hsq & Hview).
  split; [exact (Hsq 3 dense3 (or_intror (dense_3)))|].
  eexists _, _. split; [reflexivity|].
  apply (Hview dense3 [0; 1; 3] _ 1%nat _ 1 3 3 eq_refl eq_refl eq_refl eq_refl);
    [lia|lia|reflexivity|reflexivity].
Defined.

(** X10 on the sample store. *)
Lemma load_returns_components_witness :
  exists m,
    load UInt32 uint64 sample_store "m" false = Ok m /\
    exists md ip ix,
      file_meta (sample_store "m"%string) = Some md /\
      file_indptr (sample_store "m"%string) = Some ip /\
      file_inds (sample_store "m"%string) = Some ix /\
      m_metadata m = Some md /\
      getIndPtrs m = loaded ip /\
      getInds m = loaded ix /\
      getName m = "m"%string /\
      m_needsDealloc m = true /\
      (false = false ->
       exists vs, file_nzdata (sample_store "m"%string) = Some vs /\
                  getNZData m = loaded vs).
Proof.
  eexists. split; [reflexivity|].
  exact (load_returns_components UInt32 uint64 sample_store "m" false _ eq_refl).
Defined.

(** X11 on the store with 4-byte values and on the same store without its
    values. *)
Lemma load_genNZData_witness :
  exists m,
    load UInt32 uint64 narrow_store "m" true = Ok m /\
    load UInt32 uint64 no_values_store "m" true = Ok m /\
    getNNZ uint64 m = Ok 2 /\
    ptr_get (getNZData m) 0 = Ok 1 /\
    ptr_get (getNZData m) 1 = Ok 2 /\
    ptr_get (getNZData m) 2 = Undefined.
Proof.
  eexists. split; [reflexivity|].
  lazymatch goal with
  | |- _ = Ok ?m /\ _ =>
      assert (H : load UInt32 uint64 narrow_store "m" true = Ok m)
        by reflexivity;
      destruct (load_genNZData UInt32 uint64 narrow_store no_values_store "m"
                  m H eq_refl eq_refl eq_refl)
        as (Hsame & n & Hn & Hvals)
  end.
  split; [exact Hsame|].
  assert (n = 2) by (cbn in Hn; congruence). subst n.
  split; [exact Hn|].
  destruct Hvals as (Hk & Hend); [unfold is_uint, UINT_RANGE; lia|].
  split; [apply (Hk 0); lia|]. split; [apply (Hk 1); lia|]. exact Hend.
Defined.

(** X12 on the sample store. *)
Lemma load_records_widths_witness :
  exists m,
    load UInt32 uint64 sample_store "m" false = Ok m /\
    (exists md, m_metadata m = Some md /\
       bytesPerInd md = Some (sizeofInd UInt32) /\
       (false = false -> bytesPerVal md = Some sizeofVal)) /\
    exists c0 c1,
      rowPartitionedView UInt32 uint64 m [0; 1; 2] = Ok [c0; c1] /\
      exists md, m_metadata c1 = Some md /\
        bytesPerInd md = Some (sizeofInd UInt32) /\
        (false = false -> bytesPerVal md = Some sizeofVal).
Proof.
  eexists. split; [reflexivity|].
  lazymatch goal with
  | |- (exists md, m_metadata ?m = _ /\ _) /\ _ =>
      assert (H : load UInt32 uint64 sample_store "m" false = Ok m)
        by reflexivity;
      destruct (load_records_widths UInt32 uint64 sample_store "m" false
                  m H) as (Hm & Hc)
  end.
  split; [exact Hm|].
  eexists _, _. split; [reflexivity|].
  exact (Hc [0; 1; 2] _ _ eq_refl
           (list_elem_of_further _ _ _ (list_elem_of_here _ _))).
Defined.

(** X15 on [dense(3)]: the boundaries for two partitions are valid, those
    for three are not. *)
Lemma calcRowPartitionBoundaries_valid_witness :
  calcRowPartitionBoundaries UInt32 uint64 dense3 2 = Ok [0; 2; 3] /\
  valid_boundaries 3 [0; 2; 3] = true /\
  calcRowPartitionBoundaries UInt32 uint64 dense3 3 = Ok [0; 2; 4; 3] /\
  ~ (valid_boundaries 3 [0; 2; 4; 3] = true).
Proof.
  assert (Hr : getRows uint64 dense3 = Ok 3) by reflexivity.
  assert (H2 : calcRowPartitionBoundaries UInt32 uint64 dense3 2 = Ok [0; 2; 3])
    by reflexivity.
  assert (H3 : calcRowPartitionBoundaries UInt32 uint64 dense3 3
               = Ok [0; 2; 4; 3]) by reflexivity.
  split; [exact H2|]. split; [|split; [exact H3|]].
  - apply (proj2 (calcRowPartitionBoundaries_valid UInt32 uint64 dense3 3 2 _
                    Hr ltac:(lia) ltac:(lia) ltac:(reflexivity) H2)). lia.
  - intros Hv.
    apply (proj1 (calcRowPartitionBoundaries_valid UInt32 uint64 dense3 3 3 _
                    Hr ltac:(lia) ltac:(lia) ltac:(reflexivity) H3)) in Hv.
    change ((3 + 3) / 3 * (3 - 1)) with 4 in Hv. lia.
Defined.

(** X16 on [dense(3)] cut after its first row: the views have 1 and 2
    rows, 3 and 6 entries. *)
Lemma partitions_conserve_witness :
  invariants dense3 /\ getRows uint64 dense3 = Ok 3 /\
  valid_boundaries 3 [0; 1; 3] = true /\
  exists children,
    rowPartitionedView UInt32 uint64 dense3 [0; 1; 3] = Ok children /\
    mapM (getRows uint64) children = Ok [1; 2] /\ total [1; 2] = 3 /\
    getNNZ uint64 dense3 = Ok 9 /\
    mapM (getNNZ uint64) children = Ok [3; 6] /\ total [3; 6] = 9.
Proof.
  assert (H1 : invariants dense3) by by_decision.
  assert (H2 : getRows uint64 dense3 = Ok 3) by reflexivity.
  assert (H3 : valid_boundaries 3 [0; 1; 3] = true) by reflexivity.
  assert (H4 : Z.of_nat (length [0; 1; 3]) <= INT_MAX + 2)
    by (unfold INT_MAX; simpl; lia).
  repeat (split; [assumption|]).
  destruct (partitions_conserve UInt32 uint64 dense3 3 [0; 1; 3] H1 H2 H3 H4)
    as (children & rs & ns & n & Hrun & Hrs & Hr & Hn & Hns & Hnz).
  exists children. split; [exact Hrun|].
  assert (E : children = [_; _]) by (vm_compute in Hrun; injection Hrun as <-; reflexivity).
  rewrite E in Hrs, Hns |- *.
  repeat split; reflexivity.
Defined.

(** X17 on [dense(3)] and two partitions: the views start at the rows 0
    and 2 and have 2 rows and 1 row. *)
Lemma calcRowPartitionBoundaries_chunks_witness :
  invariants dense3 /\ getRows uint64 dense3 = Ok 3 /\
  exists c0 c1,
    calcRowPartitionBoundaries UInt32 uint64 dense3 2 = Ok [0; 2; 3] /\
    rowPartitionedView UInt32 uint64 dense3 [0; 2; 3] = Ok [c0; c1] /\
    getStartingRow uint64 c0 = Ok 0 /\ getRows uint64 c0 = Ok 2 /\
    getStartingRow uint64 c1 = Ok 2 /\ getRows uint64 c1 = Ok 1.
Proof.
  assert (H1 : invariants dense3) by by_decision.
  assert (H2 : getRows uint64 dense3 = Ok 3) by reflexivity.
  repeat (split; [assumption|]).
  destruct (calcRowPartitionBoundaries_chunks UInt32 uint64 dense3 3 2 H1 H2)
    as (b & children & Hb & Hrun & Hlen & Hc); [lia|lia|reflexivity|].
  assert (Eb : b = [0; 2; 3]) by (vm_compute in Hb; congruence). subst b.
  destruct children as [|c0 [|c1 [|c2 children]]]; try discriminate.
  exists c0, c1. split; [exact Hb|]. split; [exact Hrun|].
  destruct (Hc 0%nat c0 eq_refl) as (Hs0 & Hr0).
  destruct (Hc 1%nat c1 eq_refl) as (Hs1 & Hr1).
  repeat split; assumption.
Defined.

(** X18 on [dense(3)] cut after its first row: the first row of the second
    view is the second row of the matrix. *)
Lemma view_rows_are_parent_rows_witness :
  invariants dense3 /\ zero_based dense3 /\
  getRows uint64 dense3 = Ok 3 /\ valid_boundaries 3 [0; 1; 3] = true /\
  exists c0 c1,
    rowPartitionedView UInt32 uint64 dense3 [0; 1; 3] = Ok [c0; c1] /\
    row_entries uint64 dense3 (1 + 0) = Ok [(0, 4); (1, 5); (2, 6)] /\
    view_row_entries c1 0 = Ok [(0, 4); (1, 5); (2, 6)].
Proof.
  assert (H1 : invariants dense3) by by_decision.
  assert (H2 : zero_based dense3) by reflexivity.
  assert (H3 : getRows uint64 dense3 = Ok 3) by reflexivity.
  assert (H4 : valid_boundaries 3 [0; 1; 3] = true) by reflexivity.
  repeat (split; [assumption|]).
  eexists _, _. split; [reflexivity|].
  lazymatch goal with
  | |- _ /\ view_row_entries ?c 0 = _ =>
      destruct (view_rows_are_parent_rows UInt32 uint64 dense3 3 [0; 1; 3]
                  _ 1%nat c 1 3 0 H1 H2 H3 H4 eq_refl eq_refl eq_refl eq_refl)
        as (es & Hp & Hv); [lia|]
  end.
  assert (E : es = [(0, 4); (1, 5); (2, 6)]) by (vm_compute in Hp; congruence).
  subst es. split; assumption.
Defined.

(** X19 on the dimension 3. *)
Lemma constructors_defined_witness :
  0 <= 3 < UINT_RANGE /\
  (exists m, eye uint64 3 = Ok m) /\
  (exists m, dense UInt32 uint64 3 = Ok m).
Proof.
  assert (H : 0 <= 3 < UINT_RANGE) by (unfold UINT_RANGE; lia).
  split; [exact H|].
  apply (proj2 (constructors_defined UInt32 uint64 3 H)).
  unfold UINT_RANGE. lia.
Defined.

(** X20 on [dense(3)]. *)
Lemma dense_invariants_iff_witness :
  0 <= 3 /\ 3 + 1 < UINT_RANGE /\ dense UInt32 uint64 3 = Ok dense3 /\
  (invariants dense3 <-> 3 * 3 < UINT_RANGE).
Proof.
  assert (H1 : 0 <= 3) by lia.
  assert (H2 : 3 + 1 < UINT_RANGE) by reflexivity.
  assert (H3 : dense UInt32 uint64 3 = Ok dense3) by reflexivity.
  repeat (split; [assumption|]).
  exact (dense_invariants_iff UInt32 uint64 3 dense3 H1 H2 H3).
Defined.

(** X22 on [dense(3)] and the boundaries computed for three partitions:
    the boundary 4 is beyond the four index pointers. *)
Lemma rowPartitionedView_out_of_range_witness :
  m_indPtrs dense3 = loaded [0; 3; 6; 9] /\
  1 <= uint (Z.of_nat (length [0; 2; 4; 3]) - 1) /\
  Z.of_nat 2 <= uint (Z.of_nat (length [0; 2; 4; 3]) - 1) /\
  [0; 2; 4; 3] !! 2%nat = Some 4 /\
  ~ (0 <= 4 < Z.of_nat (length [0; 3; 6; 9])) /\
  rowPartitionedView UInt32 uint64 dense3 [0; 2; 4; 3] = Undefined.
Proof.
  assert (H1 : m_indPtrs dense3 = loaded [0; 3; 6; 9]) by reflexivity.
  assert (H2 : 1 <= uint (Z.of_nat (length [0; 2; 4; 3]) - 1))
    by (vm_compute; discriminate).
  assert (H3 : Z.of_nat 2 <= uint (Z.of_nat (length [0; 2; 4; 3]) - 1))
    by (vm_compute; discriminate).
  assert (H4 : [0; 2; 4; 3] !! 2%nat = Some 4) by reflexivity.
  assert (H5 : ~ (0 <= 4 < Z.of_nat (length [0; 3; 6; 9]))) by (simpl; lia).
  repeat (split; [assumption|]).
  exact (rowPartitionedView_out_of_range UInt32 uint64 dense3 [0; 2; 4; 3]
           [0; 3; 6; 9] 2 4 H1 H2 H3 H4 H5).
Defined.

(** X13 on the sample store and on the store that holds the metadata
    only. *)
Lemma load_outcomes_witness :
  (exists m, load UInt32 uint64 sample_store "m" false = Ok m) /\
  fails_with FormatError (load UInt32 uint64 meta_only_store "m" false).
Proof.
  split.
  - destruct (load_outcomes UInt32 uint64 sample_store "m" false sample_meta
                eq_refl (mk_is_Some _ _ eq_refl) (mk_is_Some _ _ eq_refl)
                (mk_is_Some _ _ eq_refl)) as [Hm|(k & what & Hw & _)];
      [exact Hm|discriminate Hw].
  - eexists. split; reflexivity.
Defined.

(** X23 on [dense(3)]: the second view of the second view of the matrix
    cut after its first row has its entries beyond the nine that are
    stored. *)
Lemma views_of_views_witness :
  exists c0 c g0 g,
    rowPartitionedView UInt32 uint64 dense3 [0; 1; 3] = Ok [c0; c] /\
    rowPartitionedView UInt32 uint64 c [0; 1; 2] = Ok [g0; g] /\
    ptr_get (m_indPtrs dense3) 1 = Ok 3 /\
    ptr_get (m_indPtrs dense3) (1 + 1) = Ok 6 /\
    ptr_get (m_indPtrs g) 0 = Ok 6 /\
    (forall k, ptr_get (m_inds g) k = ptr_get (m_inds dense3) (3 + 6 + k)) /\
    ptr_get (m_inds g) 0 = Undefined /\
    getStartingRow uint64 g = Ok 1.
Proof.
  eexists _, _, _, _. split; [reflexivity|]. split; [reflexivity|].
  split; [reflexivity|]. split; [reflexivity|].
  lazymatch goal with
  | |- ptr_get (m_indPtrs ?g) 0 = _ /\ _ =>
      destruct (views_of_views UInt32 uint64 dense3 _ g [0; 1; 3] [0; 1; 2]
                  _ _ 1%nat 1%nat 1 1 3 6 eq_refl eq_refl eq_refl eq_refl
                  eq_refl eq_refl eq_refl eq_refl) as (H1 & H2 & _ & H4)
  end.
  split; [rewrite H1; reflexivity|]. split; [exact H2|].
  split; [rewrite H2; reflexivity|]. exact H4.
Defined.
